(** * Verification of pfcp-generator: identifier allocators, session
    identity mapping, message rewriting and the transaction tracker.

  The Go sources are embedded shallowly:
  - [uint64] / [uint32] / [int] values are [Z] with the wrap-around of the
    machine type written out at every increment;
  - [map[K]bool] used as a set of held identifiers is a [gset];
    other Go maps are [gmap]s;
  - objects reached through pointers ([*types.SessionInfo],
    [*PendingTransaction]) live in an explicit store indexed by [nat]
    addresses, so that aliasing between the lookup tables is kept;
  - loops are [Fixpoint]s over the loop bound of the source;
  - the clock, the random generator, the peer and the go-pfcp codec are
    inputs of the functions that consult them. *)

From stdpp Require Import gmap strings list fin_maps.
From Stdlib Require Import ZArith Lia.

Open Scope Z_scope.

(** Result of a fallible Go function [(T, error)]. *)
Inductive result (E A : Type) : Type :=
| Ok (a : A)
| Err (e : E).
Arguments Ok {E A} a.
Arguments Err {E A} e.

(** ** internal/session/seid_allocator.go *)
Module SEIDAlloc.

(** [math/rand]'s global source: the sequence of values that successive
    calls of [rand.Uint64()] return, and how many have been drawn. *)
Record Rng := { stream : nat -> Z; drawn : nat }.

Definition Uint64 (g : Rng) : Z * Rng :=
  (stream g (drawn g), {| stream := stream g; drawn := S (drawn g) |}).

Inductive AllocError :=
| ErrTooManyCollisions        (* "failed to allocate sequential SEID: too many collisions" *)
| ErrRandomAttempts           (* "failed to allocate random SEID after 10000 attempts" *)
| ErrUnknownStrategy (s : string).

(** [usedSEIDs map[uint64]bool] only ever stores [true] and entries are
    removed with [delete]: it is the set of its keys. *)
Record SEIDAllocator := {
  strategy  : string;
  nextSEID  : Z;
  usedSEIDs : gset Z
}.

Definition NewSEIDAllocator (strategy : string) (startSEID : Z) : SEIDAllocator :=
  let startSEID := if startSEID =? 0 then 1 else startSEID in
  {| strategy := strategy; nextSEID := startSEID; usedSEIDs := ∅ |}.

(** [s.nextSEID++] on a [uint64]. *)
Definition incr64 (x : Z) : Z := (x + 1) mod 2 ^ 64.

(** The [for i := 0; i < 1000000; i++] loop of the sequential branch;
    [iters] is the number of iterations left. *)
Fixpoint allocSequential (iters : nat) (s : SEIDAllocator)
  : result AllocError Z * SEIDAllocator :=
  match iters with
  | O => (Err ErrTooManyCollisions, s)
  | S iters' =>
      let next := if nextSEID s =? 0 then 1 else nextSEID s in
      let seid := next in
      let s1 := {| strategy := strategy s; nextSEID := incr64 next;
                   usedSEIDs := usedSEIDs s |} in
      if decide (seid ∈ usedSEIDs s1) then allocSequential iters' s1
      else (Ok seid, {| strategy := strategy s1; nextSEID := nextSEID s1;
                        usedSEIDs := {[ seid ]} ∪ usedSEIDs s1 |})
  end.

(** The [for attempts := 0; attempts < 10000; attempts++] loop of the
    random branch. *)
Fixpoint allocRandom (attempts : nat) (g : Rng) (s : SEIDAllocator)
  : result AllocError Z * SEIDAllocator * Rng :=
  match attempts with
  | O => (Err ErrRandomAttempts, s, g)
  | S attempts' =>
      let '(seid, g1) := Uint64 g in
      if (seid =? 0) || bool_decide (seid ∈ usedSEIDs s)
      then allocRandom attempts' g1 s
      else (Ok seid, {| strategy := strategy s; nextSEID := nextSEID s;
                        usedSEIDs := {[ seid ]} ∪ usedSEIDs s |}, g1)
  end.

Definition sequentialBound : nat := Z.to_nat 1000000.
Definition randomBound : nat := Z.to_nat 10000.

Definition Allocate (g : Rng) (s : SEIDAllocator)
  : result AllocError Z * SEIDAllocator * Rng :=
  if String.eqb (strategy s) "sequential" then
    let '(r, s') := allocSequential sequentialBound s in (r, s', g)
  else if String.eqb (strategy s) "random" then
    allocRandom randomBound g s
  else (Err (ErrUnknownStrategy (strategy s)), s, g).

Definition Release (s : SEIDAllocator) (seid : Z) : SEIDAllocator :=
  {| strategy := strategy s; nextSEID := nextSEID s;
     usedSEIDs := usedSEIDs s ∖ {[ seid ]} |}.

Definition AllocatedCount (s : SEIDAllocator) : Z := Z.of_nat (size (usedSEIDs s)).

(** [n] successive calls of [Allocate], oldest result first. *)
Fixpoint AllocateN (n : nat) (g : Rng) (s : SEIDAllocator)
  : list (result AllocError Z) * SEIDAllocator * Rng :=
  match n with
  | O => ([], s, g)
  | S n' =>
      let '(r, s1, g1) := Allocate g s in
      let '(rs, s2, g2) := AllocateN n' g1 s1 in
      (r :: rs, s2, g2)
  end.

(** The result of the [k]-th call ([k] counted from 1) on [s]. *)
Definition kthAllocate (k : nat) (g : Rng) (s : SEIDAllocator)
  : option (result AllocError Z) :=
  match k with
  | O => None
  | S k' => (AllocateN k g s).1.1 !! k'
  end.

(** State of a sequential allocator created with base [B] after [n]
    allocations and no release. *)
Definition afterN (B : Z) (n : nat) : SEIDAllocator :=
  {| strategy := "sequential"; nextSEID := incr64 (B + Z.of_nat n - 1);
     usedSEIDs := list_to_set (seqZ B (Z.of_nat n)) |}.

(** A generator that always yields [c]. *)
Definition constRng (c : Z) : Rng := {| stream := fun _ => c; drawn := 0 |}.

(** A generator that yields the values of [l], then zeros. *)
Definition listRng (l : list Z) : Rng :=
  {| stream := fun i => nth i l 0; drawn := 0 |}.

End SEIDAlloc.

(** ** internal/session/ip_pool.go *)
Module IPPool.

(** A 4-byte [net.IP] is the 32-bit number its bytes spell, most
    significant byte first. [incrementIP] adds one with carry from the
    last byte upwards and wraps at the top. *)
Definition incrementIP (ip : Z) : Z := (ip + 1) mod 2 ^ 32.

(** The same function on the byte slice, as the source writes it: the
    loop runs from the last byte down and stops at the first byte that
    does not overflow. [incrementLE] works on the reversed slice. *)
Fixpoint incrementLE (bs : list Z) : list Z :=
  match bs with
  | [] => []
  | b :: rest =>
      let b' := (b + 1) mod 256 in
      if 0 <? b' then b' :: rest else b' :: incrementLE rest
  end.

Definition incrementIPBytes (ip : list Z) : list Z := rev (incrementLE (rev ip)).

Fixpoint valueLE (bs : list Z) : Z :=
  match bs with
  | [] => 0
  | b :: rest => b + 256 * valueLE rest
  end.

(** Big-endian value of a byte slice. *)
Definition ipOfBytes (ip : list Z) : Z := valueLE (rev ip).

(** [net.IPNet] of an IPv4 block: the network number and the number of
    leading one bits of the mask. *)
Record IPNet := { netIP : Z; maskOnes : Z }.

(** [net.CIDRMask(ones, 32)]. *)
Definition CIDRMask (ones : Z) : Z := Z.shiftl (Z.ones ones) (32 - ones).

(** [IPNet.Contains]: equal after masking. *)
Definition Contains (n : IPNet) (ip : Z) : bool :=
  Z.land ip (CIDRMask (maskOnes n)) =? Z.land (netIP n) (CIDRMask (maskOnes n)).

(** [net.ParseCIDR] on the text of an IPv4 block ["a.b.c.d/ones"]: the
    argument is the address and prefix length the text denotes; the
    returned network number is the address masked. *)
Definition ParseCIDR (addr ones : Z) : option IPNet :=
  if (0 <=? addr) && (addr <? 2 ^ 32) && (0 <=? ones) && (ones <=? 32)
  then Some {| netIP := Z.land addr (CIDRMask ones); maskOnes := ones |}
  else None.

Inductive PoolError :=
| ErrInvalidCIDR
| ErrPoolExhausted (held : Z).  (* "UE IP pool exhausted (all %d addresses allocated)" *)

(** [allocated map[string]bool] keyed by the dotted text of the address,
    which determines the address: the set of held addresses. *)
Record UEIPPool := {
  cidr      : IPNet;
  nextIP    : Z;
  allocated : gset Z
}.

Definition NewUEIPPool (addr ones : Z) : result PoolError UEIPPool :=
  match ParseCIDR addr ones with
  | None => Err ErrInvalidCIDR
  | Some ipnet =>
      let firstIP := incrementIP (netIP ipnet) in
      Ok {| cidr := ipnet; nextIP := firstIP; allocated := ∅ |}
  end.

(** [if !p.cidr.Contains(p.nextIP) { copy(p.nextIP, p.cidr.IP); incrementIP(p.nextIP) }] *)
Definition wrapCursor (n : IPNet) (ip : Z) : Z :=
  if Contains n ip then ip else incrementIP (netIP n).

(** [ones, bits := p.cidr.Mask.Size(); 1 << (bits - ones)] on a 64-bit [int]. *)
Definition totalIPs (n : IPNet) : Z := Z.shiftl 1 (32 - maskOnes n).

(** The [for { ... }] loop of [Allocate]. The source loop has no bound of
    its own; [fuel] bounds the number of iterations and [None] means the
    bound was reached ([Allocate_terminates] shows it never is). *)
Fixpoint scan (fuel : nat) (p : UEIPPool) (startIP checked total : Z)
  : option (result PoolError Z * UEIPPool) :=
  match fuel with
  | O => None
  | S fuel' =>
      if decide (nextIP p ∈ allocated p) then
        let checked := checked + 1 in
        let next := wrapCursor (cidr p) (incrementIP (nextIP p)) in
        let p1 := {| cidr := cidr p; nextIP := next; allocated := allocated p |} in
        if (checked >=? total - 1) || (next =? startIP)
        then Some (Err (ErrPoolExhausted (Z.of_nat (size (allocated p)))), p1)
        else scan fuel' p1 startIP checked total
      else
        let result := nextIP p in
        Some (Ok result,
              {| cidr := cidr p;
                 nextIP := wrapCursor (cidr p) (incrementIP (nextIP p));
                 allocated := {[ result ]} ∪ allocated p |})
  end.

Definition Allocate (p : UEIPPool) : option (result PoolError Z * UEIPPool) :=
  let p0 := {| cidr := cidr p; nextIP := wrapCursor (cidr p) (nextIP p);
               allocated := allocated p |} in
  let startIP := nextIP p0 in
  let total := totalIPs (cidr p) in
  scan (Z.to_nat total) p0 startIP 0 total.

Definition Release (p : UEIPPool) (ip : Z) : UEIPPool :=
  {| cidr := cidr p; nextIP := nextIP p; allocated := allocated p ∖ {[ ip ]} |}.

Definition AllocatedCount (p : UEIPPool) : Z := Z.of_nat (size (allocated p)).

Definition Available (p : UEIPPool) : Z :=
  let total := totalIPs (cidr p) in
  let avail := total - Z.of_nat (size (allocated p)) - 2 in
  if avail <? 0 then 0 else avail.

(** [n] successive calls of [Allocate], oldest result first; [None] if a
    call ran out of fuel. *)
Fixpoint AllocateN (n : nat) (p : UEIPPool)
  : option (list (result PoolError Z) * UEIPPool) :=
  match n with
  | O => Some ([], p)
  | S n' =>
      match Allocate p with
      | None => None
      | Some (r, p1) =>
          match AllocateN n' p1 with
          | None => None
          | Some (rs, p2) => Some (r :: rs, p2)
          end
      end
  end.

(** *** Vocabulary of the statements *)

(** Size of the block as a power of two. *)
Definition blockSize (n : IPNet) : Z := 2 ^ (32 - maskOnes n).

(** A block with prefix length between 1 and 31 whose network number is
    aligned, as [ParseCIDR] returns it. *)
Definition properBlock (n : IPNet) : Prop :=
  1 <= maskOnes n <= 31 /\ 0 <= netIP n /\
  netIP n + blockSize n <= 2 ^ 32 /\ netIP n mod blockSize n = 0.

(** The addresses of the block other than its network address. *)
Definition issuable (n : IPNet) (a : Z) : Prop :=
  netIP n < a < netIP n + blockSize n.

(** Invariant of a pool: the cursor is an issuable address. *)
Definition wfPool (p : UEIPPool) : Prop :=
  properBlock (cidr p) /\ issuable (cidr p) (nextIP p).

(** The address the cursor moves to from [a]. *)
Definition succIn (n : IPNet) (a : Z) : Z :=
  if a + 1 <? netIP n + blockSize n then a + 1 else netIP n + 1.

(** Number of cursor moves from [start] to [a]. *)
Definition dist (n : IPNet) (start a : Z) : Z :=
  if start <=? a then a - start else a - start + (blockSize n - 1).

(** The pool over block [n] after [m] allocations from fresh and no
    release: the first [m] issuable addresses are held and the cursor is
    on the next one, or back on the first when all are held. *)
Definition poolAfter (n : IPNet) (m : Z) : UEIPPool :=
  {| cidr := n;
     nextIP := if m <? blockSize n - 1 then netIP n + 1 + m else netIP n + 1;
     allocated := list_to_set (seqZ (netIP n + 1) m) |}.

(** One [Allocate] whose result, if any, is handed back with [Release]. *)
Definition allocRelease (p : UEIPPool) : option UEIPPool :=
  match Allocate p with
  | None => None
  | Some (Ok v, p') => Some (Release p' v)
  | Some (Err _, p') => Some p'
  end.

Fixpoint rounds (k : nat) (p : UEIPPool) : option UEIPPool :=
  match k with
  | O => Some p
  | S k' => match allocRelease p with
            | None => None
            | Some p' => rounds k' p'
            end
  end.

(** The block [0.0.0.0/0] and a pool over it holding nothing. *)
Definition wholeSpace : IPNet := {| netIP := 0; maskOnes := 0 |}.
Definition idleWholeSpace (cursor : Z) : UEIPPool :=
  {| cidr := wholeSpace; nextIP := cursor; allocated := ∅ |}.

(** Dotted-quad to number. *)
Definition ipv4 (a b c d : Z) : Z := ipOfBytes [a; b; c; d].

(** The block 10.60.0.0/30 used by the repository's tests. *)
Definition block30 : IPNet := {| netIP := ipv4 10 60 0 0; maskOnes := 30 |}.

End IPPool.

(** ** internal/network/transaction.go *)
Module Tracker.

Inductive TxError :=
| ErrTimeout (retries : Z)     (* "timeout after %d retries" *)
| ErrCancelled                 (* "cancelled" *)
| ErrContextDone.              (* ctx.Err(), produced by the caller that waits *)

(** [types.TransactionResult]; times are in nanoseconds. *)
Record TransactionResult := {
  resSeqNum    : Z;
  Response     : list Z;
  ResponseTime : Z;
  Error        : option TxError
}.

(** [PendingTransaction]. [ResultCh] names the channel made by [Track]. *)
Record PendingTransaction := {
  SeqNum      : Z;
  RequestData : list Z;
  SentAt      : Z;
  RetryCount  : Z;
  ResultCh    : nat
}.

(** [TransactionTracker] with what it points at. [pending] maps a
    sequence number to the address of a [PendingTransaction] in [heap];
    [chans] holds, for every channel, the results sent on it so far;
    [wire] lists the calls of [sender.Send] made by the tracker, each
    with the address of the transaction whose bytes were resent. *)
Record TransactionTracker := {
  pending    : gmap Z nat;
  heap       : gmap nat PendingTransaction;
  chans      : gmap nat (list TransactionResult);
  nextAddr   : nat;
  timeout    : Z;
  maxRetries : Z;
  wire       : list (nat * list Z)
}.

Definition NewTransactionTracker (timeoutMs maxRetries : Z) : TransactionTracker :=
  {| pending := ∅; heap := ∅; chans := ∅; nextAddr := 0;
     timeout := timeoutMs * 1000000; maxRetries := maxRetries; wire := [] |}.

(** [resultCh <- r]: the send is recorded on the channel. *)
Definition chanSend (ch : nat) (r : TransactionResult)
           (cs : gmap nat (list TransactionResult)) : gmap nat (list TransactionResult) :=
  <[ ch := default [] (cs !! ch) ++ [r] ]> cs.

(** Values sent so far on the channel of the transaction at [a]. *)
Definition delivered (t : TransactionTracker) (a : nat) : list TransactionResult :=
  default [] (chans t !! a).

Definition Track (seqNum : Z) (requestData : list Z) (now : Z) (t : TransactionTracker)
  : nat * TransactionTracker :=
  let a := nextAddr t in
  let tx := {| SeqNum := seqNum; RequestData := requestData; SentAt := now;
               RetryCount := 0; ResultCh := a |} in
  (a, {| pending := <[ seqNum := a ]> (pending t);
         heap := <[ a := tx ]> (heap t);
         chans := <[ a := [] ]> (chans t);
         nextAddr := S a;
         timeout := timeout t; maxRetries := maxRetries t; wire := wire t |}).

Definition Resolve (seqNum : Z) (responseData : list Z) (now : Z) (t : TransactionTracker)
  : TransactionTracker :=
  match pending t !! seqNum with
  | None => t                       (* "Received response for unknown transaction" *)
  | Some a =>
      match heap t !! a with
      | None => t
      | Some tx =>
          {| pending := delete seqNum (pending t);
             heap := heap t;
             chans := chanSend (ResultCh tx)
                        {| resSeqNum := seqNum; Response := responseData;
                           ResponseTime := now - SentAt tx; Error := None |}
                        (chans t);
             nextAddr := nextAddr t;
             timeout := timeout t; maxRetries := maxRetries t; wire := wire t |}
      end
  end.

(** The locked first half of [checkTimeouts]: the transactions whose age
    exceeds the timeout, in the order the map is iterated. *)
Definition timedOut (now : Z) (t : TransactionTracker) : list nat :=
  omap (fun '(_, a) =>
          match heap t !! a with
          | Some tx => if timeout t <? now - SentAt tx then Some a else None
          | None => None
          end)
       (map_to_list (pending t)).

(** [t.sender.Send(tx.RequestData)] of [handleTimeout], made after the
    lock is released: the call is recorded on [wire]. *)
Definition sendRetransmission (out : nat * list Z) (t : TransactionTracker)
  : TransactionTracker :=
  {| pending := pending t; heap := heap t; chans := chans t; nextAddr := nextAddr t;
     timeout := timeout t; maxRetries := maxRetries t; wire := wire t ++ [out] |}.

(** The part of [handleTimeout] that runs under the lock. In the retry
    branch it raises the retry count, resets the sent-time and unlocks;
    the retransmission it has decided is returned and is sent only
    afterwards. In the last branch it removes the entry and unlocks; the
    send on the result channel that follows is recorded here. *)
Definition handleTimeoutLocked (a : nat) (now : Z) (t : TransactionTracker)
  : TransactionTracker * option (nat * list Z) :=
  match heap t !! a with
  | None => (t, None)
  | Some tx =>
      match pending t !! SeqNum tx with
      | None => (t, None)           (* resolved between check and handle *)
      | Some _ =>
          if RetryCount tx <? maxRetries t then
            let tx' := {| SeqNum := SeqNum tx; RequestData := RequestData tx;
                          SentAt := now; RetryCount := RetryCount tx + 1;
                          ResultCh := ResultCh tx |} in
            ({| pending := pending t;
                heap := <[ a := tx' ]> (heap t);
                chans := chans t;
                nextAddr := nextAddr t;
                timeout := timeout t; maxRetries := maxRetries t;
                wire := wire t |},
             Some (a, RequestData tx))
          else
            ({| pending := delete (SeqNum tx) (pending t);
                heap := heap t;
                chans := chanSend (ResultCh tx)
                           {| resSeqNum := SeqNum tx; Response := []; ResponseTime := 0;
                              Error := Some (ErrTimeout (maxRetries t)) |}
                           (chans t);
                nextAddr := nextAddr t;
                timeout := timeout t; maxRetries := maxRetries t; wire := wire t |},
             None)
      end
  end.

(** One call of [handleTimeout] from its first line to its last with no
    other goroutine in between: the locked part, then the send it
    decided. *)
Definition handleTimeout (a : nat) (now : Z) (t : TransactionTracker) : TransactionTracker :=
  match handleTimeoutLocked a now t with
  | (t', Some out) => sendRetransmission out t'
  | (t', None) => t'
  end.


Definition PendingCount (t : TransactionTracker) : Z := Z.of_nat (size (pending t)).

(** Body of the loop of [CancelAll] for one entry of [pending]. *)
Definition cancelOne (h : gmap nat PendingTransaction)
           (cs : gmap nat (list TransactionResult)) (entry : Z * nat)
  : gmap nat (list TransactionResult) :=
  match h !! entry.2 with
  | Some tx =>
      chanSend (ResultCh tx)
        {| resSeqNum := entry.1; Response := []; ResponseTime := 0;
           Error := Some ErrCancelled |} cs
  | None => cs
  end.

Definition CancelAll (t : TransactionTracker) : TransactionTracker :=
  {| pending := ∅;
     heap := heap t;
     chans := foldl (cancelOne (heap t)) (chans t) (map_to_list (pending t));
     nextAddr := nextAddr t;
     timeout := timeout t; maxRetries := maxRetries t; wire := wire t |}.

(** *** The goroutines around the tracker

    The replay loop calls [Track], the receive path calls [Resolve], the
    monitor goroutine runs [checkTimeouts]: it takes its snapshot under
    the lock, then calls [handleTimeout] for each entry, taking the lock
    anew each time; when [handleTimeout] has decided a retransmission it
    releases the lock and only then calls [sender.Send]. An event is one
    critical section, or that send; [snapshot] is the part of the
    monitor's list not handled yet, [sending] the retransmission the
    monitor has decided and not yet sent. The monitor is one goroutine:
    it sends before it handles its next entry, and starts a sweep only
    when the previous one is done. *)
Record System := {
  trk      : TransactionTracker;
  snapshot : list nat;
  sending  : option (nat * list Z)
}.

Inductive Event :=
| EvTrack (seqNum : Z) (requestData : list Z) (now : Z)
| EvResolve (seqNum : Z) (responseData : list Z) (now : Z)
| EvScan (now : Z)         (* the monitor starts a sweep *)
| EvHandle (now : Z)       (* the monitor runs the locked part of handleTimeout *)
| EvSend                   (* the monitor makes the send it has decided *)
| EvCancelAll.

Definition exec (s : System) (e : Event) : System :=
  match e with
  | EvTrack seqNum data now =>
      {| trk := (Track seqNum data now (trk s)).2; snapshot := snapshot s;
         sending := sending s |}
  | EvResolve seqNum data now =>
      {| trk := Resolve seqNum data now (trk s); snapshot := snapshot s;
         sending := sending s |}
  | EvScan now =>
      match snapshot s, sending s with
      | [], None =>
          {| trk := trk s; snapshot := timedOut now (trk s); sending := None |}
      | _, _ => s              (* the previous sweep has not finished *)
      end
  | EvHandle now =>
      match sending s with
      | Some _ => s            (* the monitor has a send to make first *)
      | None =>
          match snapshot s with
          | [] => s
          | a :: rest =>
              {| trk := (handleTimeoutLocked a now (trk s)).1; snapshot := rest;
                 sending := (handleTimeoutLocked a now (trk s)).2 |}
          end
      end
  | EvSend =>
      match sending s with
      | Some out =>
          {| trk := sendRetransmission out (trk s); snapshot := snapshot s;
             sending := None |}
      | None => s
      end
  | EvCancelAll =>
      {| trk := CancelAll (trk s); snapshot := snapshot s; sending := sending s |}
  end.

Definition run (evs : list Event) (s : System) : System := foldl exec s evs.

Definition start (timeoutMs maxRetries : Z) : System :=
  {| trk := NewTransactionTracker timeoutMs maxRetries; snapshot := [];
     sending := None |}.

(** The transaction at [a] is the one registered under its sequence number. *)
Definition isPending (t : TransactionTracker) (a : nat) : Prop :=
  exists tx, heap t !! a = Some tx /\ pending t !! SeqNum tx = Some a.

(** A sequence number may be registered when no transaction is pending
    under it and none of the monitor's unhandled entries carries it. *)
Definition seqFree (s : System) (seqNum : Z) : Prop :=
  pending (trk s) !! seqNum = None /\
  forall a tx, a ∈ snapshot s -> heap (trk s) !! a = Some tx -> SeqNum tx <> seqNum.

(** A run in which every [Track] uses a free sequence number. *)
Fixpoint freshRun (s : System) (evs : list Event) : Prop :=
  match evs with
  | [] => True
  | e :: evs' =>
      match e with
      | EvTrack seqNum _ _ => seqFree s seqNum
      | _ => True
      end /\ freshRun (exec s e) evs'
  end.

(** Number of retransmissions of the transaction at [a]. *)
Definition resent (t : TransactionTracker) (a : nat) : nat :=
  length (filter (fun e => e.1 = a) (wire t)).

(** What holds of one registered transaction [tx] at address [a]. *)
Definition txOk (t : TransactionTracker) (a : nat) (tx : PendingTransaction) : Prop :=
  ResultCh tx = a /\ (a < nextAddr t)%nat /\
  0 <= RetryCount tx <= Z.max 0 (maxRetries t) /\
  Z.of_nat (resent t a) = RetryCount tx /\
  (forall d, (a, d) ∈ wire t -> d = RequestData tx) /\
  ((pending t !! SeqNum tx = Some a /\ delivered t a = []) \/
   (pending t !! SeqNum tx <> Some a /\
    exists r, delivered t a = [r] /\
              (forall n, Error r = Some (ErrTimeout n) ->
                         RetryCount tx = Z.max 0 (maxRetries t)))).

(** Invariant of a tracker [t] together with the monitor's unhandled
    entries [snap]. *)
Definition trkInv (t : TransactionTracker) (snap : list nat) : Prop :=
  (forall seqNum a, pending t !! seqNum = Some a ->
                    exists tx, heap t !! a = Some tx /\ SeqNum tx = seqNum) /\
  (forall a tx, heap t !! a = Some tx -> txOk t a tx) /\
  (forall a d, (a, d) ∈ wire t -> is_Some (heap t !! a)) /\
  (forall a, a ∈ snap ->
             exists tx, heap t !! a = Some tx /\
                        (pending t !! SeqNum tx = Some a \/
                         pending t !! SeqNum tx = None)).

(** The tracker as it is once the monitor has made the send it has
    decided. *)
Definition caughtUp (s : System) : TransactionTracker :=
  match sending s with
  | Some out => sendRetransmission out (trk s)
  | None => trk s
  end.

(** Number of retransmissions of the transaction at [a] decided so far:
    those sent and the one the monitor is about to send. *)
Definition decided (s : System) (a : nat) : nat := resent (caughtUp s) a.

(** Invariant of the system: retransmissions are counted when they are
    decided, and a transaction whose retransmission is still to be sent
    has not been failed with a timeout. *)
Definition sysInv (s : System) : Prop :=
  trkInv (caughtUp s) (snapshot s) /\
  (forall a d r n, sending s = Some (a, d) -> r ∈ delivered (trk s) a ->
                   Error r <> Some (ErrTimeout n)).

(** A registered transaction that is no longer pending. *)
Definition settled (s : System) (a : nat) : Prop :=
  exists tx, heap (trk s) !! a = Some tx /\ pending (trk s) !! SeqNum tx <> Some a.

(** *** Sample runs *)

(** One request, sequence number 7, registered at time 0. *)
Definition oneTracked : list Event := [EvTrack 7 [1; 2] 0].

Definition oneTrackedTx : PendingTransaction :=
  {| SeqNum := 7; RequestData := [1; 2]; SentAt := 0; RetryCount := 0; ResultCh := 0 |}.

(** Sequence number 7 registered twice, then [CancelAll]. *)
Definition trackedTwice : list Event :=
  [EvTrack 7 [1] 0; EvTrack 7 [2] 1; EvCancelAll].

(** The monitor notes transaction 0 as overdue; its response arrives;
    sequence number 7 is registered again; only then does the monitor
    handle its entry. *)
Definition staleHandle : list Event :=
  [EvTrack 7 [1] 0; EvScan 6000000000; EvResolve 7 [9] 6000000001;
   EvTrack 7 [2] 6000000002; EvHandle 6000000003].

(** One request and no other: the monitor finds it overdue and decides
    to retransmit it; before it calls [Send] the response arrives and is
    delivered; then the monitor sends. *)
Definition lateSend : list Event :=
  [EvTrack 7 [1] 0; EvScan 6000000000; EvHandle 6000000000;
   EvResolve 7 [9] 6000000001; EvSend].

End Tracker.

(** ** internal/pfcp: messages, modifier.go *)
Module Pfcp.

(** [net.IP]: a byte slice; [nil] is [None] where the source tests for it. *)
Definition IP := list Z.

(** [IP.To4() != nil]: four bytes, or sixteen with the IPv4-in-IPv6 prefix. *)
Definition isIPv4 (ip : IP) : bool :=
  match ip with
  | [_; _; _; _] => true
  | [0; 0; 0; 0; 0; 0; 0; 0; 0; 0; 255; 255; _; _; _; _] => true
  | _ => false
  end.

(** The four bytes of a pool address. *)
Definition ipBytes (ip : Z) : IP :=
  [ip / 2 ^ 24 mod 256; ip / 2 ^ 16 mod 256; ip / 2 ^ 8 mod 256; ip mod 256].

(** [ie.IE] of go-pfcp: type tag, raw payload, children of a grouped IE. *)
Inductive IE := MkIE { ieType : Z; iePayload : list Z; ChildIEs : list IE }.

(** IE type tags of 3GPP TS 29.244. *)
Definition ieCreatePDR : Z := 1.
Definition iePDI : Z := 2.
Definition ieUpdatePDR : Z := 9.
Definition ieCause : Z := 19.
Definition ieFSEID : Z := 57.
Definition ieNodeID : Z := 60.
Definition ieUEIPAddress : Z := 93.

Definition CauseRequestAccepted : Z := 1.

Record FSEIDFields := {
  fSEID       : Z;
  IPv4Address : option IP;
  IPv6Address : option IP
}.

Record UEIPAddressFields := {
  Flags                    : Z;
  ueIPv4Address            : option IP;
  ueIPv6Address            : option IP;
  IPv6PrefixDelegationBits : Z;
  IPv6PrefixLength         : Z
}.

Record Header := { hdrSEID : Z; hdrSequenceNumber : Z }.

Definition SetSEID (h : Header) (seid : Z) : Header :=
  {| hdrSEID := seid; hdrSequenceNumber := hdrSequenceNumber h |}.
Definition SetSequenceNumber (h : Header) (seq : Z) : Header :=
  {| hdrSEID := hdrSEID h; hdrSequenceNumber := seq |}.

(** The message structs of go-pfcp with the fields the program touches;
    [IEs] stands for all the other fields. A nil pointer is [None]. *)
Record AssociationSetupRequest := {
  asHeader : Header; asNodeID : option IE; asIEs : list IE }.
Record SessionEstablishmentRequest := {
  seHeader : Header; seNodeID : option IE; seCPFSEID : option IE;
  seCreatePDR : list (option IE); seIEs : list IE }.
Record SessionModificationRequest := {
  smHeader : Header; smCreatePDR : list (option IE); smUpdatePDR : list (option IE);
  smIEs : list IE }.
Record SessionDeletionRequest := { sdHeader : Header; sdIEs : list IE }.
Record HeartbeatRequest := { hbHeader : Header; hbIEs : list IE }.
Record SessionEstablishmentResponse := {
  srHeader : Header; srCause : option IE; srUPFSEID : option IE; srIEs : list IE }.

Inductive Message :=
| MsgAssociationSetupRequest (m : AssociationSetupRequest)
| MsgSessionEstablishmentRequest (m : SessionEstablishmentRequest)
| MsgSessionModificationRequest (m : SessionModificationRequest)
| MsgSessionDeletionRequest (m : SessionDeletionRequest)
| MsgHeartbeatRequest (m : HeartbeatRequest)
| MsgSessionEstablishmentResponse (m : SessionEstablishmentResponse)
| MsgOther (msgType : Z) (h : Header) (ies : list IE).

Definition msgHeader (m : Message) : Header :=
  match m with
  | MsgAssociationSetupRequest m => asHeader m
  | MsgSessionEstablishmentRequest m => seHeader m
  | MsgSessionModificationRequest m => smHeader m
  | MsgSessionDeletionRequest m => sdHeader m
  | MsgHeartbeatRequest m => hbHeader m
  | MsgSessionEstablishmentResponse m => srHeader m
  | MsgOther _ h _ => h
  end.

(** The functions of go-pfcp and of [net] that the program calls and the
    repository does not contain. *)
Class Codec := {
  ie_FSEID        : IE -> option FSEIDFields;           (* IE.FSEID() *)
  ie_UEIPAddress  : IE -> option UEIPAddressFields;     (* IE.UEIPAddress() *)
  ie_Cause        : IE -> option Z;                     (* IE.Cause() *)
  ie_NewFSEID     : Z -> option IP -> option IP -> IE;
  ie_NewNodeID    : string -> string -> string -> IE;
  ie_NewUEIPAddress : Z -> string -> string -> Z -> Z -> IE;
  ie_NewCreatePDR : list IE -> IE;
  ie_NewPDI       : list IE -> IE;
  ipString        : IP -> string;                       (* IP.String() *)
  Marshal         : Message -> option (list Z);         (* MarshalTo *)
  Parse           : list Z -> option Message            (* message.Parse *)
}.

Inductive CodecError :=
| ErrMarshal                 (* "failed to marshal PFCP message" *)
| ErrParse.                  (* "failed to parse PFCP message" *)

Section WithCodec.
Context {codec : Codec}.

  (** encoder.go, decoder.go *)
Definition Encode (msg : Message) : result CodecError (list Z) :=
    match Marshal msg with
    | Some b => Ok b
    | None => Err ErrMarshal
    end.

Definition Decode (data : list Z) : result CodecError Message :=
    match Parse data with
    | Some msg => Ok msg
    | None => Err ErrParse
    end.

Record Modifier := { smfIP : option IP; stripIPv6 : bool }.

Definition NewModifier (smfIP : option IP) (stripIPv6 : bool) : Modifier :=
    {| smfIP := smfIP; stripIPv6 := stripIPv6 |}.

  (** [if m.smfIP != nil && msg.NodeID != nil { ... }] *)
Definition replaceNodeID (m : Modifier) (nodeID : option IE) : option IE :=
    match smfIP m, nodeID with
    | Some ip, Some _ =>
        if isIPv4 ip then Some (ie_NewNodeID (ipString ip) "" "")
        else Some (ie_NewNodeID "" (ipString ip) "")
    | _, _ => nodeID
    end.

Definition ModifyAssociationSetup (m : Modifier) (msg : AssociationSetupRequest)
             (seqNum : Z) : AssociationSetupRequest :=
    {| asHeader := SetSequenceNumber (asHeader msg) seqNum;
       asNodeID := replaceNodeID m (asNodeID msg);
       asIEs := asIEs msg |}.

  (** [createModifiedUEIPIE]; [&^] is bit clear on a [uint8]. *)
Definition createModifiedUEIPIE (m : Modifier) (original : IE) (newUEIP : IP)
    : option IE :=
    match ie_UEIPAddress original with
    | None => None
    | Some ueIPFields =>
        let flags := Flags ueIPFields in
        if stripIPv6 m then
          let flags := Z.ldiff flags 1 in
          let flags := Z.lor flags 2 in
          let flags := Z.ldiff flags 8 in
          let flags := Z.ldiff flags 64 in
          Some (ie_NewUEIPAddress flags (ipString newUEIP) "" 0 0)
        else if negb (Z.land flags 2 =? 0) then
          match negb (Z.land flags 1 =? 0), ueIPv6Address ueIPFields with
          | true, Some v6 =>
              Some (ie_NewUEIPAddress flags (ipString newUEIP) (ipString v6)
                      (IPv6PrefixDelegationBits ueIPFields)
                      (IPv6PrefixLength ueIPFields))
          | _, _ => Some (ie_NewUEIPAddress flags (ipString newUEIP) "" 0 0)
          end
        else None
    end.

  (** The loop over the children shared by [modifyUEIPInPDI] and
      [modifyUEIPInPDR]: [rewrite] gives the replacement of a child, if
      any; the result is the new child list and whether one changed. *)
Definition rewriteChildren (rewrite : IE -> option IE) (children : list IE)
    : list IE * bool :=
    foldl (fun '(newChildren, modified) child =>
             match rewrite child with
             | Some child' => (newChildren ++ [child'], true)
             | None => (newChildren ++ [child], modified)
             end)
          ([], false) children.

Definition modifyUEIPInPDI (m : Modifier) (pdi : IE) (newUEIP : IP) : IE * bool :=
    match ChildIEs pdi with
    | [] => (pdi, false)
    | childIEs =>
        let '(newChildren, modified) :=
          rewriteChildren
            (fun child =>
               if ieType child =? ieUEIPAddress
               then createModifiedUEIPIE m child newUEIP
               else None)
            childIEs in
        if modified then (ie_NewPDI newChildren, true) else (pdi, false)
    end.

  (** [modifyUEIPInPDR]; its error result is always nil. *)
Definition modifyUEIPInPDR (m : Modifier) (pdr : IE) (newUEIP : IP) : option IE :=
    match ChildIEs pdr with
    | [] => None
    | childIEs =>
        let '(newChildren, modified) :=
          rewriteChildren
            (fun child =>
               if ieType child =? iePDI then
                 let '(modifiedPDI, pdiModified) := modifyUEIPInPDI m child newUEIP in
                 if pdiModified then Some modifiedPDI else None
               else None)
            childIEs in
        if modified then
          let newPDR := ie_NewCreatePDR newChildren in
          Some {| ieType := ieType pdr; iePayload := iePayload newPDR;
                  ChildIEs := ChildIEs newPDR |}
        else None
    end.

  (** [modifyUEIPInCreatePDRs] writes into the slice it is given and
      always returns nil. *)
Definition modifyUEIPInCreatePDRs (m : Modifier) (pdrs : list (option IE))
             (newUEIP : IP) : list (option IE) :=
    (fun entry =>
       match entry with
       | None => None
       | Some pdr =>
           match modifyUEIPInPDR m pdr newUEIP with
           | Some modified => Some modified
           | None => Some pdr
           end
       end) <$> pdrs.

Definition ModifySessionEstablishment (m : Modifier)
             (msg : SessionEstablishmentRequest) (localSEID : Z) (ueIP : IP)
             (seqNum : Z) : SessionEstablishmentRequest :=
    let h := SetSequenceNumber (SetSEID (seHeader msg) 0) seqNum in
    let cpfseid :=
      match seCPFSEID msg with
      | Some old =>
          let '(v4, v6) :=
            match smfIP m with
            | Some ip => if isIPv4 ip then (Some ip, None) else (None, Some ip)
            | None =>
                match ie_FSEID old with
                | Some fseid => (IPv4Address fseid, IPv6Address fseid)
                | None => (None, None)
                end
            end in
          Some (ie_NewFSEID localSEID v4 v6)
      | None => None
      end in
    {| seHeader := h;
       seNodeID := replaceNodeID m (seNodeID msg);
       seCPFSEID := cpfseid;
       seCreatePDR := modifyUEIPInCreatePDRs m (seCreatePDR msg) ueIP;
       seIEs := seIEs msg |}.

Definition ModifySessionModification (m : Modifier)
             (msg : SessionModificationRequest) (remoteSEID : Z) (ueIP : option IP)
             (seqNum : Z) : SessionModificationRequest :=
    let h := SetSequenceNumber (SetSEID (smHeader msg) remoteSEID) seqNum in
    let rewrite pdrs :=
      match pdrs, ueIP with
      | _ :: _, Some ip => modifyUEIPInCreatePDRs m pdrs ip
      | _, _ => pdrs
      end in
    {| smHeader := h;
       smCreatePDR := rewrite (smCreatePDR msg);
       smUpdatePDR := rewrite (smUpdatePDR msg);
       smIEs := smIEs msg |}.

Definition ModifySessionDeletion (msg : SessionDeletionRequest)
             (remoteSEID seqNum : Z) : SessionDeletionRequest :=
    {| sdHeader := SetSequenceNumber (SetSEID (sdHeader msg) remoteSEID) seqNum;
       sdIEs := sdIEs msg |}.

Definition ModifyHeartbeat (msg : HeartbeatRequest) (seqNum : Z) : HeartbeatRequest :=
    {| hbHeader := SetSequenceNumber (hbHeader msg) seqNum; hbIEs := hbIEs msg |}.

Inductive ExtractError :=
  | ErrNoCPFSEID        (* "no CP F-SEID in Session Establishment Request" *)
  | ErrParseCPFSEID     (* "failed to parse CP F-SEID" *)
  | ErrNoUPFSEID        (* "no UP F-SEID in Session Establishment Response" *)
  | ErrParseUPFSEID     (* "failed to parse UP F-SEID" *)
  | ErrParseCause
  | ErrNoCause.         (* "no Cause IE found" *)

Definition ExtractCPSEID (msg : SessionEstablishmentRequest) : result ExtractError Z :=
    match seCPFSEID msg with
    | None => Err ErrNoCPFSEID
    | Some i =>
        match ie_FSEID i with
        | None => Err ErrParseCPFSEID
        | Some fseid => Ok (fSEID fseid)
        end
    end.

Definition ExtractRemoteSEID (msg : SessionEstablishmentResponse) : result ExtractError Z :=
    match srUPFSEID msg with
    | None => Err ErrNoUPFSEID
    | Some i =>
        match ie_FSEID i with
        | None => Err ErrParseUPFSEID
        | Some fseid => Ok (fSEID fseid)
        end
    end.

Definition ExtractHeaderSEID (msg : Message) : Z := hdrSEID (msgHeader msg).

Fixpoint ExtractCause (ies : list IE) : result ExtractError Z :=
    match ies with
    | [] => Err ErrNoCause
    | i :: rest =>
        if ieType i =? ieCause then
          match ie_Cause i with
          | None => Err ErrParseCause
          | Some cause => Ok cause
          end
        else ExtractCause rest
    end.

End WithCodec.

End Pfcp.

(** ** internal/session/manager.go *)
Module Session.
Import Pfcp.

(** [types.SessionInfo]; [UEIP] is the pool address, [None] for nil. *)
Record SessionInfo := {
  OriginalCPSEID     : Z;
  OriginalRemoteSEID : Z;
  LocalSEID          : Z;
  RemoteSEID         : Z;
  UEIP               : option Z;
  State              : string;
  CreatedAt          : Z
}.

Definition setState (s : SessionInfo) (st : string) : SessionInfo :=
  {| OriginalCPSEID := OriginalCPSEID s; OriginalRemoteSEID := OriginalRemoteSEID s;
     LocalSEID := LocalSEID s; RemoteSEID := RemoteSEID s; UEIP := UEIP s;
     State := st; CreatedAt := CreatedAt s |}.

Definition setRemoteSEID (s : SessionInfo) (seid : Z) : SessionInfo :=
  {| OriginalCPSEID := OriginalCPSEID s; OriginalRemoteSEID := OriginalRemoteSEID s;
     LocalSEID := LocalSEID s; RemoteSEID := seid; UEIP := UEIP s;
     State := State s; CreatedAt := CreatedAt s |}.

Definition setOriginalRemoteSEID (s : SessionInfo) (seid : Z) : SessionInfo :=
  {| OriginalCPSEID := OriginalCPSEID s; OriginalRemoteSEID := seid;
     LocalSEID := LocalSEID s; RemoteSEID := RemoteSEID s; UEIP := UEIP s;
     State := State s; CreatedAt := CreatedAt s |}.

(** Calls on the statistics collector, in order. *)
Inductive StatEvent :=
| RecordSent (msgType : string)
| RecordReceived (msgType : string)
| RecordSuccess (msgType : string) (responseTime : Z)
| RecordFailure (msgType : string)
| RecordTimeout (msgType : string)
| RecordSessionEstablished
| RecordSessionModified
| RecordSessionDeleted
| RecordSessionFailed.

(** [SequenceCounter.Next]: the counter is a [uint32]. *)
Definition Next (current : Z) : Z :=
  let current := (current + 1) mod 2 ^ 32 in
  if 16777215 <? current then 1 else current.

(** [Manager] with the objects it points at. The three lookup tables
    hold addresses into [sessions], so that a write through one table is
    seen through the others. [tracked] lists the calls of
    [tracker.Track], [sent] the datagrams [client.Send] accepted. *)
Record Manager := {
  associationEnabled   : bool;
  modifier             : Modifier;
  seidAlloc            : SEIDAlloc.SEIDAllocator;
  rng                  : SEIDAlloc.Rng;
  ipPool               : IPPool.UEIPPool;
  seqCounter           : Z;
  sessions             : gmap nat SessionInfo;
  nextSession          : nat;
  byOriginalCPSEID     : gmap Z nat;
  byOriginalRemoteSEID : gmap Z nat;
  byLocalSEID          : gmap Z nat;
  originalSEIDMappings : gmap Z Z;
  tracked              : list (Z * list Z);
  sent                 : list (list Z);
  stats                : list StatEvent
}.

Inductive HandlerError :=
| ErrAllocateSEID (e : SEIDAlloc.AllocError)   (* "failed to allocate SEID" *)
| ErrAllocateUEIP (e : IPPool.PoolError)       (* "failed to allocate UE IP" *)
| ErrEncode (what : string)                    (* "failed to encode ..." *)
| ErrSend (what : string)                      (* "failed to send ..." *)
| ErrWait (what : string) (e : Tracker.TxError) (* "... timeout: ..." / "... failed: ..." *)
| ErrDecodeResponse                            (* "failed to decode Establishment Response" *)
| ErrUnexpectedResponse                        (* "unexpected response type" *)
| ErrRejected (cause : Z)                      (* "Session Establishment rejected with cause %d" *)
| ErrExtractRemoteSEID (e : ExtractError)      (* "failed to extract remote SEID" *)
| ErrNoSession (seid : Z).                     (* "no session found for original remote SEID %d" *)

(** What the world outside the replay loop answers while one message is
    handled: the clock, whether [client.Send] fails, and what
    [waitForResult] returns (a result from the tracker, or [ctx.Err()]). *)
Record World := {
  wNow       : Z;
  wSendFails : bool;
  wResult    : Tracker.TransactionResult
}.

Section WithCodec.
Context {codec : Codec}.

  (** Record updates used by the handlers. *)
Definition withStats (m : Manager) (evs : list StatEvent) : Manager :=
    {| associationEnabled := associationEnabled m; modifier := modifier m;
       seidAlloc := seidAlloc m; rng := rng m; ipPool := ipPool m;
       seqCounter := seqCounter m; sessions := sessions m;
       nextSession := nextSession m; byOriginalCPSEID := byOriginalCPSEID m;
       byOriginalRemoteSEID := byOriginalRemoteSEID m; byLocalSEID := byLocalSEID m;
       originalSEIDMappings := originalSEIDMappings m; tracked := tracked m;
       sent := sent m; stats := stats m ++ evs |}.

Definition withSession (m : Manager) (p : nat) (f : SessionInfo -> SessionInfo)
    : Manager :=
    {| associationEnabled := associationEnabled m; modifier := modifier m;
       seidAlloc := seidAlloc m; rng := rng m; ipPool := ipPool m;
       seqCounter := seqCounter m; sessions := alter f p (sessions m);
       nextSession := nextSession m; byOriginalCPSEID := byOriginalCPSEID m;
       byOriginalRemoteSEID := byOriginalRemoteSEID m; byLocalSEID := byLocalSEID m;
       originalSEIDMappings := originalSEIDMappings m; tracked := tracked m;
       sent := sent m; stats := stats m |}.

Definition withAllocators (m : Manager) (a : SEIDAlloc.SEIDAllocator)
             (g : SEIDAlloc.Rng) (pool : IPPool.UEIPPool) : Manager :=
    {| associationEnabled := associationEnabled m; modifier := modifier m;
       seidAlloc := a; rng := g; ipPool := pool;
       seqCounter := seqCounter m; sessions := sessions m;
       nextSession := nextSession m; byOriginalCPSEID := byOriginalCPSEID m;
       byOriginalRemoteSEID := byOriginalRemoteSEID m; byLocalSEID := byLocalSEID m;
       originalSEIDMappings := originalSEIDMappings m; tracked := tracked m;
       sent := sent m; stats := stats m |}.

  (** [seqNum := m.seqCounter.Next()] *)
Definition takeSeq (m : Manager) : Z * Manager :=
    let seqNum := Next (seqCounter m) in
    (seqNum,
     {| associationEnabled := associationEnabled m; modifier := modifier m;
        seidAlloc := seidAlloc m; rng := rng m; ipPool := ipPool m;
        seqCounter := seqNum; sessions := sessions m;
        nextSession := nextSession m; byOriginalCPSEID := byOriginalCPSEID m;
        byOriginalRemoteSEID := byOriginalRemoteSEID m; byLocalSEID := byLocalSEID m;
        originalSEIDMappings := originalSEIDMappings m; tracked := tracked m;
        sent := sent m; stats := stats m |}).

  (** [resultCh := m.tracker.Track(seqNum, data)] *)
Definition track (m : Manager) (seqNum : Z) (data : list Z) : Manager :=
    {| associationEnabled := associationEnabled m; modifier := modifier m;
       seidAlloc := seidAlloc m; rng := rng m; ipPool := ipPool m;
       seqCounter := seqCounter m; sessions := sessions m;
       nextSession := nextSession m; byOriginalCPSEID := byOriginalCPSEID m;
       byOriginalRemoteSEID := byOriginalRemoteSEID m; byLocalSEID := byLocalSEID m;
       originalSEIDMappings := originalSEIDMappings m;
       tracked := tracked m ++ [(seqNum, data)];
       sent := sent m; stats := stats m |}.

  (** A successful [m.client.Send(data)]. *)
Definition send (m : Manager) (data : list Z) : Manager :=
    {| associationEnabled := associationEnabled m; modifier := modifier m;
       seidAlloc := seidAlloc m; rng := rng m; ipPool := ipPool m;
       seqCounter := seqCounter m; sessions := sessions m;
       nextSession := nextSession m; byOriginalCPSEID := byOriginalCPSEID m;
       byOriginalRemoteSEID := byOriginalRemoteSEID m; byLocalSEID := byLocalSEID m;
       originalSEIDMappings := originalSEIDMappings m; tracked := tracked m;
       sent := sent m ++ [data]; stats := stats m |}.

  (** The common tail of the handlers: count the message, register the
      transaction, send, wait. [Ok] carries the result that arrived. *)
Definition exchange (w : World) (m : Manager) (msgTypeName : string)
             (seqNum : Z) (data : list Z)
    : Manager * result HandlerError Tracker.TransactionResult :=
    let m := withStats m [RecordSent msgTypeName] in
    let m := track m seqNum data in
    if wSendFails w then (m, Err (ErrSend msgTypeName))
    else (send m data, Ok (wResult w)).

Definition SetSEIDMappings (m : Manager) (mappings : list (Z * Z)) : Manager :=
    {| associationEnabled := associationEnabled m; modifier := modifier m;
       seidAlloc := seidAlloc m; rng := rng m; ipPool := ipPool m;
       seqCounter := seqCounter m; sessions := sessions m;
       nextSession := nextSession m; byOriginalCPSEID := byOriginalCPSEID m;
       byOriginalRemoteSEID := byOriginalRemoteSEID m; byLocalSEID := byLocalSEID m;
       originalSEIDMappings :=
         foldl (fun acc '(cp, remote) => <[ cp := remote ]> acc)
               (originalSEIDMappings m) mappings;
       tracked := tracked m; sent := sent m; stats := stats m |}.

  (** [findSessionByOriginalRemoteSEID]: the address of the session, if any. *)
Definition findSessionByOriginalRemoteSEID (m : Manager) (originalRemoteSEID : Z)
    : option nat :=
    match byOriginalRemoteSEID m !! originalRemoteSEID with
    | Some p => Some p
    | None =>
        match byOriginalCPSEID m !! originalRemoteSEID with
        | Some p => Some p
        | None => None
        end
    end.

  (** The session a lookup yields, read through the store. *)
Definition findSession (m : Manager) (originalRemoteSEID : Z) : option SessionInfo :=
    match findSessionByOriginalRemoteSEID m originalRemoteSEID with
    | Some p => sessions m !! p
    | None => None
    end.

  (** Stores the new session and enters it in the tables. *)
Definition registerSession (m : Manager) (session : SessionInfo) : nat * Manager :=
    let p := nextSession m in
    let originalCPSEID := OriginalCPSEID session in
    let '(session, byRemote) :=
      match originalSEIDMappings m !! originalCPSEID with
      | Some origRemoteSEID =>
          (setOriginalRemoteSEID session origRemoteSEID,
           <[ origRemoteSEID := p ]> (byOriginalRemoteSEID m))
      | None => (session, byOriginalRemoteSEID m)
      end in
    (p,
     {| associationEnabled := associationEnabled m; modifier := modifier m;
        seidAlloc := seidAlloc m; rng := rng m; ipPool := ipPool m;
        seqCounter := seqCounter m;
        sessions := <[ p := session ]> (sessions m);
        nextSession := S p;
        byOriginalCPSEID := <[ originalCPSEID := p ]> (byOriginalCPSEID m);
        byOriginalRemoteSEID := byRemote;
        byLocalSEID := <[ LocalSEID session := p ]> (byLocalSEID m);
        originalSEIDMappings := originalSEIDMappings m; tracked := tracked m;
        sent := sent m; stats := stats m |}).

  (** The part of [handleSessionEstablishment] after the response has
      arrived. *)
Definition establishmentResponse (m : Manager) (p : nat)
             (result : Tracker.TransactionResult) : Manager * option HandlerError :=
    let msgTypeName := "SessionEstablishmentRequest" in
    let m := withStats m [RecordReceived "SessionEstablishmentResponse"] in
    match Decode (Tracker.Response result) with
    | Err _ =>
        (withStats m [RecordFailure msgTypeName; RecordSessionFailed],
         Some ErrDecodeResponse)
    | Ok (MsgSessionEstablishmentResponse resp) =>
        let rejected :=
          match srCause resp with
          | Some c =>
              match ie_Cause c with
              | Some cause =>
                  if cause =? CauseRequestAccepted then None else Some cause
              | None => None
              end
          | None => None
          end in
        match rejected with
        | Some cause =>
            let m := withStats m [RecordFailure msgTypeName; RecordSessionFailed] in
            (withSession m p (fun s => setState s "failed"), Some (ErrRejected cause))
        | None =>
            match ExtractRemoteSEID resp with
            | Err e =>
                (withStats m [RecordFailure msgTypeName; RecordSessionFailed],
                 Some (ErrExtractRemoteSEID e))
            | Ok remoteSEID =>
                let m := withSession m p
                           (fun s => setState (setRemoteSEID s remoteSEID) "established") in
                (withStats m [RecordSuccess msgTypeName (Tracker.ResponseTime result);
                              RecordSessionEstablished],
                 None)
            end
        end
    | Ok _ =>
        (withStats m [RecordFailure msgTypeName; RecordSessionFailed],
         Some ErrUnexpectedResponse)
    end.

  (** [handleSessionEstablishment]. [None] only if the pool's loop did
      not stop. *)
Definition handleSessionEstablishment (w : World) (m : Manager)
             (req : SessionEstablishmentRequest)
    : option (Manager * option HandlerError) :=
    let originalCPSEID :=
      match ExtractCPSEID req with
      | Ok v => v
      | Err _ => 0       (* "Could not extract original CP SEID, using 0" *)
      end in
    let '(r, alloc, g) := SEIDAlloc.Allocate (rng m) (seidAlloc m) in
    match r with
    | Err e =>
        Some (withStats (withAllocators m alloc g (ipPool m)) [RecordSessionFailed],
              Some (ErrAllocateSEID e))
    | Ok localSEID =>
        match IPPool.Allocate (ipPool m) with
        | None => None
        | Some (Err e, pool) =>
            Some (withStats
                    (withAllocators m (SEIDAlloc.Release alloc localSEID) g pool)
                    [RecordSessionFailed],
                  Some (ErrAllocateUEIP e))
        | Some (Ok ueIP, pool) =>
            let m := withAllocators m alloc g pool in
            let session :=
              {| OriginalCPSEID := originalCPSEID; OriginalRemoteSEID := 0;
                 LocalSEID := localSEID; RemoteSEID := 0; UEIP := Some ueIP;
                 State := "establishing"; CreatedAt := wNow w |} in
            let '(p, m) := registerSession m session in
            let '(seqNum, m) := takeSeq m in
            let req := ModifySessionEstablishment (modifier m) req localSEID
                         (ipBytes ueIP) seqNum in
            match Encode (MsgSessionEstablishmentRequest req) with
            | Err _ => Some (m, Some (ErrEncode "Session Establishment"))
            | Ok data =>
                let msgTypeName := "SessionEstablishmentRequest" in
                match exchange w m msgTypeName seqNum data with
                | (m, Err e) => Some (m, Some e)
                | (m, Ok result) =>
                    match Tracker.Error result with
                    | Some e =>
                        let m := withStats m [RecordTimeout msgTypeName;
                                              RecordSessionFailed] in
                        Some (withSession m p (fun s => setState s "failed"),
                              Some (ErrWait msgTypeName e))
                    | None => Some (establishmentResponse m p result)
                    end
                end
            end
        end
    end.

Definition handleSessionModification (w : World) (m : Manager)
             (req : SessionModificationRequest) : Manager * option HandlerError :=
    let originalRemoteSEID := ExtractHeaderSEID (MsgSessionModificationRequest req) in
    match findSession m originalRemoteSEID with
    | None => (m, Some (ErrNoSession originalRemoteSEID))
    | Some session =>
        let '(seqNum, m) := takeSeq m in
        let req := ModifySessionModification (modifier m) req (RemoteSEID session)
                     (ipBytes <$> UEIP session) seqNum in
        match Encode (MsgSessionModificationRequest req) with
        | Err _ => (m, Some (ErrEncode "Session Modification"))
        | Ok data =>
            let msgTypeName := "SessionModificationRequest" in
            match exchange w m msgTypeName seqNum data with
            | (m, Err e) => (m, Some e)
            | (m, Ok result) =>
                match Tracker.Error result with
                | Some e =>
                    (withStats m [RecordTimeout msgTypeName], Some (ErrWait msgTypeName e))
                | None =>
                    (withStats m [RecordReceived "SessionModificationResponse";
                                  RecordSuccess msgTypeName (Tracker.ResponseTime result);
                                  RecordSessionModified],
                     None)
                end
            end
        end
    end.

Definition handleSessionDeletion (w : World) (m : Manager)
             (req : SessionDeletionRequest) : Manager * option HandlerError :=
    let originalRemoteSEID := ExtractHeaderSEID (MsgSessionDeletionRequest req) in
    match findSessionByOriginalRemoteSEID m originalRemoteSEID with
    | None => (m, Some (ErrNoSession originalRemoteSEID))
    | Some p =>
        match sessions m !! p with
        | None => (m, Some (ErrNoSession originalRemoteSEID))
        | Some session =>
            let '(seqNum, m) := takeSeq m in
            let req := ModifySessionDeletion req (RemoteSEID session) seqNum in
            match Encode (MsgSessionDeletionRequest req) with
            | Err _ => (m, Some (ErrEncode "Session Deletion"))
            | Ok data =>
                let msgTypeName := "SessionDeletionRequest" in
                match exchange w m msgTypeName seqNum data with
                | (m, Err e) => (m, Some e)
                | (m, Ok result) =>
                    match Tracker.Error result with
                    | Some e =>
                        (withStats m [RecordTimeout msgTypeName],
                         Some (ErrWait msgTypeName e))
                    | None =>
                        let m := withStats m
                                   [RecordReceived "SessionDeletionResponse";
                                    RecordSuccess msgTypeName (Tracker.ResponseTime result);
                                    RecordSessionDeleted] in
                        let pool :=
                          match UEIP session with
                          | Some ip => IPPool.Release (ipPool m) ip
                          | None => ipPool m
                          end in
                        let m := withAllocators m
                                   (SEIDAlloc.Release (seidAlloc m) (LocalSEID session))
                                   (rng m) pool in
                        (withSession m p (fun s => setState s "deleted"), None)
                    end
                end
            end
        end
    end.

Definition handleHeartbeat (w : World) (m : Manager) (req : HeartbeatRequest)
    : Manager * option HandlerError :=
    let '(seqNum, m) := takeSeq m in
    let req := ModifyHeartbeat req seqNum in
    match Encode (MsgHeartbeatRequest req) with
    | Err _ => (m, Some (ErrEncode "Heartbeat"))
    | Ok data =>
        let msgTypeName := "HeartbeatRequest" in
        match exchange w m msgTypeName seqNum data with
        | (m, Err e) => (m, Some e)
        | (m, Ok result) =>
            match Tracker.Error result with
            | Some e => (withStats m [RecordTimeout msgTypeName], Some (ErrWait msgTypeName e))
            | None =>
                (withStats m [RecordReceived "HeartbeatResponse";
                              RecordSuccess msgTypeName (Tracker.ResponseTime result)],
                 None)
            end
        end
    end.

Definition handleAssociationSetup (w : World) (m : Manager)
             (req : AssociationSetupRequest) : Manager * option HandlerError :=
    if negb (associationEnabled m) then (m, None)
    else
      let '(seqNum, m) := takeSeq m in
      let req := ModifyAssociationSetup (modifier m) req seqNum in
      match Encode (MsgAssociationSetupRequest req) with
      | Err _ => (m, Some (ErrEncode "Association Setup"))
      | Ok data =>
          let msgTypeName := "AssociationSetupRequest" in
          match exchange w m msgTypeName seqNum data with
          | (m, Err e) => (m, Some e)
          | (m, Ok result) =>
              match Tracker.Error result with
              | Some e =>
                  (withStats m [RecordTimeout msgTypeName], Some (ErrWait msgTypeName e))
              | None =>
                  (withStats m [RecordReceived "AssociationSetupResponse";
                                RecordSuccess msgTypeName (Tracker.ResponseTime result)],
                   None)
              end
          end
      end.

Definition processMessage (w : World) (m : Manager) (msg : Message)
    : option (Manager * option HandlerError) :=
    match msg with
    | MsgAssociationSetupRequest req => Some (handleAssociationSetup w m req)
    | MsgSessionEstablishmentRequest req => handleSessionEstablishment w m req
    | MsgSessionModificationRequest req => Some (handleSessionModification w m req)
    | MsgSessionDeletionRequest req => Some (handleSessionDeletion w m req)
    | MsgHeartbeatRequest req => Some (handleHeartbeat w m req)
    | _ => Some (m, None)        (* "Skipping unsupported message type" *)
    end.

  (** One entry of the replay: the raw payload, whether the context is
      already cancelled when its turn comes, and the world's answers. *)
Record Step := { raw : list Z; cancelled : bool; world : World }.

  (** What the loop of [Replay] logs for one message. *)
Inductive Outcome :=
  | Skipped                       (* "Failed to decode PFCP message, skipping" *)
  | Processed (e : option HandlerError).

  (** [Replay]: the loop over the messages. The result is the manager,
      the outcome of every message handled, and whether the loop ran to
      the end ([false]: "Replay cancelled"). [None] only if the pool's
      loop did not stop. *)
Fixpoint Replay (m : Manager) (steps : list Step)
    : option (Manager * list Outcome * bool) :=
    match steps with
    | [] => Some (m, [], true)
    | st :: rest =>
        if cancelled st then Some (m, [], false)
        else
          match Decode (raw st) with
          | Err _ =>
              match Replay m rest with
              | None => None
              | Some (m', outs, finished) => Some (m', Skipped :: outs, finished)
              end
          | Ok msg =>
              match processMessage (world st) m msg with
              | None => None
              | Some (m1, e) =>
                  match Replay m1 rest with
                  | None => None
                  | Some (m', outs, finished) => Some (m', Processed e :: outs, finished)
                  end
              end
          end
    end.

Definition ActiveSessionCount (m : Manager) : Z :=
    Z.of_nat (length (filter (fun e : Z * nat =>
                                State <$> (sessions m !! e.2) = Some "established")
                             (map_to_list (byLocalSEID m)))).

Definition RegisterOriginalRemoteSEID (m : Manager) (originalRemoteSEID : Z) (p : nat)
    : Manager :=
    let m := withSession m p (fun s => setOriginalRemoteSEID s originalRemoteSEID) in
    {| associationEnabled := associationEnabled m; modifier := modifier m;
       seidAlloc := seidAlloc m; rng := rng m; ipPool := ipPool m;
       seqCounter := seqCounter m; sessions := sessions m;
       nextSession := nextSession m; byOriginalCPSEID := byOriginalCPSEID m;
       byOriginalRemoteSEID := <[ originalRemoteSEID := p ]> (byOriginalRemoteSEID m);
       byLocalSEID := byLocalSEID m;
       originalSEIDMappings := originalSEIDMappings m; tracked := tracked m;
       sent := sent m; stats := stats m |}.

End WithCodec.

End Session.

(** ** Sample inputs for the session manager *)
Module Samples.
Import Pfcp Session.

(** A small codec standing in for go-pfcp in the sample runs. A message
    is written as its type, header SEID and sequence number, an
    establishment request followed by the SEID of its CP F-SEID if it
    has one; the bytes [51; seid; seq; cause; upSEID] read as an
    establishment response. *)
Definition msgTypeOf (m : Message) : Z :=
  match m with
  | MsgAssociationSetupRequest _ => 5
  | MsgSessionEstablishmentRequest _ => 50
  | MsgSessionModificationRequest _ => 52
  | MsgSessionDeletionRequest _ => 54
  | MsgHeartbeatRequest _ => 1
  | MsgSessionEstablishmentResponse _ => 51
  | MsgOther t _ _ => t
  end.

Definition sampleCodec : Codec := {|
  ie_FSEID := fun i =>
    if ieType i =? ieFSEID then
      match iePayload i with
      | s :: _ => Some {| fSEID := s; IPv4Address := None; IPv6Address := None |}
      | [] => None
      end
    else None;
  ie_UEIPAddress := fun _ => None;
  ie_Cause := fun i => match iePayload i with c :: _ => Some c | [] => None end;
  ie_NewFSEID := fun seid _ _ => MkIE ieFSEID [seid] [];
  ie_NewNodeID := fun _ _ _ => MkIE ieNodeID [] [];
  ie_NewUEIPAddress := fun flags _ _ _ _ => MkIE ieUEIPAddress [flags] [];
  ie_NewCreatePDR := fun children => MkIE ieCreatePDR [] children;
  ie_NewPDI := fun children => MkIE iePDI [] children;
  ipString := fun _ => "";
  Marshal := fun m =>
    Some ([msgTypeOf m; hdrSEID (msgHeader m); hdrSequenceNumber (msgHeader m)]
          ++ match m with
             | MsgSessionEstablishmentRequest r =>
                 match seCPFSEID r with
                 | Some i => take 1 (iePayload i)
                 | None => []
                 end
             | _ => []
             end);
  Parse := fun data =>
    match data with
    | [50; seid; seq] =>
        Some (MsgSessionEstablishmentRequest
                {| seHeader := {| hdrSEID := seid; hdrSequenceNumber := seq |};
                   seNodeID := None; seCPFSEID := None; seCreatePDR := [];
                   seIEs := [] |})
    | [50; seid; seq; cp] =>
        Some (MsgSessionEstablishmentRequest
                {| seHeader := {| hdrSEID := seid; hdrSequenceNumber := seq |};
                   seNodeID := None; seCPFSEID := Some (MkIE ieFSEID [cp] []);
                   seCreatePDR := []; seIEs := [] |})
    | [52; seid; seq] =>
        Some (MsgSessionModificationRequest
                {| smHeader := {| hdrSEID := seid; hdrSequenceNumber := seq |};
                   smCreatePDR := []; smUpdatePDR := []; smIEs := [] |})
    | [54; seid; seq] =>
        Some (MsgSessionDeletionRequest
                {| sdHeader := {| hdrSEID := seid; hdrSequenceNumber := seq |};
                   sdIEs := [] |})
    | [51; seid; seq; cause; upSEID] =>
        Some (MsgSessionEstablishmentResponse
                {| srHeader := {| hdrSEID := seid; hdrSequenceNumber := seq |};
                   srCause := Some (MkIE ieCause [cause] []);
                   srUPFSEID := Some (MkIE ieFSEID [upSEID] []);
                   srIEs := [] |})
    | _ => None
    end
|}.

(** A manager as [NewManager] builds it: sequential SEIDs from 1, the
    pool 10.60.0.0/30, no SMF address, empty tables. *)
Definition freshManager : Manager :=
  {| associationEnabled := true;
     modifier := NewModifier None true;
     seidAlloc := SEIDAlloc.NewSEIDAllocator "sequential" 1;
     rng := SEIDAlloc.constRng 0;
     ipPool := IPPool.poolAfter IPPool.block30 0;
     seqCounter := 0;
     sessions := ∅; nextSession := 0;
     byOriginalCPSEID := ∅; byOriginalRemoteSEID := ∅; byLocalSEID := ∅;
     originalSEIDMappings := ∅;
     tracked := []; sent := []; stats := [] |}.

(** An establishment request of the recording: CP F-SEID with SEID 1001. *)
Definition establishment : SessionEstablishmentRequest :=
  {| seHeader := {| hdrSEID := 0; hdrSequenceNumber := 77 |};
     seNodeID := None;
     seCPFSEID := Some (MkIE ieFSEID [1001] []);
     seCreatePDR := []; seIEs := [] |}.

(** The same request without its CP F-SEID IE. *)
Definition establishmentNoFSEID : SessionEstablishmentRequest :=
  {| seHeader := {| hdrSEID := 0; hdrSequenceNumber := 77 |};
     seNodeID := None; seCPFSEID := None; seCreatePDR := []; seIEs := [] |}.

Definition answer (data : list Z) : Tracker.TransactionResult :=
  {| Tracker.resSeqNum := 1; Tracker.Response := data;
     Tracker.ResponseTime := 1000; Tracker.Error := None |}.

(** The peer accepts and assigns the SEID 5001. *)
Definition accepted : World :=
  {| wNow := 0; wSendFails := false; wResult := answer [51; 1; 1; 1; 5001] |}.

(** The peer rejects with cause 64. *)
Definition rejected : World :=
  {| wNow := 0; wSendFails := false; wResult := answer [51; 1; 1; 64; 0] |}.

(** No response: the tracker reports a timeout after three retries. *)
Definition silent : World :=
  {| wNow := 0; wSendFails := false;
     wResult := {| Tracker.resSeqNum := 1; Tracker.Response := [];
                   Tracker.ResponseTime := 0;
                   Tracker.Error := Some (Tracker.ErrTimeout 3) |} |}.

(** A modification and a deletion of the recording, addressed to the
    recorded peer's SEID 9001. *)
Definition modification : SessionModificationRequest :=
  {| smHeader := {| hdrSEID := 9001; hdrSequenceNumber := 78 |};
     smCreatePDR := []; smUpdatePDR := []; smIEs := [] |}.

Definition deletion : SessionDeletionRequest :=
  {| sdHeader := {| hdrSEID := 9001; hdrSequenceNumber := 79 |}; sdIEs := [] |}.


(** Replay steps carrying the recorded bytes of the sample requests. *)
Definition stepOf (data : list Z) (w : World) : Step :=
  {| raw := data; cancelled := false; world := w |}.

End Samples.


(** ** Vocabulary of the further properties *)

(** The values of the successful results of a list of calls. *)
Definition oks {E A : Type} (rs : list (result E A)) : list A :=
omap (fun r => match r with Ok v => Some v | Err _ => None end) rs.

Module SEIDTrace.
Import SEIDAlloc.

(** The generator after [n] more draws. *)
Definition skipDraws (g : Rng) (n : nat) : Rng :=
  {| stream := stream g; drawn := drawn g + n |}.

(** The [j]-th value the generator will yield from now on. *)
Definition upcoming (g : Rng) (j : nat) : Z := stream g (drawn g + j).

(** A draw the random branch throws away. *)
Definition rejectedDraw (s : SEIDAllocator) (v : Z) : Prop :=
  v = 0 \/ v ∈ usedSEIDs s.

(** An allocator in sequential mode with the given counter and held set. *)
Definition sequentialAt (next : Z) (held : list Z) : SEIDAllocator :=
  {| strategy := "sequential"; nextSEID := next; usedSEIDs := list_to_set held |}.

Definition randomHolding (held : list Z) : SEIDAllocator :=
  {| strategy := "random"; nextSEID := 1; usedSEIDs := list_to_set held |}.

End SEIDTrace.

Module PoolTrace.
Import IPPool.

Definition isByte (b : Z) : Prop := 0 <= b < 256.

(** A caller's use of the pool: calls of [Allocate] and of [Release] in
    any order, with any argument. *)
Inductive PoolOp :=
| OpAllocate
| OpRelease (ip : Z).

(** The results of the [Allocate] calls of a run, oldest first; [None]
    if a call ran out of fuel. *)
Fixpoint runOps (ops : list PoolOp) (p : UEIPPool)
  : option (list (result PoolError Z) * UEIPPool) :=
  match ops with
  | [] => Some ([], p)
  | OpAllocate :: rest =>
      match Allocate p with
      | None => None
      | Some (r, p1) =>
          match runOps rest p1 with
          | None => None
          | Some (rs, p2) => Some (r :: rs, p2)
          end
      end
  | OpRelease ip :: rest => runOps rest (Release p ip)
  end.

(** Every held address is an address of the block other than its
    network address. *)
Definition heldInBlock (p : UEIPPool) : Prop :=
  forall a, a ∈ allocated p -> issuable (cidr p) a.

End PoolTrace.

Module TrackerView.
Import Tracker.

(** Whether the transaction at [a] is the one registered under its
    sequence number. *)
Definition pendingAt (t : TransactionTracker) (a : nat) : bool :=
  match heap t !! a with
  | Some tx => bool_decide (pending t !! SeqNum tx = Some a)
  | None => false
  end.

(** What concerns the transaction at [a]: its record, whether it is
    pending, what its channel has received, how often it was resent. *)
Record View := {
  vTx        : option PendingTransaction;
  vPending   : bool;
  vDelivered : list TransactionResult;
  vResent    : nat
}.

Definition view (t : TransactionTracker) (a : nat) : View :=
  {| vTx := heap t !! a; vPending := pendingAt t a;
     vDelivered := delivered t a; vResent := resent t a |}.

(** The record after a retransmission at time [now]. *)
Definition retried (tx : PendingTransaction) (now : Z) : PendingTransaction :=
  {| SeqNum := SeqNum tx; RequestData := RequestData tx; SentAt := now;
     RetryCount := RetryCount tx + 1; ResultCh := ResultCh tx |}.

(** The result sent when the retries are used up. *)
Definition timeoutResult (seqNum retries : Z) : TransactionResult :=
  {| resSeqNum := seqNum; Response := []; ResponseTime := 0;
     Error := Some (ErrTimeout retries) |}.

(** The effect of one timeout on a transaction: retransmit while
    retries are left, otherwise fail it. *)
Definition afterTimeout (retries now : Z) (v : View) : View :=
  match vTx v, vPending v with
  | Some tx, true =>
      if RetryCount tx <? retries then
        {| vTx := Some (retried tx now); vPending := true;
           vDelivered := vDelivered v; vResent := S (vResent v) |}
      else
        {| vTx := Some tx; vPending := false;
           vDelivered := vDelivered v ++ [timeoutResult (SeqNum tx) retries];
           vResent := vResent v |}
  | _, _ => v
  end.

(** One sweep run to its end with no other goroutine in between: the
    snapshot is taken when the clock reads [now]; the entry of the
    transaction at [a] is handled when it reads [clock a] (the
    [time.Now()] of [handleTimeout]). *)
Definition sweepAt (now : Z) (clock : nat -> Z) (t : TransactionTracker)
  : TransactionTracker :=
  foldl (fun t a => handleTimeout a (clock a) t) t (timedOut now t).

(** Sweeps of the monitor one after the other. *)
Definition sweeps (times : list (Z * (nat -> Z))) (t : TransactionTracker)
  : TransactionTracker :=
  foldl (fun t sweep => sweepAt sweep.1 sweep.2 t) t times.

(** Sweeps that find the transaction at [a] overdue every time: the
    first starts more than [gap] after [prev], each later one more than
    [gap] after the sweep before handled [a]. *)
Fixpoint spaced (gap : Z) (a : nat) (prev : Z) (times : list (Z * (nat -> Z))) : Prop :=
  match times with
  | [] => True
  | sweep :: rest => gap < sweep.1 - prev /\ spaced gap a (sweep.2 a) rest
  end.

End TrackerView.

Module SessionMore.
Import Pfcp Session.

(** The value of the sequence counter after [k] calls of [Next]. *)
Definition seqAfter (k : nat) (current : Z) : Z := Nat.iter k Next current.

Section WithCodec.
Context {codec : Codec}.

  (** [message.NewSessionDeletionRequest(0, 0, session.RemoteSEID, seqNum, 0)] *)
Definition cleanupRequest (session : SessionInfo) (seqNum : Z) : Message :=
    MsgSessionDeletionRequest
      {| sdHeader := {| hdrSEID := RemoteSEID session; hdrSequenceNumber := seqNum |};
         sdIEs := [] |}.

  (** Body of the loop of [CleanupSessions] for the session at [p]. *)
Definition cleanupOne (w : World) (m : Manager) (p : nat) : Manager :=
    match sessions m !! p with
    | None => m
    | Some session =>
        let '(seqNum, m) := takeSeq m in
        let req := cleanupRequest session seqNum in
        match Encode req with
        | Err _ => m          (* "Failed to encode cleanup deletion" *)
        | Ok data =>
            let m := track m seqNum data in
            if wSendFails w then m    (* "Failed to send cleanup deletion" *)
            else
              let m := send m data in
              match Tracker.Error (wResult w) with
              | Some _ => m   (* "Cleanup deletion failed" *)
              | None =>
                  withSession (withStats m [RecordSessionDeleted]) p
                    (fun s => setState s "deleted")
              end
        end
    end.

  (** The loop of [CleanupSessions] over the sessions it collected
      (those of [byLocalSEID] whose state is "established", in the
      order the map happened to be iterated); [cancelledAt p] tells
      whether the context is done when the turn of [p] comes, [worldAt
      p] what the world answers for it. *)
Fixpoint cleanupLoop (cancelledAt : nat -> bool) (worldAt : nat -> World)
           (m : Manager) (active : list nat) : Manager :=
    match active with
    | [] => m
    | p :: rest =>
        if cancelledAt p then m
        else cleanupLoop cancelledAt worldAt (cleanupOne (worldAt p) m p) rest
    end.

End WithCodec.

End SessionMore.

Module MoreSamples.
Import Pfcp Samples.

(** The sample codec with a reader for UE IP Address IEs: the first
    payload byte holds the flags. *)
Definition addressCodec : Codec := {|
  ie_FSEID := ie_FSEID (Codec := sampleCodec);
  ie_UEIPAddress := fun i =>
    match iePayload i with
    | flags :: _ =>
        Some {| Flags := flags; ueIPv4Address := None; ueIPv6Address := None;
                IPv6PrefixDelegationBits := 0; IPv6PrefixLength := 0 |}
    | [] => None
    end;
  ie_Cause := ie_Cause (Codec := sampleCodec);
  ie_NewFSEID := ie_NewFSEID (Codec := sampleCodec);
  ie_NewNodeID := ie_NewNodeID (Codec := sampleCodec);
  ie_NewUEIPAddress := ie_NewUEIPAddress (Codec := sampleCodec);
  ie_NewCreatePDR := ie_NewCreatePDR (Codec := sampleCodec);
  ie_NewPDI := ie_NewPDI (Codec := sampleCodec);
  ipString := ipString (Codec := sampleCodec);
  Marshal := Marshal (Codec := sampleCodec);
  Parse := Parse (Codec := sampleCodec)
|}.

(** A UE IP Address IE with the V6, IPv6D and IP6PL flags set. *)
Definition dualStackAddress : IE := MkIE ieUEIPAddress [73] [].

End MoreSamples.

Module ReplaySamples.
Import Pfcp Session Samples.

(** The sample manager after the recording's mapping of CP SEID 1001
    to the recorded peer's SEID 9001 has been registered. *)
Definition mappedManager : Manager := SetSEIDMappings freshManager [(1001, 9001)].

(** The manager after the sample establishment was accepted. *)
Definition afterAcceptance : Manager :=
  match handleSessionEstablishment (codec := sampleCodec) accepted mappedManager
          establishment with
  | Some (m', _) => m'
  | None => mappedManager
  end.

(** The session it stored. *)
Definition establishedSession : SessionInfo :=
  {| OriginalCPSEID := 1001; OriginalRemoteSEID := 9001; LocalSEID := 1;
     RemoteSEID := 5001; UEIP := Some (IPPool.ipv4 10 60 0 1);
     State := "established"; CreatedAt := 0 |}.

(** The peer answers a modification or a deletion. *)
Definition acknowledged : World :=
  {| wNow := 5; wSendFails := false; wResult := answer [53; 1; 2] |}.

(** A sample manager whose pool has no address left. *)
Definition exhaustedManager : Manager :=
  {| associationEnabled := true;
     modifier := NewModifier None true;
     seidAlloc := SEIDAlloc.NewSEIDAllocator "sequential" 1;
     rng := SEIDAlloc.constRng 0;
     ipPool := IPPool.poolAfter IPPool.block30 3;
     seqCounter := 0;
     sessions := ∅; nextSession := 0;
     byOriginalCPSEID := ∅; byOriginalRemoteSEID := ∅; byLocalSEID := ∅;
     originalSEIDMappings := ∅;
     tracked := []; sent := []; stats := [] |}.

End ReplaySamples.
(** * Theorems: SEID allocator *)
Section SEIDAllocFacts.
Import SEIDAlloc.

Lemma allocSequential_success iters s v s' :
  allocSequential iters s = (Ok v, s') ->
  v <> 0 /\ (v ∉ usedSEIDs s) /\ usedSEIDs s' = {[ v ]} ∪ usedSEIDs s
  /\ strategy s' = strategy s.
Proof.
  revert s. induction iters as [|n IH]; intros s; simpl; [discriminate|].
  destruct (decide _) as [Hin|Hnin].
  - intros H. apply IH in H. simpl in H. exact H.
  - intros H. inversion H; subst; clear H. simpl in *.
    repeat split; auto.
    destruct (nextSEID s =? 0) eqn:E; [lia|]. apply Z.eqb_neq in E. exact E.
Qed.

Lemma allocRandom_success attempts g s v s' g' :
  allocRandom attempts g s = (Ok v, s', g') ->
  v <> 0 /\ (v ∉ usedSEIDs s) /\ usedSEIDs s' = {[ v ]} ∪ usedSEIDs s
  /\ strategy s' = strategy s.
Proof.
  revert g. induction attempts as [|n IH]; intros g; simpl; [discriminate|].
  destruct (_ || _) eqn:E.
  - apply IH.
  - intros H. inversion H; subst; clear H. simpl.
    apply orb_false_iff in E as [E1 E2].
    apply Z.eqb_neq in E1. apply bool_decide_eq_false in E2. auto.
Qed.

Lemma Allocate_success g s v s' g' :
  Allocate g s = (Ok v, s', g') ->
  v <> 0 /\ (v ∉ usedSEIDs s) /\ usedSEIDs s' = {[ v ]} ∪ usedSEIDs s
  /\ strategy s' = strategy s.
Proof.
  unfold Allocate.
  destruct (String.eqb (strategy s) "sequential").
  - destruct (allocSequential _ _) as [r s1] eqn:E. intros H.
    inversion H; subst. eapply allocSequential_success; eauto.
  - destruct (String.eqb (strategy s) "random").
    + apply allocRandom_success.
    + discriminate.
Qed.

Lemma sequentialBound_S : exists n, sequentialBound = S n.
Proof.
  exists (Z.to_nat 999999). unfold sequentialBound.
  rewrite <- Z2Nat.inj_succ by lia. reflexivity.
Qed.

Lemma allocSequential_S n s :
  allocSequential (S n) s =
    let next := if nextSEID s =? 0 then 1 else nextSEID s in
    let s1 := {| strategy := strategy s; nextSEID := incr64 next;
                 usedSEIDs := usedSEIDs s |} in
    if decide (next ∈ usedSEIDs s1) then allocSequential n s1
    else (Ok next, {| strategy := strategy s1; nextSEID := nextSEID s1;
                      usedSEIDs := {[ next ]} ∪ usedSEIDs s1 |}).
Proof. reflexivity. Qed.

(** When the counter value is free, the sequential branch returns it at
    the first iteration. *)
Lemma Allocate_sequential_free g s :
  strategy s = "sequential" ->
  nextSEID s <> 0 -> nextSEID s ∉ usedSEIDs s ->
  Allocate g s =
    (Ok (nextSEID s),
     {| strategy := strategy s; nextSEID := incr64 (nextSEID s);
        usedSEIDs := {[ nextSEID s ]} ∪ usedSEIDs s |}, g).
Proof.
  intros Hs Hnz Hfree. unfold Allocate.
  destruct sequentialBound_S as [n ->].
  rewrite Hs. change (String.eqb "sequential" "sequential") with true. cbv iota.
  rewrite allocSequential_S. cbv zeta. cbn [nextSEID usedSEIDs strategy].
  apply Z.eqb_neq in Hnz. rewrite Hnz.
  destruct (decide _) as [Hin|_]; [contradiction|]. rewrite Hs. reflexivity.
Qed.

Lemma AllocateN_sequential_from (B : Z) (n m : nat) (g : Rng) :
  1 <= B -> B + Z.of_nat m + Z.of_nat n <= 2 ^ 64 ->
  AllocateN n g (afterN B m) =
    (Ok <$> seqZ (B + Z.of_nat m) (Z.of_nat n), afterN B (m + n), g).
Proof.
  revert m. induction n as [|n IH]; intros m HB Hle.
  - simpl. replace (m + 0)%nat with m by lia. reflexivity.
  - cbn [AllocateN].
    assert (Hnext : nextSEID (afterN B m) = B + Z.of_nat m).
    { unfold afterN, incr64; simpl.
      rewrite Z.mod_small by lia. lia. }
    rewrite Allocate_sequential_free; [| reflexivity | lia |].
    2:{ rewrite Hnext. unfold afterN; simpl.
        rewrite elem_of_list_to_set, elem_of_seqZ. lia. }
    assert (Hst : {| strategy := strategy (afterN B m);
                     nextSEID := incr64 (nextSEID (afterN B m));
                     usedSEIDs := {[ nextSEID (afterN B m) ]} ∪ usedSEIDs (afterN B m) |}
                  = afterN B (S m)).
    { rewrite Hnext. unfold afterN; simpl. f_equal.
      - f_equal. lia.
      - apply set_eq. intros x.
        rewrite elem_of_union, elem_of_singleton, !elem_of_list_to_set, !elem_of_seqZ.
        lia. }
    rewrite Hst, IH by lia. rewrite Hnext.
    replace (S m + n)%nat with (m + S n)%nat by lia.
    assert (Hseq : seqZ (B + Z.of_nat m) (Z.of_nat (S n)) =
                   (B + Z.of_nat m) :: seqZ (B + Z.of_nat (S m)) (Z.of_nat n)).
    { rewrite seqZ_cons by lia. f_equal. f_equal; lia. }
    rewrite Hseq. reflexivity.
Qed.

End SEIDAllocFacts.

Section SEIDAllocMonotone.
Import SEIDAlloc.

(** Releasing never frees what the counter points at when every held
    value lies below the counter: the next call returns the counter. *)
Lemma Allocate_after_Release_below g s v :
  strategy s = "sequential" -> 0 < nextSEID s ->
  (forall u, u ∈ usedSEIDs s -> u < nextSEID s) ->
  (Allocate g (Release s v)).1.1 = Ok (nextSEID s).
Proof.
  intros Hs Hpos Hbelow.
  rewrite Allocate_sequential_free; cbn; auto; [lia|].
  rewrite elem_of_difference. intros [Hin _]. apply Hbelow in Hin. lia.
Qed.

End SEIDAllocMonotone.
(** * Theorems: UE IP pool *)
Section IPPoolFacts.
Import IPPool.

Lemma totalIPs_pow n : 0 <= 32 - maskOnes n -> totalIPs n = 2 ^ (32 - maskOnes n).
Proof. intros H. unfold totalIPs. rewrite Z.shiftl_1_l. reflexivity. Qed.

(** Masking with a prefix mask clears the host bits. *)
Lemma land_CIDRMask ip ones :
  0 <= ip < 2 ^ 32 -> 0 <= ones <= 32 ->
  Z.land ip (CIDRMask ones) = ip / 2 ^ (32 - ones) * 2 ^ (32 - ones).
Proof.
  intros Hip Hones. unfold CIDRMask.
  rewrite <- Z.shiftr_div_pow2, <- Z.shiftl_mul_pow2 by lia.
  apply Z.bits_inj'. intros i Hi.
  rewrite Z.land_spec.
  destruct (Z.lt_ge_cases i (32 - ones)) as [Hlt|Hge].
  - rewrite !Z.shiftl_spec_low by lia. apply andb_false_r.
  - rewrite !Z.shiftl_spec by lia. rewrite Z.shiftr_spec by lia.
    replace (i - (32 - ones) + (32 - ones)) with i by lia.
    destruct (Z.lt_ge_cases i 32) as [Hi32|Hi32].
    + rewrite Z.ones_spec_low by lia. apply andb_true_r.
    + rewrite Z.ones_spec_high by lia. rewrite andb_false_r.
      symmetry. rewrite <- (Z.mod_small ip (2 ^ 32)) by lia.
      apply Z.mod_pow2_bits_high. lia.
Qed.

Lemma Contains_range n ip :
  0 <= maskOnes n <= 32 -> 0 <= netIP n < 2 ^ 32 ->
  netIP n mod 2 ^ (32 - maskOnes n) = 0 ->
  0 <= ip < 2 ^ 32 ->
  Contains n ip = true <-> netIP n <= ip < netIP n + 2 ^ (32 - maskOnes n).
Proof.
  intros Hones Hnet Hal Hip. unfold Contains.
  rewrite !land_CIDRMask by lia.
  set (T := 2 ^ (32 - maskOnes n)) in *.
  assert (HT : 0 < T) by (apply Z.pow_pos_nonneg; lia).
  rewrite Z.eqb_eq.
  pose proof (Z.div_mod ip T ltac:(lia)) as E1.
  pose proof (Z.mod_pos_bound ip T HT) as B1.
  pose proof (Z.div_mod (netIP n) T ltac:(lia)) as E2.
  rewrite Hal in E2.
  split; intros H; [nia|].
  assert (ip / T = netIP n / T); [|congruence].
  assert (T * (ip / T) - T * (netIP n / T) < T) by lia.
  assert (- T < T * (ip / T) - T * (netIP n / T)) by lia.
  nia.
Qed.

Lemma blockSize_ge2 n : properBlock n -> 2 <= blockSize n.
Proof.
  intros (Ho & _). unfold blockSize.
  change 2 with (2 ^ 1) at 1. apply Z.pow_le_mono_r; lia.
Qed.

Lemma blockSize_le n : properBlock n -> blockSize n <= 2 ^ 31.
Proof.
  intros (Ho & _). unfold blockSize. apply Z.pow_le_mono_r; lia.
Qed.

Lemma Contains_proper n ip :
  properBlock n -> 0 <= ip < 2 ^ 32 ->
  Contains n ip = true <-> netIP n <= ip < netIP n + blockSize n.
Proof.
  intros (Ho & Hn0 & Hn1 & Hal) Hip.
  pose proof (blockSize_ge2 n (conj Ho (conj Hn0 (conj Hn1 Hal)))).
  apply Contains_range; try lia. exact Hal.
Qed.

Lemma wrapCursor_issuable n a :
  properBlock n -> issuable n a -> wrapCursor n a = a.
Proof.
  intros Hn Ha. unfold wrapCursor.
  pose proof (blockSize_ge2 n Hn) as HT.
  pose proof Hn as (Ho & Hn0 & Hn1 & Hal). unfold issuable in Ha.
  assert (H : Contains n a = true).
  { apply (Contains_proper n a Hn); lia. }
  rewrite H. reflexivity.
Qed.

Lemma wrapCursor_incr n a :
  properBlock n -> issuable n a ->
  wrapCursor n (incrementIP a) = succIn n a.
Proof.
  intros Hn Ha. pose proof (blockSize_ge2 n Hn) as HT.
  pose proof (blockSize_le n Hn) as HT'.
  pose proof Hn as (Ho & Hn0 & Hn1 & Hal). unfold issuable in Ha.
  unfold wrapCursor, succIn, incrementIP.
  destruct (Z.ltb_spec (a + 1) (netIP n + blockSize n)) as [Hlt|Hge].
  - rewrite Z.mod_small by lia.
    assert (H : Contains n (a + 1) = true) by (apply (Contains_proper n (a + 1) Hn); lia).
    rewrite H. reflexivity.
  - assert (Hm : 0 <= (a + 1) mod 2 ^ 32 < 2 ^ 32) by (apply Z.mod_pos_bound; lia).
    destruct (Contains n ((a + 1) mod 2 ^ 32)) eqn:E.
    + apply (Contains_proper n _ Hn) in E; [|lia].
      assert (a + 1 = netIP n + blockSize n) by lia.
      destruct (Z.eq_dec (a + 1) (2 ^ 32)) as [E32|N32].
      * rewrite E32, Z.mod_same in E by lia. lia.
      * rewrite Z.mod_small in E by lia. lia.
    + rewrite Z.mod_small by lia. reflexivity.
Qed.

Lemma succIn_issuable n a : properBlock n -> issuable n a -> issuable n (succIn n a).
Proof.
  intros Hn Ha. pose proof (blockSize_ge2 n Hn). unfold issuable, succIn in *.
  destruct (Z.ltb_spec (a + 1) (netIP n + blockSize n)); lia.
Qed.

Ltac dist_cases :=
  unfold dist, succIn, issuable in *;
  repeat match goal with
         | |- context [?a <=? ?b] => destruct (Z.leb_spec a b)
         | |- context [?a <? ?b] => destruct (Z.ltb_spec a b)
         | H : context [?a <=? ?b] |- _ => destruct (Z.leb_spec a b)
         | H : context [?a <? ?b] |- _ => destruct (Z.ltb_spec a b)
         end.

(** The scanning loop on a well-formed pool: it stops within the fuel
    given, returns the first free address met from the cursor on, and
    reports exhaustion only after every issuable address was found held. *)
Lemma scan_spec n start :
  properBlock n -> issuable n start ->
  forall fuel p c,
    cidr p = n -> issuable n (nextIP p) -> dist n start (nextIP p) = c ->
    (forall a, issuable n a -> dist n start a < c -> a ∈ allocated p) ->
    blockSize n - 1 - c <= Z.of_nat fuel ->
    exists r p',
      scan fuel p start c (blockSize n) = Some (r, p') /\ cidr p' = n /\
      issuable n (nextIP p') /\
      match r with
      | Ok v =>
          issuable n v /\ (v ∉ allocated p) /\
          allocated p' = {[ v ]} ∪ allocated p /\ nextIP p' = succIn n v /\
          (forall a, issuable n a -> dist n start a < dist n start v -> a ∈ allocated p)
      | Err e =>
          e = ErrPoolExhausted (Z.of_nat (size (allocated p))) /\
          allocated p' = allocated p /\
          (forall a, issuable n a -> a ∈ allocated p)
      end.
Proof.
  intros Hn Hs. pose proof (blockSize_ge2 n Hn) as HT.
  induction fuel as [|fuel IH]; intros p c Hc Hcur Hd Hcov Hfuel.
  - exfalso. subst c. clear Hcov. dist_cases; lia.
  - cbn [scan]. rewrite Hc.
    rewrite (wrapCursor_incr n (nextIP p) Hn Hcur).
    pose proof (succIn_issuable n _ Hn Hcur) as Hnext.
    destruct (decide (nextIP p ∈ allocated p)) as [Hheld|Hfree].
    + destruct ((c + 1 >=? blockSize n - 1) || (succIn n (nextIP p) =? start)) eqn:Hexit.
      * eexists _, _. split; [reflexivity|]. cbn. split_and!; auto.
        intros a Ha.
        destruct (Z.eq_dec a (nextIP p)) as [->|Hne]; [assumption|].
        apply Hcov; [assumption|].
        apply orb_true_iff in Hexit as [Hex|Hex].
        -- apply Z.geb_le in Hex. subst c. clear Hcov IH. dist_cases; lia.
        -- apply Z.eqb_eq in Hex. subst c. clear Hcov IH. dist_cases; lia.
      * apply orb_false_iff in Hexit as [Hex1 Hex2].
        rewrite Z.geb_leb in Hex1. apply Z.leb_gt in Hex1. apply Z.eqb_neq in Hex2.
        destruct (IH {| cidr := n; nextIP := succIn n (nextIP p);
                        allocated := allocated p |} (c + 1))
          as (r & p' & Hscan & Hc' & Hcur' & Hr); cbn; auto.
        -- subst c. clear Hcov IH. dist_cases; lia.
        -- intros a Ha Hlt.
           destruct (Z.eq_dec a (nextIP p)) as [->|Hne]; [assumption|].
           apply Hcov; [assumption|].
           subst c. clear Hcov IH. dist_cases; lia.
        -- lia.
        -- exists r, p'. split; [exact Hscan|]. split; [exact Hc'|]. split; [exact Hcur'|].
           destruct r as [v|e]; cbn in Hr; exact Hr.
    + eexists _, _. split; [reflexivity|]. cbn. split_and!; auto.
      intros a Ha Hlt. apply Hcov; [assumption|]. lia.
Qed.

Lemma blockSize_total n : properBlock n -> totalIPs n = blockSize n.
Proof. intros (Ho & _). unfold blockSize. apply totalIPs_pow. lia. Qed.

(** What one call of [Allocate] does on a well-formed pool. *)
Lemma Allocate_spec p :
  wfPool p ->
  exists r p',
    Allocate p = Some (r, p') /\ cidr p' = cidr p /\ wfPool p' /\
    match r with
    | Ok v =>
        issuable (cidr p) v /\ (v ∉ allocated p) /\
        allocated p' = {[ v ]} ∪ allocated p /\ nextIP p' = succIn (cidr p) v /\
        (forall a, issuable (cidr p) a ->
                   dist (cidr p) (nextIP p) a < dist (cidr p) (nextIP p) v ->
                   a ∈ allocated p)
    | Err e =>
        e = ErrPoolExhausted (Z.of_nat (size (allocated p))) /\
        allocated p' = allocated p /\
        (forall a, issuable (cidr p) a -> a ∈ allocated p)
    end.
Proof.
  intros [Hn Hcur]. pose proof (blockSize_ge2 _ Hn) as HT.
  unfold Allocate. rewrite (wrapCursor_issuable _ _ Hn Hcur).
  rewrite (blockSize_total _ Hn). cbn [nextIP].
  destruct (scan_spec (cidr p) (nextIP p) Hn Hcur (Z.to_nat (blockSize (cidr p)))
              {| cidr := cidr p; nextIP := nextIP p; allocated := allocated p |} 0)
    as (r & p' & Hscan & Hc & Hcur' & Hr); cbn; auto.
  - unfold dist. rewrite Z.leb_refl. lia.
  - intros a Ha Hlt. exfalso. unfold dist, issuable in *.
    destruct (Z.leb_spec (nextIP p) a); lia.
  - lia.
  - exists r, p'. split; [exact Hscan|]. split; [exact Hc|].
    split; [split; rewrite Hc; assumption|]. exact Hr.
Qed.

Lemma Release_wf p ip : wfPool p -> wfPool (Release p ip).
Proof. intros H. exact H. Qed.

(** The loop of [Allocate] always stops: whatever the pool, the counter
    [checked] reaches [total - 1] before the fuel runs out. *)
Lemma scan_fuel_enough fuel p start c total :
  total - 1 - c <= Z.of_nat fuel -> (1 <= fuel)%nat ->
  scan fuel p start c total <> None.
Proof.
  revert p c. induction fuel as [|fuel IH]; intros p c Hf H1; [lia|].
  cbn [scan]. destruct (decide _); [|discriminate].
  destruct (_ || _) eqn:E; [discriminate|].
  apply orb_false_iff in E as [E _].
  rewrite Z.geb_leb in E. apply Z.leb_gt in E.
  apply IH; lia.
Qed.

Lemma Allocate_terminates p :
  0 <= maskOnes (cidr p) <= 32 -> Allocate p <> None.
Proof.
  intros Ho. unfold Allocate. apply scan_fuel_enough.
  - lia.
  - rewrite totalIPs_pow by lia.
    assert (0 < 2 ^ (32 - maskOnes (cidr p))) by (apply Z.pow_pos_nonneg; lia). lia.
Qed.

(** Effect of the loop on the held set, for any pool. *)
Lemma scan_allocated fuel p start c total r p' :
  scan fuel p start c total = Some (r, p') ->
  cidr p' = cidr p /\
  match r with
  | Ok v => (v ∉ allocated p) /\ allocated p' = {[ v ]} ∪ allocated p
  | Err e => allocated p' = allocated p
  end.
Proof.
  revert p c. induction fuel as [|fuel IH]; intros p c; cbn [scan]; [discriminate|].
  destruct (decide _) as [Hin|Hnin].
  - destruct (_ || _).
    + intros H. inversion H; subst. cbn. auto.
    + intros H. apply IH in H. cbn in H. exact H.
  - intros H. inversion H; subst. cbn. auto.
Qed.

Lemma Allocate_allocated p r p' :
  Allocate p = Some (r, p') ->
  cidr p' = cidr p /\
  match r with
  | Ok v => (v ∉ allocated p) /\ allocated p' = {[ v ]} ∪ allocated p
  | Err e => allocated p' = allocated p
  end.
Proof. unfold Allocate. intros H. apply scan_allocated in H. exact H. Qed.

(** A free cursor address is returned at once. *)
Lemma Allocate_free p :
  wfPool p -> nextIP p ∉ allocated p ->
  Allocate p =
    Some (Ok (nextIP p),
          {| cidr := cidr p; nextIP := succIn (cidr p) (nextIP p);
             allocated := {[ nextIP p ]} ∪ allocated p |}).
Proof.
  intros [Hn Hcur] Hfree. pose proof (blockSize_ge2 _ Hn) as HT.
  unfold Allocate. rewrite (wrapCursor_issuable _ _ Hn Hcur).
  rewrite (blockSize_total _ Hn).
  destruct (Z.to_nat (blockSize (cidr p))) as [|fuel] eqn:E; [lia|].
  cbn [scan cidr nextIP allocated].
  destruct (decide _) as [Hin|_]; [contradiction|].
  rewrite (wrapCursor_incr _ _ Hn Hcur). reflexivity.
Qed.

Lemma ParseCIDR_proper addr ones :
  0 <= addr < 2 ^ 32 -> 1 <= ones <= 31 ->
  exists n, ParseCIDR addr ones = Some n /\ properBlock n /\ maskOnes n = ones /\
            netIP n = addr / 2 ^ (32 - ones) * 2 ^ (32 - ones).
Proof.
  intros Ha Ho. unfold ParseCIDR.
  replace ((0 <=? addr) && (addr <? 2 ^ 32) && (0 <=? ones) && (ones <=? 32)) with true.
  2:{ symmetry. rewrite !andb_true_iff, !Z.leb_le, Z.ltb_lt. lia. }
  eexists. split; [reflexivity|].
  rewrite land_CIDRMask by lia.
  set (T := 2 ^ (32 - ones)).
  assert (HT : 0 < T) by (apply Z.pow_pos_nonneg; lia).
  assert (H32 : 2 ^ 32 = 2 ^ ones * T).
  { unfold T. rewrite <- Z.pow_add_r by lia. f_equal. lia. }
  assert (Hq : 0 <= addr / T < 2 ^ ones).
  { split; [apply Z.div_pos; lia|]. apply Z.div_lt_upper_bound; lia. }
  unfold properBlock, blockSize; cbn. fold T.
  split_and!; try lia; try nia.
  apply Z.mod_mul. lia.
Qed.

Lemma NewUEIPPool_wf addr ones :
  0 <= addr < 2 ^ 32 -> 1 <= ones <= 31 ->
  exists n, properBlock n /\ maskOnes n = ones /\
            netIP n = addr / 2 ^ (32 - ones) * 2 ^ (32 - ones) /\
            NewUEIPPool addr ones = Ok (poolAfter n 0).
Proof.
  intros Ha Ho.
  destruct (ParseCIDR_proper addr ones Ha Ho) as (n & Hp & Hn & Hon & Hnet).
  exists n. split_and!; auto.
  unfold NewUEIPPool. rewrite Hp.
  pose proof (blockSize_ge2 _ Hn) as HT. pose proof Hn as (_ & Hn0 & Hn1 & _).
  unfold poolAfter, incrementIP. rewrite Z.mod_small by lia.
  destruct (Z.ltb_spec 0 (blockSize n - 1)); f_equal; f_equal; lia.
Qed.

Lemma poolAfter_wf n m : properBlock n -> 0 <= m -> wfPool (poolAfter n m).
Proof.
  intros Hn Hm. pose proof (blockSize_ge2 _ Hn) as HT.
  split; [exact Hn|]. unfold issuable, poolAfter; cbn.
  destruct (Z.ltb_spec m (blockSize n - 1)); lia.
Qed.

Lemma poolAfter_step n m :
  properBlock n -> 0 <= m < blockSize n - 1 ->
  Allocate (poolAfter n m) = Some (Ok (netIP n + 1 + m), poolAfter n (m + 1)).
Proof.
  intros Hn Hm.
  assert (Hcur : nextIP (poolAfter n m) = netIP n + 1 + m).
  { unfold poolAfter; cbn. destruct (Z.ltb_spec m (blockSize n - 1)); lia. }
  rewrite Allocate_free.
  - rewrite Hcur. f_equal. f_equal. unfold poolAfter; cbn. f_equal.
    + unfold succIn.
      destruct (Z.ltb_spec (netIP n + 1 + m + 1) (netIP n + blockSize n));
      destruct (Z.ltb_spec (m + 1) (blockSize n - 1)); lia.
    + apply set_eq. intros x.
      rewrite elem_of_union, elem_of_singleton, !elem_of_list_to_set, !elem_of_seqZ. lia.
  - apply poolAfter_wf; [assumption | lia].
  - rewrite Hcur. unfold poolAfter; cbn.
    rewrite elem_of_list_to_set, elem_of_seqZ. lia.
Qed.

Lemma AllocateN_poolAfter n (k : nat) m :
  properBlock n -> 0 <= m -> m + Z.of_nat k <= blockSize n - 1 ->
  AllocateN k (poolAfter n m) =
    Some (Ok <$> seqZ (netIP n + 1 + m) (Z.of_nat k), poolAfter n (m + Z.of_nat k)).
Proof.
  intros Hn. revert m. induction k as [|k IH]; intros m Hm Hk.
  - cbn. rewrite Z.add_0_r. reflexivity.
  - cbn [AllocateN]. rewrite poolAfter_step by (auto; lia).
    rewrite IH by lia.
    replace (m + 1 + Z.of_nat k) with (m + Z.of_nat (S k)) by lia.
    assert (Hseq : seqZ (netIP n + 1 + m) (Z.of_nat (S k)) =
                   (netIP n + 1 + m) :: seqZ (netIP n + 1 + (m + 1)) (Z.of_nat k)).
    { rewrite seqZ_cons by lia. f_equal. f_equal; lia. }
    rewrite Hseq. reflexivity.
Qed.

Lemma poolAfter_full n :
  properBlock n ->
  forall a, issuable n a -> a ∈ allocated (poolAfter n (blockSize n - 1)).
Proof.
  intros Hn a Ha. unfold poolAfter, issuable in *; cbn.
  rewrite elem_of_list_to_set, elem_of_seqZ. lia.
Qed.

Lemma poolAfter_size n m : 0 <= m -> size (allocated (poolAfter n m)) = Z.to_nat m.
Proof.
  intros Hm. unfold poolAfter; cbn.
  rewrite size_list_to_set by apply NoDup_seqZ.
  rewrite length_seqZ. reflexivity.
Qed.

Lemma seqZ_three m : seqZ m (Z.of_nat 3) = [m; m + 1; m + 2].
Proof.
  unfold seqZ. change (Z.to_nat (Z.of_nat 3)) with 3%nat.
  cbn [seq fmap list_fmap].
  replace (Z.of_nat 0 + m) with m by lia.
  replace (Z.of_nat 1 + m) with (m + 1) by lia.
  replace (Z.of_nat 2 + m) with (m + 2) by lia. reflexivity.
Qed.

(** When every issuable address is held the call reports exhaustion. *)
Lemma Allocate_full p :
  wfPool p -> (forall a, issuable (cidr p) a -> a ∈ allocated p) ->
  exists p', Allocate p =
               Some (Err (ErrPoolExhausted (Z.of_nat (size (allocated p)))), p')
             /\ allocated p' = allocated p /\ wfPool p'.
Proof.
  intros Hwf Hall.
  destruct (Allocate_spec p Hwf) as (r & p' & HA & Hc & Hwf' & Hr).
  destruct r as [v|e].
  - destruct Hr as (Hv & Hnin & _). exfalso. apply Hnin, Hall, Hv.
  - destruct Hr as (-> & Hal & _). exists p'. auto.
Qed.

End IPPoolFacts.
(** * The block 0.0.0.0/0 *)
Section WholeSpace.
Import IPPool.

Lemma Contains_wholeSpace ip : Contains wholeSpace ip = true.
Proof.
  unfold Contains, wholeSpace; cbn [maskOnes netIP].
  change (CIDRMask 0) with 0. rewrite !Z.land_0_r. reflexivity.
Qed.

Lemma totalIPs_wholeSpace_fuel : exists fuel, Z.to_nat (totalIPs wholeSpace) = S fuel.
Proof.
  exists (Z.to_nat (2 ^ 32 - 1)).
  rewrite <- Z2Nat.inj_succ by (apply Z.lt_le_incl; reflexivity).
  reflexivity.
Qed.

Lemma Allocate_idleWholeSpace k :
  Allocate (idleWholeSpace k) =
    Some (Ok k, {| cidr := wholeSpace; nextIP := incrementIP k;
                   allocated := {[ k ]} ∪ ∅ |}).
Proof.
  unfold Allocate, idleWholeSpace. cbn [cidr nextIP allocated].
  unfold wrapCursor at 1. rewrite Contains_wholeSpace.
  destruct totalIPs_wholeSpace_fuel as [fuel ->].
  cbn [scan cidr nextIP allocated].
  destruct (decide (k ∈ (∅ : gset Z))) as [Hin|_];
    [exfalso; exact (not_elem_of_empty k Hin)|].
  unfold wrapCursor. rewrite Contains_wholeSpace. reflexivity.
Qed.

Lemma allocRelease_idleWholeSpace k :
  allocRelease (idleWholeSpace k) = Some (idleWholeSpace (incrementIP k)).
Proof.
  unfold allocRelease. rewrite Allocate_idleWholeSpace.
  unfold Release, idleWholeSpace; cbn. f_equal. f_equal.
  apply set_eq. intros x.
  rewrite elem_of_difference, elem_of_union, elem_of_singleton.
  pose proof (not_elem_of_empty (C:=gset Z) x). tauto.
Qed.

Lemma rounds_idleWholeSpace (j : nat) k :
  0 <= k < 2 ^ 32 ->
  rounds j (idleWholeSpace k) = Some (idleWholeSpace ((k + Z.of_nat j) mod 2 ^ 32)).
Proof.
  revert k. induction j as [|j IH]; intros k Hk.
  - cbn [rounds]. rewrite Z.add_0_r, Z.mod_small by lia. reflexivity.
  - cbn [rounds]. rewrite allocRelease_idleWholeSpace.
    rewrite IH by (unfold incrementIP; apply Z.mod_pos_bound; lia).
    f_equal. f_equal. unfold incrementIP.
    rewrite Zplus_mod_idemp_l. f_equal. lia.
Qed.

End WholeSpace.
(** * Theorems: transaction tracker *)
Section TrackerFacts.
Import Tracker.

Lemma chanSend_same ch r cs :
  default [] (chanSend ch r cs !! ch) = default [] (cs !! ch) ++ [r].
Proof. unfold chanSend. rewrite lookup_insert_eq. reflexivity. Qed.

Lemma chanSend_other ch r cs b : ch <> b -> chanSend ch r cs !! b = cs !! b.
Proof. intros H. unfold chanSend. rewrite lookup_insert_ne by exact H. reflexivity. Qed.

Lemma resent_snoc_same t a d w :
  wire t = w ++ [(a, d)] ->
  resent t a = S (length (filter (fun e : nat * list Z => e.1 = a) w)).
Proof.
  intros H. unfold resent. rewrite H, filter_app, length_app.
  rewrite filter_cons_True by reflexivity. cbn. lia.
Qed.

Lemma resent_snoc_other t a b d w :
  a <> b -> wire t = w ++ [(a, d)] ->
  resent t b = length (filter (fun e : nat * list Z => e.1 = b) w).
Proof.
  intros Hne H. unfold resent. rewrite H, filter_app, length_app.
  rewrite filter_cons_False by (cbn; congruence). cbn. lia.
Qed.

Lemma trkInv_start timeoutMs R : trkInv (NewTransactionTracker timeoutMs R) [].
Proof.
  unfold trkInv, NewTransactionTracker; cbn. split_and!.
  - intros seqNum a H. rewrite lookup_empty in H. discriminate.
  - intros a tx H. rewrite lookup_empty in H. discriminate.
  - intros a d H. apply elem_of_nil in H. contradiction.
  - intros a H. apply elem_of_nil in H. contradiction.
Qed.

Lemma filter_none_length (a : nat) (w : list (nat * list Z)) :
  (forall d, (a, d) ∉ w) ->
  length (filter (fun e : nat * list Z => e.1 = a) w) = 0%nat.
Proof.
  intros H. induction w as [|[b d] w IH]; [reflexivity|].
  rewrite filter_cons. destruct (decide _) as [E|E]; cbn in E.
  - subst b. exfalso. apply (H d). apply list_elem_of_here.
  - apply IH. intros d' Hin. apply (H d'). apply list_elem_of_further, Hin.
Qed.

Ltac proj := cbn [trk snapshot pending heap chans nextAddr timeout maxRetries wire
                  Track Resolve snd fst SeqNum RequestData SentAt RetryCount ResultCh] in *.

Lemma trkInv_Track t snap seqNum data now :
  trkInv t snap -> pending t !! seqNum = None ->
  (forall a tx, a ∈ snap -> heap t !! a = Some tx -> SeqNum tx <> seqNum) ->
  trkInv (Track seqNum data now t).2 snap.
Proof.
  intros (HP & HH & HW & HS) Hfree Hsnap.
  assert (Hlt : forall a tx, heap t !! a = Some tx -> a <> nextAddr t).
  { intros a tx H. apply HH in H. destruct H as (_ & H & _). lia. }
  unfold trkInv. proj. split_and!.
  - intros q a H. destruct (decide (q = seqNum)) as [->|Hne].
    + rewrite lookup_insert_eq in H. inversion H; subst.
      rewrite lookup_insert_eq. eexists. split; reflexivity.
    + rewrite lookup_insert_ne in H by congruence.
      destruct (HP _ _ H) as (tx & Htx & Hseq). exists tx. split; [|exact Hseq].
      rewrite lookup_insert_ne; [exact Htx|]. intros E. exact (Hlt _ _ Htx (eq_sym E)).
  - intros a tx H. destruct (decide (a = nextAddr t)) as [->|Hne].
    + rewrite lookup_insert_eq in H. inversion H; subst. clear H.
      assert (Hnw : forall d, (nextAddr t, d) ∉ wire t).
      { intros d Hin. destruct (HW _ _ Hin) as [tx Htx]. exact (Hlt _ _ Htx eq_refl). }
      unfold txOk, resent, delivered. proj. split_and!; try lia.
      * rewrite filter_none_length by exact Hnw. reflexivity.
      * intros d Hin. exfalso. exact (Hnw d Hin).
      * left. rewrite !lookup_insert_eq. split; reflexivity.
    + rewrite lookup_insert_ne in H by congruence.
      destruct (HH _ _ H) as (H1 & H2 & H3 & H4 & H5 & H6).
      unfold txOk, resent, delivered in *. proj. split_and!; auto; try lia.
      rewrite (lookup_insert_ne (chans t)) by congruence.
      destruct (decide (SeqNum tx = seqNum)) as [E|E].
      * right. rewrite E in *. rewrite lookup_insert_eq.
        destruct H6 as [[H6 _]|[_ H6]]; [congruence|].
        split; [congruence | exact H6].
      * rewrite lookup_insert_ne by congruence. exact H6.
  - intros a d Hin. destruct (HW _ _ Hin) as [tx Htx].
    exists tx. rewrite lookup_insert_ne; [exact Htx|].
    intros E. exact (Hlt _ _ Htx (eq_sym E)).
  - intros a Hin. destruct (HS _ Hin) as (tx & Htx & Hst).
    exists tx. split.
    + rewrite lookup_insert_ne; [exact Htx|]. intros E. exact (Hlt _ _ Htx (eq_sym E)).
    + rewrite lookup_insert_ne; [exact Hst|]. intros E.
      exact (Hsnap _ _ Hin Htx (eq_sym E)).
Qed.

(** Removing the transaction at [a] from [pending] and sending [r] on
    its channel keeps the invariant. Used by [Resolve] and by the last
    timeout. *)
Lemma trkInv_fulfil t snap a tx r snap' :
  trkInv t snap -> heap t !! a = Some tx -> pending t !! SeqNum tx = Some a ->
  (forall n, Error r = Some (ErrTimeout n) -> RetryCount tx = Z.max 0 (maxRetries t)) ->
  (forall b, b ∈ snap' -> b ∈ snap) ->
  trkInv {| pending := delete (SeqNum tx) (pending t);
            heap := heap t;
            chans := chanSend (ResultCh tx) r (chans t);
            nextAddr := nextAddr t;
            timeout := timeout t; maxRetries := maxRetries t;
            wire := wire t |}
         snap'.
Proof.
  intros (HP & HH & HW & HS) Htx Hpend Hr Hsub.
  assert (Hch : ResultCh tx = a) by (destruct (HH _ _ Htx) as (H & _); exact H).
  rewrite Hch. unfold trkInv. proj. split_and!.
  - intros q b H. destruct (decide (q = SeqNum tx)) as [->|Hne].
    + rewrite lookup_delete_eq in H. discriminate.
    + rewrite lookup_delete_ne in H by congruence. exact (HP _ _ H).
  - intros b tx' H.
    destruct (HH _ _ H) as (H1 & H2 & H3 & H4 & H5 & H6).
    unfold txOk, resent, delivered in *. proj. split_and!; auto; try lia.
    destruct (decide (b = a)) as [->|Hne].
    + assert (tx' = tx) by congruence. subst tx'.
      right. rewrite lookup_delete_eq. split; [discriminate|].
      rewrite chanSend_same.
      destruct H6 as [[_ H6]|[H6 _]]; [|contradiction].
      rewrite H6. exists r. split; [reflexivity | exact Hr].
    + rewrite chanSend_other by congruence.
      destruct (decide (SeqNum tx' = SeqNum tx)) as [E|E].
      * right. rewrite E in *. rewrite lookup_delete_eq.
        destruct H6 as [[H6 _]|[_ H6]]; [congruence|].
        split; [discriminate | exact H6].
      * rewrite lookup_delete_ne by congruence. exact H6.
  - exact HW.
  - intros b Hin. destruct (HS _ (Hsub _ Hin)) as (tx' & Htx' & Hst).
    exists tx'. split; [exact Htx'|].
    destruct (decide (SeqNum tx' = SeqNum tx)) as [E|E].
    + right. rewrite E. apply lookup_delete_eq.
    + rewrite lookup_delete_ne by congruence. exact Hst.
Qed.

Lemma trkInv_Resolve t snap seqNum data now :
  trkInv t snap -> trkInv (Resolve seqNum data now t) snap.
Proof.
  intros Hinv. unfold Resolve.
  destruct (pending t !! seqNum) as [a|] eqn:Hp; [|exact Hinv].
  destruct (heap t !! a) as [tx|] eqn:Hh; [|exact Hinv].
  pose proof Hinv as (HP & _).
  destruct (HP _ _ Hp) as (tx' & Htx' & Hseq).
  assert (tx' = tx) by congruence. subst tx'. subst seqNum.
  apply (trkInv_fulfil t snap a tx); auto. cbn. discriminate.
Qed.

Lemma trkInv_subsnapshot t snap snap' :
  trkInv t snap -> (forall b, b ∈ snap' -> b ∈ snap) -> trkInv t snap'.
Proof.
  intros (HP & HH & HW & HS) Hsub. unfold trkInv. split_and!; auto.
Qed.

(** A call of [handleTimeout] with nothing in between, written out. *)
Lemma handleTimeout_eq a now t :
  handleTimeout a now t =
    match heap t !! a with
    | None => t
    | Some tx =>
        match pending t !! SeqNum tx with
        | None => t
        | Some _ =>
            if RetryCount tx <? maxRetries t then
              {| pending := pending t;
                 heap := <[ a := {| SeqNum := SeqNum tx; RequestData := RequestData tx;
                                    SentAt := now; RetryCount := RetryCount tx + 1;
                                    ResultCh := ResultCh tx |} ]> (heap t);
                 chans := chans t;
                 nextAddr := nextAddr t;
                 timeout := timeout t; maxRetries := maxRetries t;
                 wire := wire t ++ [(a, RequestData tx)] |}
            else
              {| pending := delete (SeqNum tx) (pending t);
                 heap := heap t;
                 chans := chanSend (ResultCh tx)
                            {| resSeqNum := SeqNum tx; Response := []; ResponseTime := 0;
                               Error := Some (ErrTimeout (maxRetries t)) |}
                            (chans t);
                 nextAddr := nextAddr t;
                 timeout := timeout t; maxRetries := maxRetries t; wire := wire t |}
        end
    end.
Proof.
  unfold handleTimeout, handleTimeoutLocked.
  destruct (heap t !! a) as [tx|]; [|reflexivity].
  destruct (pending t !! SeqNum tx); [|reflexivity].
  destruct (RetryCount tx <? maxRetries t); reflexivity.
Qed.

Lemma trkInv_handle t a rest now :
  trkInv t (a :: rest) -> trkInv (handleTimeout a now t) rest.
Proof.
  intros Hinv. pose proof Hinv as (HP & HH & HW & HS).
  assert (Hsub : forall b, b ∈ rest -> b ∈ a :: rest).
  { intros b Hb. apply list_elem_of_further, Hb. }
  destruct (HS a) as (tx & Htx & Hst); [apply list_elem_of_here|].
  rewrite handleTimeout_eq. rewrite Htx.
  destruct Hst as [Hst|Hst]; rewrite Hst;
    [|apply (trkInv_subsnapshot t (a :: rest)); assumption].
  destruct (HH _ _ Htx) as (H1 & H2 & H3 & H4 & H5 & H6).
  destruct (Z.ltb_spec (RetryCount tx) (maxRetries t)) as [Hretry|Hlast].
  - unfold trkInv. proj. split_and!.
    + intros q b H. destruct (HP _ _ H) as (tx' & Htx' & Hseq).
      destruct (decide (b = a)) as [->|Hne].
      * rewrite lookup_insert_eq. eexists. split; [reflexivity|]. cbn. congruence.
      * rewrite lookup_insert_ne by congruence. eauto.
    + intros b tx' H. destruct (decide (b = a)) as [->|Hne].
      * rewrite lookup_insert_eq in H. inversion H; subst tx'. clear H.
        unfold txOk, delivered in *. proj. split_and!; auto; try lia.
        -- rewrite (resent_snoc_same _ a (RequestData tx) (wire t)) by reflexivity.
           unfold resent in H4. lia.
        -- intros d Hin. apply elem_of_app in Hin as [Hin|Hin]; [auto|].
           apply list_elem_of_singleton in Hin. congruence.
        -- destruct H6 as [H6|[H6 _]]; [left; exact H6 | contradiction].
      * rewrite lookup_insert_ne in H by congruence.
        destruct (HH _ _ H) as (G1 & G2 & G3 & G4 & G5 & G6).
        unfold txOk, delivered in *. proj. split_and!; auto; try lia.
        -- rewrite (resent_snoc_other _ a b (RequestData tx) (wire t))
             by (auto; congruence).
           exact G4.
        -- intros d Hin. apply elem_of_app in Hin as [Hin|Hin]; [auto|].
           apply list_elem_of_singleton in Hin. congruence.
    + intros b d Hin. apply elem_of_app in Hin as [Hin|Hin].
      * destruct (HW _ _ Hin) as [tx' Htx'].
        destruct (decide (b = a)) as [->|Hne].
        -- rewrite lookup_insert_eq. eauto.
        -- rewrite lookup_insert_ne by congruence. eauto.
      * apply list_elem_of_singleton in Hin. inversion Hin; subst.
        rewrite lookup_insert_eq. eauto.
    + intros b Hin. destruct (HS _ (Hsub _ Hin)) as (tx' & Htx' & Hst').
      destruct (decide (b = a)) as [->|Hne].
      * rewrite lookup_insert_eq. eexists. split; [reflexivity|]. cbn.
        assert (tx' = tx) by congruence. subst tx'. exact Hst'.
      * rewrite lookup_insert_ne by congruence. eauto.
  - apply (trkInv_fulfil t (a :: rest) a tx); auto. intros n _. lia.
Qed.

Lemma timedOut_pending now t a :
  a ∈ timedOut now t ->
  exists seqNum tx, pending t !! seqNum = Some a /\ heap t !! a = Some tx /\
                    timeout t < now - SentAt tx.
Proof.
  unfold timedOut. rewrite list_elem_of_omap. intros ([q b] & Hin & Hf).
  apply elem_of_map_to_list in Hin.
  destruct (heap t !! b) as [tx|] eqn:Hh; [|discriminate].
  destruct (Z.ltb_spec (timeout t) (now - SentAt tx)); [|discriminate].
  inversion Hf; subst. eauto.
Qed.

Lemma trkInv_scan t snap now :
  trkInv t snap -> trkInv t (timedOut now t).
Proof.
  intros (HP & HH & HW & HS). unfold trkInv. split_and!; auto.
  intros a Hin. destruct (timedOut_pending _ _ _ Hin) as (q & tx & Hp & Hh & _).
  destruct (HP _ _ Hp) as (tx' & Htx' & Hseq).
  assert (tx' = tx) by congruence. subst tx'. exists tx. split; [exact Hh|].
  left. rewrite Hseq. exact Hp.
Qed.

Lemma cancel_fold h (l : list (Z * nat)) :
  (forall e, e ∈ l -> exists tx, h !! e.2 = Some tx /\ ResultCh tx = e.2) ->
  NoDup (l.*2) ->
  forall cs b,
    (b ∉ l.*2 -> foldl (cancelOne h) cs l !! b = cs !! b) /\
    (b ∈ l.*2 ->
     exists r, Error r = Some ErrCancelled /\
               default [] (foldl (cancelOne h) cs l !! b) = default [] (cs !! b) ++ [r]).
Proof.
  induction l as [|[q a] l IH]; intros Hl Hnd cs b.
  - cbn. split; [reflexivity|]. intros H. apply elem_of_nil in H. contradiction.
  - cbn [foldl fmap list_fmap] in *. apply NoDup_cons in Hnd as [Hna Hnd].
    destruct (Hl (q, a)) as (tx & Htx & Hch); [apply list_elem_of_here|]. cbn in Htx, Hch.
    assert (Hl' : forall e, e ∈ l -> exists tx, h !! e.2 = Some tx /\ ResultCh tx = e.2).
    { intros e He. apply Hl. apply list_elem_of_further, He. }
    specialize (IH Hl' Hnd).
    unfold cancelOne at 2 4. cbn [fst snd]. rewrite Htx, Hch.
    split.
    + intros Hnin. apply not_elem_of_cons in Hnin as [Hne Hnin].
      destruct (IH (chanSend a {| resSeqNum := q; Response := []; ResponseTime := 0;
                                  Error := Some ErrCancelled |} cs) b) as [H _].
      rewrite (H Hnin). apply chanSend_other. congruence.
    + intros Hin. apply elem_of_cons in Hin as [->|Hin].
      * destruct (IH (chanSend a {| resSeqNum := q; Response := []; ResponseTime := 0;
                                    Error := Some ErrCancelled |} cs) a) as [H _].
        rewrite (H Hna). rewrite chanSend_same. eexists. split; [|reflexivity]. reflexivity.
      * destruct (IH (chanSend a {| resSeqNum := q; Response := []; ResponseTime := 0;
                                    Error := Some ErrCancelled |} cs) b) as [_ H].
        destruct (H Hin) as (r & Hr & Hd). exists r. split; [exact Hr|].
        rewrite Hd. rewrite chanSend_other; [reflexivity|].
        intros ->. contradiction.
Qed.

Lemma pending_values_NoDup t snap :
  trkInv t snap -> NoDup ((map_to_list (pending t)).*2).
Proof.
  intros (HP & _). apply NoDup_fmap_2_strong; [|apply NoDup_map_to_list].
  intros [q1 a1] [q2 a2] H1 H2 E. cbn in E. subst a2.
  apply elem_of_map_to_list in H1, H2.
  destruct (HP _ _ H1) as (tx1 & Ht1 & Hs1). destruct (HP _ _ H2) as (tx2 & Ht2 & Hs2).
  f_equal. congruence.
Qed.

(** What [CancelAll] sends: one cancellation to every pending
    transaction, nothing to the others. *)
Lemma CancelAll_delivered t snap a tx :
  trkInv t snap -> heap t !! a = Some tx ->
  (pending t !! SeqNum tx = Some a ->
   exists r, Error r = Some ErrCancelled /\
             delivered (CancelAll t) a = delivered t a ++ [r]) /\
  (pending t !! SeqNum tx <> Some a ->
   delivered (CancelAll t) a = delivered t a).
Proof.
  intros Hinv Htx. pose proof Hinv as (HP & HH & _).
  assert (Hl : forall e, e ∈ map_to_list (pending t) ->
                         exists tx, heap t !! e.2 = Some tx /\ ResultCh tx = e.2).
  { intros [q b] He. apply elem_of_map_to_list in He. cbn.
    destruct (HP _ _ He) as (tx' & Htx' & _). exists tx'. split; [exact Htx'|].
    destruct (HH _ _ Htx') as (H & _). exact H. }
  destruct (cancel_fold _ _ Hl (pending_values_NoDup t snap Hinv) (chans t) a) as [Hout Hin].
  unfold delivered, CancelAll. proj. split.
  - intros Hp. apply Hin. apply list_elem_of_fmap. exists (SeqNum tx, a).
    split; [reflexivity|]. apply elem_of_map_to_list. exact Hp.
  - intros Hnp. rewrite Hout; [reflexivity|].
    intros Hmem. apply list_elem_of_fmap in Hmem as ([q b] & E & Hmem). cbn in E. subst b.
    apply elem_of_map_to_list in Hmem.
    destruct (HP _ _ Hmem) as (tx' & Htx' & Hseq).
    assert (tx' = tx) by congruence. subst tx'. subst q. contradiction.
Qed.

Lemma trkInv_CancelAll t snap :
  trkInv t snap -> trkInv (CancelAll t) snap.
Proof.
  intros Hinv. pose proof Hinv as (HP & HH & HW & HS).
  unfold trkInv. split_and!.
  - intros q a H. cbn in H. rewrite lookup_empty in H. discriminate.
  - intros a tx H. cbn [CancelAll heap] in H.
    destruct (HH _ _ H) as (H1 & H2 & H3 & H4 & H5 & H6).
    destruct (CancelAll_delivered t snap a tx Hinv H) as [Hin Hout].
    unfold txOk. split_and!; auto; try (cbn; lia).
    right. split; [cbn; rewrite lookup_empty; discriminate|].
    destruct H6 as [[Hp Hd]|[Hp Hd]].
    + destruct (Hin Hp) as (r & Hr & Hdel). exists r. rewrite Hdel, Hd.
      split; [reflexivity|]. intros n E. congruence.
    + rewrite (Hout Hp). exact Hd.
  - exact HW.
  - intros a Hin. destruct (HS _ Hin) as (tx & Htx & _). exists tx.
    split; [exact Htx|]. right. cbn. apply lookup_empty.
Qed.


(** *** Tracker-level steps and the transactions they do not concern *)

(** Once a transaction is no longer pending, a step of the tracker
    leaves it alone. *)
Lemma settled_Track t snap q d now a tx :
  trkInv t snap -> heap t !! a = Some tx -> pending t !! SeqNum tx <> Some a ->
  pending t !! q = None ->
  heap (Track q d now t).2 !! a = Some tx /\
  pending (Track q d now t).2 !! SeqNum tx <> Some a /\
  resent (Track q d now t).2 a = resent t a /\
  delivered (Track q d now t).2 a = delivered t a.
Proof.
  intros (HP & HH & HW & HS) Htx Hnp Hq.
  destruct (HH _ _ Htx) as (Hch & Hlt & _).
  assert (Hne : nextAddr t <> a) by lia.
  unfold resent, delivered. proj.
  rewrite !lookup_insert_ne by exact Hne. split_and!; auto.
  - destruct (decide (SeqNum tx = q)) as [->|E].
    + rewrite lookup_insert_eq. congruence.
    + rewrite lookup_insert_ne by congruence. exact Hnp.
  - rewrite (lookup_insert_ne (chans t)) by exact Hne. reflexivity.
Qed.

Lemma settled_Resolve t snap q d now a tx :
  trkInv t snap -> heap t !! a = Some tx -> pending t !! SeqNum tx <> Some a ->
  heap (Resolve q d now t) !! a = Some tx /\
  pending (Resolve q d now t) !! SeqNum tx <> Some a /\
  resent (Resolve q d now t) a = resent t a /\
  delivered (Resolve q d now t) a = delivered t a.
Proof.
  intros (HP & HH & HW & HS) Htx Hnp.
  unfold Resolve. destruct (pending t !! q) as [b|] eqn:Hp; [|auto].
  destruct (heap t !! b) as [txb|] eqn:Hb; [|auto].
  destruct (HP _ _ Hp) as (tx' & Htx' & Hseq).
  assert (tx' = txb) by congruence. subst tx'.
  assert (Hba : b <> a). { intros ->. assert (txb = tx) by congruence. subst. congruence. }
  destruct (HH _ _ Hb) as (Hchb & _).
  unfold resent, delivered. proj. rewrite Hchb.
  rewrite chanSend_other by exact Hba. split_and!; auto.
  destruct (decide (SeqNum tx = q)) as [->|E].
  - rewrite lookup_delete_eq. discriminate.
  - rewrite lookup_delete_ne by congruence. exact Hnp.
Qed.

Lemma settled_handle t b rest now a tx :
  trkInv t (b :: rest) -> heap t !! a = Some tx -> pending t !! SeqNum tx <> Some a ->
  heap (handleTimeout b now t) !! a = Some tx /\
  pending (handleTimeout b now t) !! SeqNum tx <> Some a /\
  resent (handleTimeout b now t) a = resent t a /\
  delivered (handleTimeout b now t) a = delivered t a.
Proof.
  intros (HP & HH & HW & HS) Htx Hnp.
  destruct (HS b) as (txb & Hb & Hst); [apply list_elem_of_here|].
  rewrite handleTimeout_eq. rewrite Hb.
  destruct Hst as [Hst|Hst]; rewrite Hst; [|auto].
  assert (Hba : b <> a). { intros ->. assert (txb = tx) by congruence. subst. congruence. }
  destruct (HH _ _ Hb) as (Hchb & _).
  destruct (RetryCount txb <? maxRetries t).
  - unfold delivered. proj.
    rewrite lookup_insert_ne by exact Hba. split_and!; auto.
    rewrite (resent_snoc_other _ b a (RequestData txb) (wire t)) by (auto; congruence).
    reflexivity.
  - unfold resent, delivered. proj. rewrite Hchb.
    rewrite chanSend_other by exact Hba. split_and!; auto.
    destruct (decide (SeqNum tx = SeqNum txb)) as [E|E].
    + rewrite E, lookup_delete_eq. discriminate.
    + rewrite lookup_delete_ne by congruence. exact Hnp.
Qed.

Lemma settled_CancelAll t snap a tx :
  trkInv t snap -> heap t !! a = Some tx -> pending t !! SeqNum tx <> Some a ->
  heap (CancelAll t) !! a = Some tx /\
  pending (CancelAll t) !! SeqNum tx <> Some a /\
  resent (CancelAll t) a = resent t a /\
  delivered (CancelAll t) a = delivered t a.
Proof.
  intros Hinv Htx Hnp.
  destruct (CancelAll_delivered t snap a tx Hinv Htx) as [_ Hout].
  split_and!; auto; cbn; rewrite lookup_empty; discriminate.
Qed.

(** The configuration, the sequence number and the request bytes of a
    registered transaction are the same after a call of
    [handleTimeout]. *)
Lemma handleTimeout_config b now t :
  maxRetries (handleTimeout b now t) = maxRetries t /\
  timeout (handleTimeout b now t) = timeout t.
Proof.
  rewrite handleTimeout_eq. destruct (heap t !! b) as [tx|]; [|auto].
  destruct (pending t !! SeqNum tx); [|auto].
  destruct (RetryCount tx <? maxRetries t); auto.
Qed.

Lemma handleTimeout_identity b now t a tx :
  heap t !! a = Some tx ->
  exists tx', heap (handleTimeout b now t) !! a = Some tx' /\
              SeqNum tx' = SeqNum tx /\ RequestData tx' = RequestData tx.
Proof.
  intros Htx. rewrite handleTimeout_eq.
  destruct (heap t !! b) as [txb|] eqn:Hb; [|eauto].
  destruct (pending t !! SeqNum txb); [|eauto].
  destruct (RetryCount txb <? maxRetries t); proj; [|eauto].
  destruct (decide (b = a)) as [->|Hne].
  - rewrite lookup_insert_eq. assert (txb = tx) by congruence. subst.
    eexists. split; [reflexivity|]. cbn. auto.
  - rewrite lookup_insert_ne by exact Hne. eauto.
Qed.

Lemma Resolve_identity q d now t a tx :
  heap t !! a = Some tx -> heap (Resolve q d now t) !! a = Some tx.
Proof.
  intros Htx. unfold Resolve. destruct (pending t !! q) as [b|]; [|auto].
  destruct (heap t !! b); auto.
Qed.

Lemma Resolve_config q d now t :
  maxRetries (Resolve q d now t) = maxRetries t /\
  timeout (Resolve q d now t) = timeout t.
Proof.
  unfold Resolve. destruct (pending t !! q) as [b|]; [|auto].
  destruct (heap t !! b); auto.
Qed.

(** What a response adds to a channel carries no error. *)
Lemma Resolve_delivered_in q d now t a r :
  r ∈ delivered (Resolve q d now t) a -> r ∈ delivered t a \/ Error r = None.
Proof.
  unfold Resolve. destruct (pending t !! q) as [b|]; [|auto].
  destruct (heap t !! b) as [txb|]; [|auto].
  unfold delivered. proj.
  destruct (decide (ResultCh txb = a)) as [<-|Hne].
  - rewrite chanSend_same. intros [H|H]%elem_of_app; [auto|].
    apply list_elem_of_singleton in H. subst r. auto.
  - rewrite chanSend_other by exact Hne. auto.
Qed.

(** *** The system: tracker, monitor snapshot and send in progress *)

Lemma caughtUp_fields s :
  pending (caughtUp s) = pending (trk s) /\ heap (caughtUp s) = heap (trk s) /\
  chans (caughtUp s) = chans (trk s) /\ nextAddr (caughtUp s) = nextAddr (trk s) /\
  timeout (caughtUp s) = timeout (trk s) /\ maxRetries (caughtUp s) = maxRetries (trk s).
Proof. unfold caughtUp. destruct (sending s); cbn; split_and!; reflexivity. Qed.

Lemma delivered_caughtUp s a : delivered (caughtUp s) a = delivered (trk s) a.
Proof. unfold caughtUp. destruct (sending s); reflexivity. Qed.

(** The retransmissions decided are those sent and the one in progress. *)
Lemma decided_eq s a :
  decided s a = (resent (trk s) a
                 + match sending s with
                   | Some (b, _) => if decide (b = a) then 1 else 0
                   | None => 0
                   end)%nat.
Proof.
  unfold decided, caughtUp, resent. destruct (sending s) as [[b d]|]; [|cbn; lia].
  cbn [sendRetransmission wire]. rewrite filter_app, length_app, filter_cons.
  cbn [fst]. destruct (decide (b = a)); reflexivity.
Qed.

(** Seen with the send in progress already made, a step of the system
    is a call of the tracker run without interruption, or nothing. *)
Lemma caughtUp_exec s e :
  match e with
  | EvTrack q d now => caughtUp (exec s e) = (Track q d now (caughtUp s)).2
  | EvResolve q d now => caughtUp (exec s e) = Resolve q d now (caughtUp s)
  | EvScan _ => caughtUp (exec s e) = caughtUp s
  | EvHandle now =>
      match sending s, snapshot s with
      | None, a :: rest => caughtUp (exec s e) = handleTimeout a now (caughtUp s)
      | _, _ => exec s e = s
      end
  | EvSend => caughtUp (exec s e) = caughtUp s
  | EvCancelAll => caughtUp (exec s e) = CancelAll (caughtUp s)
  end.
Proof.
  destruct e as [q d now|q d now|now|now| |]; unfold caughtUp; cbn [exec].
  - cbn [sending trk]. destruct (sending s); reflexivity.
  - cbn [sending trk]. destruct (sending s) as [o|]; [|reflexivity].
    unfold Resolve. cbn [sendRetransmission pending heap].
    destruct (pending (trk s) !! q) as [b|]; [|reflexivity].
    destruct (heap (trk s) !! b); reflexivity.
  - destruct (snapshot s) eqn:E1, (sending s) eqn:E2; cbn [sending trk];
      rewrite ?E2; reflexivity.
  - destruct (sending s) eqn:Hs; [reflexivity|].
    destruct (snapshot s) as [|a rest]; [reflexivity|].
    cbn [sending trk]. unfold handleTimeout.
    destruct (handleTimeoutLocked a now (trk s)) as [t' [o|]]; reflexivity.
  - destruct (sending s) eqn:Hs; cbn [sending trk]; rewrite ?Hs; reflexivity.
  - cbn [sending trk]. destruct (sending s); reflexivity.
Qed.

Lemma sysInv_start timeoutMs R : sysInv (start timeoutMs R).
Proof.
  split; [apply trkInv_start|]. intros a d r n H. discriminate.
Qed.

(** The locked part of [handleTimeout] decides a retransmission only
    for a transaction that is pending. *)
Lemma handleTimeoutLocked_decides a now t b d :
  (handleTimeoutLocked a now t).2 = Some (b, d) ->
  b = a /\ chans (handleTimeoutLocked a now t).1 = chans t /\
  exists tx, heap t !! a = Some tx /\ is_Some (pending t !! SeqNum tx).
Proof.
  unfold handleTimeoutLocked. destruct (heap t !! a) as [tx|] eqn:Htx; [|discriminate].
  destruct (pending t !! SeqNum tx) as [c|] eqn:Hp; [|discriminate].
  destruct (RetryCount tx <? maxRetries t); [|discriminate].
  cbn. intros H. injection H as <- _. split_and!; [reflexivity|reflexivity|].
  exists tx. eauto.
Qed.

Lemma sysInv_exec s e :
  sysInv s ->
  match e with EvTrack seqNum _ _ => seqFree s seqNum | _ => True end ->
  sysInv (exec s e).
Proof.
  intros Hall Hok. pose proof Hall as [Hinv Hsend].
  destruct (caughtUp_fields s) as (Fp & Fh & Fc & Fn & Ft & Fm).
  pose proof (caughtUp_exec s e) as Hstep.
  destruct e as [q d now|q d now|now|now| |].
  - split.
    + rewrite Hstep. cbn [exec snapshot]. destruct Hok as [Hfree Hsnap].
      apply trkInv_Track; [assumption|rewrite Fp; assumption|].
      intros a tx Ha Htx. rewrite Fh in Htx. eauto.
    + cbn [exec sending trk]. intros a d0 r n Hs Hin.
      unfold delivered in Hin. proj.
      destruct (decide (nextAddr (trk s) = a)) as [E|E].
      * rewrite E, lookup_insert_eq in Hin. cbn in Hin. apply elem_of_nil in Hin.
        contradiction.
      * rewrite lookup_insert_ne in Hin by exact E. exact (Hsend a d0 r n Hs Hin).
  - split.
    + rewrite Hstep. cbn [exec snapshot]. apply trkInv_Resolve. assumption.
    + cbn [exec sending trk]. intros a d0 r n Hs Hin.
      apply Resolve_delivered_in in Hin as [Hin|Hnone].
      * exact (Hsend a d0 r n Hs Hin).
      * rewrite Hnone. discriminate.
  - cbn [exec]. destruct (snapshot s) eqn:Esnap; [|exact Hall].
    destruct (sending s) eqn:Es; [exact Hall|].
    split.
    + unfold caughtUp in *. cbn [sending trk snapshot]. rewrite Es in Hinv.
      apply (trkInv_scan _ _ now Hinv).
    + intros a d r n H. discriminate.
  - cbn [exec] in *. destruct (sending s) eqn:Es; [exact Hall|].
    destruct (snapshot s) as [|a rest] eqn:Esnap; [exact Hall|].
    assert (Hcu : caughtUp s = trk s) by (unfold caughtUp; rewrite Es; reflexivity).
    split.
    + rewrite Hstep, Hcu. cbn [snapshot]. apply trkInv_handle.
      rewrite <- Hcu. exact Hinv.
    + cbn [sending trk]. intros b d r n Hs Hin.
      apply handleTimeoutLocked_decides in Hs as (-> & Hch & tx & Htx & [c Hp]).
      unfold delivered in Hin. rewrite Hch in Hin. fold (delivered (trk s) a) in Hin.
      rewrite Hcu in Hinv. destruct Hinv as (HP & HH & HW & HS).
      destruct (HS a) as (tx' & Htx' & Hst); [apply list_elem_of_here|].
      assert (tx' = tx) by congruence. subst tx'.
      destruct Hst as [Hst|Hst]; [|congruence].
      destruct (HH _ _ Htx) as (_ & _ & _ & _ & _ & Hd).
      destruct Hd as [[_ Hd]|[Hd _]]; [|contradiction].
      rewrite Hd in Hin. apply elem_of_nil in Hin. contradiction.
  - cbn [exec] in *. destruct (sending s) as [o|] eqn:Es; [|exact Hall].
    split.
    + rewrite Hstep. exact Hinv.
    + intros a d r n H. discriminate.
  - split.
    + rewrite Hstep. cbn [exec snapshot]. apply trkInv_CancelAll. assumption.
    + cbn [exec sending trk]. intros a d r n Hs Hin.
      assert (Hw : (a, d) ∈ wire (caughtUp s)).
      { unfold caughtUp. rewrite Hs. cbn. apply elem_of_app. right.
        apply list_elem_of_singleton. reflexivity. }
      pose proof Hinv as (HP & HH & HW & HS).
      destruct (HW _ _ Hw) as [tx Htx].
      destruct (CancelAll_delivered _ _ a tx Hinv Htx) as [Hpend Hout].
      assert (Hdc : delivered (CancelAll (caughtUp s)) a = delivered (CancelAll (trk s)) a).
      { unfold delivered, CancelAll. cbn [chans]. rewrite Fp, Fh, Fc. reflexivity. }
      rewrite Hdc, delivered_caughtUp in Hpend, Hout.
      destruct (decide (pending (caughtUp s) !! SeqNum tx = Some a)) as [Hp|Hp].
      * destruct (Hpend Hp) as (r0 & Hr0 & Hd). rewrite Hd in Hin.
        apply elem_of_app in Hin as [Hin|Hin]; [exact (Hsend a d r n Hs Hin)|].
        apply list_elem_of_singleton in Hin. subst r. rewrite Hr0. discriminate.
      * rewrite (Hout Hp) in Hin. exact (Hsend a d r n Hs Hin).
Qed.

Lemma sysInv_run evs : forall s, sysInv s -> freshRun s evs -> sysInv (run evs s).
Proof.
  induction evs as [|e evs IH]; intros s Hinv Hfresh; [exact Hinv|].
  destruct Hfresh as [Hok Hrest]. cbn [run foldl]. apply IH; [|exact Hrest].
  apply sysInv_exec; assumption.
Qed.

(** The configuration of the tracker never changes. *)
Lemma config_exec s e :
  maxRetries (trk (exec s e)) = maxRetries (trk s) /\
  timeout (trk (exec s e)) = timeout (trk s).
Proof.
  destruct e as [q d now|q d now|now|now| |]; cbn [exec]; try (split; reflexivity).
  - apply Resolve_config.
  - destruct (snapshot s), (sending s); split; reflexivity.
  - destruct (sending s); [split; reflexivity|].
    destruct (snapshot s) as [|a rest]; [split; reflexivity|]. cbn [trk].
    unfold handleTimeoutLocked. destruct (heap (trk s) !! a) as [tx|]; [|split; reflexivity].
    destruct (pending (trk s) !! SeqNum tx); [|split; reflexivity].
    destruct (RetryCount tx <? maxRetries (trk s)); split; reflexivity.
  - destruct (sending s); split; reflexivity.
Qed.

Lemma config_run evs : forall s,
  maxRetries (trk (run evs s)) = maxRetries (trk s) /\
  timeout (trk (run evs s)) = timeout (trk s).
Proof.
  induction evs as [|e evs IH]; intros s; [split; reflexivity|].
  cbn [run foldl]. destruct (IH (exec s e)) as [H1 H2].
  destruct (config_exec s e) as [G1 G2]. unfold run in *. split; congruence.
Qed.

Lemma run_app evs evs' s : run (evs ++ evs') s = run evs' (run evs s).
Proof. unfold run. apply foldl_app. Qed.

Lemma freshRun_app evs evs' : forall s,
  freshRun s (evs ++ evs') <-> freshRun s evs /\ freshRun (run evs s) evs'.
Proof.
  induction evs as [|e evs IH]; intros s; cbn [app freshRun run foldl].
  - tauto.
  - rewrite IH. unfold run. tauto.
Qed.

(** Once settled, a transaction is left alone: nothing more is sent on
    its channel and no further retransmission of it is decided. *)
Lemma settled_exec s e a :
  sysInv s ->
  match e with EvTrack seqNum _ _ => seqFree s seqNum | _ => True end ->
  settled s a ->
  settled (exec s e) a /\
  heap (trk (exec s e)) !! a = heap (trk s) !! a /\
  decided (exec s e) a = decided s a /\
  delivered (trk (exec s e)) a = delivered (trk s) a.
Proof.
  intros [Hinv Hsend] Hok (tx & Htx & Hnp).
  destruct (caughtUp_fields s) as (Fp & Fh & Fc & Fn & Ft & Fm).
  destruct (caughtUp_fields (exec s e)) as (Gp & Gh & Gc & Gn & Gt & Gm).
  pose proof (caughtUp_exec s e) as Hstep.
  assert (Hsame : exec s e = s \/ caughtUp (exec s e) = caughtUp s ->
                  settled (exec s e) a /\
                  heap (trk (exec s e)) !! a = heap (trk s) !! a /\
                  decided (exec s e) a = decided s a /\
                  delivered (trk (exec s e)) a = delivered (trk s) a).
  { intros [E|E].
    - rewrite E. split_and!; auto. exists tx. auto.
    - unfold settled, decided. rewrite <- Gp, <- Gh, <- !delivered_caughtUp, E, Fp, Fh.
      split_and!; auto. exists tx. auto. }
  assert (Hlift : forall t',
             caughtUp (exec s e) = t' ->
             heap t' !! a = Some tx /\ pending t' !! SeqNum tx <> Some a /\
             resent t' a = resent (caughtUp s) a /\
             delivered t' a = delivered (caughtUp s) a ->
             settled (exec s e) a /\
             heap (trk (exec s e)) !! a = heap (trk s) !! a /\
             decided (exec s e) a = decided s a /\
             delivered (trk (exec s e)) a = delivered (trk s) a).
  { intros t' E (H1 & H2 & H3 & H4).
    unfold settled, decided. rewrite <- Gp, <- Gh, <- !delivered_caughtUp, E.
    split_and!; [exists tx; auto|congruence|assumption|assumption]. }
  rewrite <- Fh in Htx. rewrite <- Fp in Hnp.
  destruct e as [q d now|q d now|now|now| |].
  - apply (Hlift _ Hstep). destruct Hok as [Hfree _].
    apply (settled_Track _ (snapshot s)); [assumption..|rewrite Fp; assumption].
  - apply (Hlift _ Hstep). apply (settled_Resolve _ (snapshot s)); assumption.
  - apply Hsame. right. exact Hstep.
  - destruct (sending s) eqn:Es; [apply Hsame; left; exact Hstep|].
    destruct (snapshot s) as [|b rest] eqn:Esnap; [apply Hsame; left; exact Hstep|].
    apply (Hlift _ Hstep). apply (settled_handle _ b rest); assumption.
  - apply Hsame. right. exact Hstep.
  - apply (Hlift _ Hstep). apply (settled_CancelAll _ (snapshot s)); assumption.
Qed.

Lemma settled_run evs : forall s a,
  sysInv s -> freshRun s evs -> settled s a ->
  settled (run evs s) a /\
  heap (trk (run evs s)) !! a = heap (trk s) !! a /\
  decided (run evs s) a = decided s a /\
  delivered (trk (run evs s)) a = delivered (trk s) a.
Proof.
  induction evs as [|e evs IH]; intros s a Hinv Hfresh Hset; [cbn; auto|].
  destruct Hfresh as [Hok Hrest]. cbn [run foldl].
  destruct (settled_exec s e a Hinv Hok Hset) as (H1 & H2 & H3 & H4).
  destruct (IH (exec s e) a (sysInv_exec s e Hinv Hok) Hrest H1) as (G1 & G2 & G3 & G4).
  unfold run in *. split_and!; auto; congruence.
Qed.

(** The sequence number and the request bytes of a registered
    transaction never change. *)
Lemma identity_exec s e a tx :
  sysInv s -> heap (trk s) !! a = Some tx ->
  exists tx', heap (trk (exec s e)) !! a = Some tx' /\
              SeqNum tx' = SeqNum tx /\ RequestData tx' = RequestData tx.
Proof.
  intros [Hinv Hsend] Htx.
  destruct (caughtUp_fields s) as (Fp & Fh & Fc & Fn & Ft & Fm).
  destruct (caughtUp_fields (exec s e)) as (Gp & Gh & Gc & Gn & Gt & Gm).
  pose proof (caughtUp_exec s e) as Hstep.
  rewrite <- Gh. rewrite <- Fh in Htx.
  destruct e as [q d now|q d now|now|now| |].
  - rewrite Hstep. proj. destruct Hinv as (_ & HH & _).
    destruct (HH _ _ Htx) as (_ & Hlt & _).
    rewrite lookup_insert_ne by lia. eauto.
  - rewrite Hstep. exists tx. split; [apply Resolve_identity; assumption|auto].
  - rewrite Hstep. eauto.
  - destruct (sending s) eqn:Es; [rewrite Hstep; eauto|].
    destruct (snapshot s) as [|b rest] eqn:Esnap; [rewrite Hstep; eauto|].
    rewrite Hstep. apply handleTimeout_identity. assumption.
  - rewrite Hstep. eauto.
  - rewrite Hstep. cbn. eauto.
Qed.

Lemma identity_run evs : forall s a tx,
  sysInv s -> freshRun s evs -> heap (trk s) !! a = Some tx ->
  exists tx', heap (trk (run evs s)) !! a = Some tx' /\
              SeqNum tx' = SeqNum tx /\ RequestData tx' = RequestData tx.
Proof.
  induction evs as [|e evs IH]; intros s a tx Hinv Hfresh Htx; [cbn; eauto|].
  destruct Hfresh as [Hok Hrest]. cbn [run foldl].
  destruct (identity_exec s e a tx Hinv Htx) as (tx1 & H1 & H2 & H3).
  destruct (IH (exec s e) a tx1 (sysInv_exec s e Hinv Hok) Hrest H1) as (tx2 & G1 & G2 & G3).
  exists tx2. unfold run in *. split_and!; auto; congruence.
Qed.


(** What the invariant says of a registered transaction, read on the
    tracker as it is. *)
Lemma sysInv_tx s a tx :
  sysInv s -> heap (trk s) !! a = Some tx ->
  ResultCh tx = a /\
  0 <= RetryCount tx <= Z.max 0 (maxRetries (trk s)) /\
  Z.of_nat (decided s a) = RetryCount tx /\
  (forall d, (a, d) ∈ wire (trk s) -> d = RequestData tx) /\
  (forall d, sending s = Some (a, d) -> d = RequestData tx) /\
  ((pending (trk s) !! SeqNum tx = Some a /\ delivered (trk s) a = []) \/
   (pending (trk s) !! SeqNum tx <> Some a /\
    exists r, delivered (trk s) a = [r] /\
              (forall n, Error r = Some (ErrTimeout n) ->
                         RetryCount tx = Z.max 0 (maxRetries (trk s)) /\
                         decided s a = resent (trk s) a))).
Proof.
  intros [Hinv Hsend] Htx.
  destruct (caughtUp_fields s) as (Fp & Fh & Fc & Fn & Ft & Fm).
  destruct Hinv as (HP & HH & HW & HS).
  rewrite <- Fh in Htx.
  destruct (HH _ _ Htx) as (H1 & H2 & H3 & H4 & H5 & H6).
  rewrite Fm, Fp, delivered_caughtUp in *.
  split_and!; try assumption; try lia.
  - intros d Hin. apply H5. unfold caughtUp. destruct (sending s); [|assumption].
    cbn. apply elem_of_app. left. assumption.
  - intros d Hs. apply H5. unfold caughtUp. rewrite Hs. cbn.
    apply elem_of_app. right. apply list_elem_of_singleton. reflexivity.
  - destruct H6 as [H6|(Hnp & r & Hr & Hto)]; [left; exact H6|].
    right. split; [exact Hnp|]. exists r. split; [exact Hr|].
    intros n En. split; [exact (Hto n En)|].
    rewrite decided_eq. destruct (sending s) as [[b d]|] eqn:Es; [|lia].
    destruct (decide (b = a)) as [->|]; [|lia].
    exfalso. apply (Hsend a d r n eq_refl); [|exact En].
    rewrite Hr. apply list_elem_of_here.
Qed.

Lemma sysInv_pending s q a :
  sysInv s -> pending (trk s) !! q = Some a ->
  exists tx, heap (trk s) !! a = Some tx /\ SeqNum tx = q.
Proof.
  intros [(HP & _) _] Hq.
  destruct (caughtUp_fields s) as (Fp & Fh & _).
  rewrite <- Fp in Hq. rewrite <- Fh. exact (HP _ _ Hq).
Qed.

Lemma sysInv_CancelAll_delivered s a tx :
  sysInv s -> heap (trk s) !! a = Some tx ->
  (pending (trk s) !! SeqNum tx = Some a ->
   exists r, Error r = Some ErrCancelled /\
             delivered (CancelAll (trk s)) a = delivered (trk s) a ++ [r]) /\
  (pending (trk s) !! SeqNum tx <> Some a ->
   delivered (CancelAll (trk s)) a = delivered (trk s) a).
Proof.
  intros [Hinv _] Htx.
  destruct (caughtUp_fields s) as (Fp & Fh & Fc & _).
  rewrite <- Fh in Htx.
  pose proof (CancelAll_delivered _ _ a tx Hinv Htx) as H.
  assert (Hdc : delivered (CancelAll (caughtUp s)) a = delivered (CancelAll (trk s)) a).
  { unfold delivered, CancelAll. cbn [chans]. rewrite Fp, Fh, Fc. reflexivity. }
  rewrite Hdc, delivered_caughtUp, Fp in H. exact H.
Qed.

(** The wire only grows: what has been retransmitted stays so. *)
Lemma handleTimeoutLocked_wire a now t :
  wire (handleTimeoutLocked a now t).1 = wire t.
Proof.
  unfold handleTimeoutLocked.
  destruct (heap t !! a) as [tx|]; [|reflexivity].
  destruct (pending t !! SeqNum tx); [|reflexivity].
  destruct (RetryCount tx <? maxRetries t); reflexivity.
Qed.

Lemma resent_exec_mono s e a :
  (resent (trk s) a <= resent (trk (exec s e)) a)%nat.
Proof.
  destruct e as [q d now|q d now|now|now| |]; cbn [exec].
  - reflexivity.
  - unfold Resolve. destruct (pending (trk s) !! q) as [b|]; [|reflexivity].
    destruct (heap (trk s) !! b); reflexivity.
  - destruct (snapshot s); [destruct (sending s)|]; reflexivity.
  - destruct (sending s); [reflexivity|]. destruct (snapshot s); [reflexivity|].
    cbn [trk]. unfold resent. rewrite handleTimeoutLocked_wire. reflexivity.
  - destruct (sending s) as [out|]; [|reflexivity].
    cbn [trk]. unfold resent, sendRetransmission. cbn [wire].
    rewrite filter_app, length_app. lia.
  - reflexivity.
Qed.

Lemma resent_run_mono evs s a :
  (resent (trk s) a <= resent (trk (run evs s)) a)%nat.
Proof.
  revert s. induction evs as [|e evs IH]; intros s; [reflexivity|].
  cbn. etransitivity; [apply (resent_exec_mono s e a)|]. apply IH.
Qed.

End TrackerFacts.
(** * Theorems: session manager *)
Section ManagerFacts.
Import Pfcp Session.
Context {codec : Codec}.

Lemma registerSession_spec m session :
  exists stored,
    (registerSession m session).1 = nextSession m /\
    sessions (registerSession m session).2 = <[ nextSession m := stored ]> (sessions m) /\
    OriginalCPSEID stored = OriginalCPSEID session /\
    LocalSEID stored = LocalSEID session /\
    RemoteSEID stored = RemoteSEID session /\
    UEIP stored = UEIP session /\
    State stored = State session /\
    OriginalRemoteSEID stored
      = default (OriginalRemoteSEID session)
                (originalSEIDMappings m !! OriginalCPSEID session) /\
    byOriginalCPSEID (registerSession m session).2
      = <[ OriginalCPSEID session := nextSession m ]> (byOriginalCPSEID m) /\
    byLocalSEID (registerSession m session).2
      = <[ LocalSEID session := nextSession m ]> (byLocalSEID m) /\
    byOriginalRemoteSEID (registerSession m session).2
      = match originalSEIDMappings m !! OriginalCPSEID session with
        | Some r => <[ r := nextSession m ]> (byOriginalRemoteSEID m)
        | None => byOriginalRemoteSEID m
        end /\
    seidAlloc (registerSession m session).2 = seidAlloc m /\
    ipPool (registerSession m session).2 = ipPool m /\
    seqCounter (registerSession m session).2 = seqCounter m /\
    modifier (registerSession m session).2 = modifier m /\
    sent (registerSession m session).2 = sent m /\
    tracked (registerSession m session).2 = tracked m /\
    stats (registerSession m session).2 = stats m /\
    nextSession (registerSession m session).2 = S (nextSession m) /\
    originalSEIDMappings (registerSession m session).2 = originalSEIDMappings m.
Proof.
  unfold registerSession.
  destruct (originalSEIDMappings m !! OriginalCPSEID session) as [r|];
    eexists; cbn; split_and!; reflexivity.
Qed.

(** [handleSessionEstablishment] once both allocations have succeeded. *)
Lemma handleSessionEstablishment_allocated w m req localSEID alloc g ueIP pool :
  SEIDAlloc.Allocate (rng m) (seidAlloc m) = (Ok localSEID, alloc, g) ->
  IPPool.Allocate (ipPool m) = Some (Ok ueIP, pool) ->
  exists m1 p,
    (p, m1) = registerSession (withAllocators m alloc g pool)
                {| OriginalCPSEID := match ExtractCPSEID req with Ok v => v | Err _ => 0 end;
                   OriginalRemoteSEID := 0; LocalSEID := localSEID; RemoteSEID := 0;
                   UEIP := Some ueIP; State := "establishing"; CreatedAt := wNow w |} /\
    handleSessionEstablishment w m req =
      match Encode (MsgSessionEstablishmentRequest
                      (ModifySessionEstablishment (modifier m) req localSEID
                         (ipBytes ueIP) (Next (seqCounter m)))) with
      | Err _ => Some ((takeSeq m1).2, Some (ErrEncode "Session Establishment"))
      | Ok data =>
          match exchange w (takeSeq m1).2 "SessionEstablishmentRequest"
                  (Next (seqCounter m)) data with
          | (m2, Err e) => Some (m2, Some e)
          | (m2, Ok result) =>
              match Tracker.Error result with
              | Some e =>
                  Some (withSession
                          (withStats m2 [RecordTimeout "SessionEstablishmentRequest";
                                         RecordSessionFailed])
                          p (fun s => setState s "failed"),
                        Some (ErrWait "SessionEstablishmentRequest" e))
              | None => Some (establishmentResponse m2 p result)
              end
          end
      end.
Proof.
  intros HA HP. unfold handleSessionEstablishment. rewrite HA, HP.
  destruct (registerSession _ _) as [p m1] eqn:Hreg.
  exists m1, p. split; [reflexivity|].
  destruct (registerSession_spec (withAllocators m alloc g pool)
              {| OriginalCPSEID := match ExtractCPSEID req with Ok v => v | Err _ => 0 end;
                 OriginalRemoteSEID := 0; LocalSEID := localSEID; RemoteSEID := 0;
                 UEIP := Some ueIP; State := "establishing"; CreatedAt := wNow w |})
    as (stored & H).
  rewrite Hreg in H. cbn [fst snd] in H.
  destruct H as (_ & _ & _ & _ & _ & _ & _ & _ & _ & _ & _ & _ & _ & Hseq & Hmod & _).
  cbn [withAllocators seqCounter modifier] in Hseq, Hmod.
  unfold takeSeq. cbn [fst snd modifier]. rewrite Hseq, Hmod. reflexivity.
Qed.

End ManagerFacts.

(** * Further properties: SEID allocator *)
Section SEIDAllocMore.
Import SEIDAlloc SEIDTrace.

Lemma allocRandom_first attempts : forall g s (i : nat),
  (i < attempts)%nat ->
  (forall j : nat, (j < i)%nat -> rejectedDraw s (upcoming g j)) ->
  upcoming g i <> 0 -> upcoming g i ∉ usedSEIDs s ->
  allocRandom attempts g s =
    (Ok (upcoming g i),
     {| strategy := strategy s; nextSEID := nextSEID s;
        usedSEIDs := {[ upcoming g i ]} ∪ usedSEIDs s |},
     skipDraws g (S i)).
Proof.
  induction attempts as [|n IH]; intros g s i Hi Hrej Hnz Hfree; [lia|].
  cbn [allocRandom Uint64].
  destruct i as [|i].
  - unfold upcoming in *. rewrite Nat.add_0_r in *.
    destruct (Z.eqb_spec (stream g (drawn g)) 0) as [?|_]; [contradiction|].
    rewrite bool_decide_eq_false_2 by assumption. cbn [orb].
    unfold skipDraws. do 2 f_equal. lia.
  - assert (H0 : rejectedDraw s (upcoming g 0)) by (apply Hrej; lia).
    unfold upcoming in H0. rewrite Nat.add_0_r in H0.
    assert (Hb : (stream g (drawn g) =? 0) || bool_decide (stream g (drawn g) ∈ usedSEIDs s)
                 = true).
    { destruct H0 as [->|H0]; [reflexivity|].
      rewrite (bool_decide_eq_true_2 _ H0). apply orb_true_r. }
    rewrite Hb.
    set (g1 := {| stream := stream g; drawn := S (drawn g) |}).
    assert (Hup : forall j, upcoming g1 j = upcoming g (S j)).
    { intros j. unfold upcoming, g1. cbn. f_equal. lia. }
    rewrite (IH g1 s i); try lia.
    + rewrite Hup. unfold skipDraws, g1. cbn. do 2 f_equal. lia.
    + intros j Hj. rewrite Hup. apply Hrej. lia.
    + rewrite Hup. assumption.
    + rewrite Hup. assumption.
Qed.

Lemma allocRandom_none attempts : forall g s,
  (forall j : nat, (j < attempts)%nat -> rejectedDraw s (upcoming g j)) ->
  allocRandom attempts g s = (Err ErrRandomAttempts, s, skipDraws g attempts).
Proof.
  induction attempts as [|n IH]; intros g s Hrej.
  - cbn. unfold skipDraws. destruct g. cbn. do 2 f_equal. lia.
  - cbn [allocRandom Uint64].
    assert (H0 : rejectedDraw s (upcoming g 0)) by (apply Hrej; lia).
    unfold upcoming in H0. rewrite Nat.add_0_r in H0.
    assert (Hb : (stream g (drawn g) =? 0) || bool_decide (stream g (drawn g) ∈ usedSEIDs s)
                 = true).
    { destruct H0 as [->|H0]; [reflexivity|].
      rewrite (bool_decide_eq_true_2 _ H0). apply orb_true_r. }
    rewrite Hb.
    set (g1 := {| stream := stream g; drawn := S (drawn g) |}).
    rewrite (IH g1 s).
    + unfold skipDraws, g1. cbn. do 2 f_equal. lia.
    + intros j Hj. replace (upcoming g1 j) with (upcoming g (S j)).
      * apply Hrej. lia.
      * unfold upcoming, g1. cbn. f_equal. lia.
Qed.

Lemma Allocate_random g s :
  strategy s = "random" -> Allocate g s = allocRandom randomBound g s.
Proof. intros H. unfold Allocate. rewrite H. reflexivity. Qed.

Lemma lt_randomBound (i : nat) : Z.of_nat i < 10000 <-> (i < randomBound)%nat.
Proof.
  unfold randomBound. rewrite Nat2Z.inj_lt, Z2Nat.id by discriminate. reflexivity.
Qed.

Lemma lt_sequentialBound (i : nat) : Z.of_nat i < 1000000 <-> (i < sequentialBound)%nat.
Proof.
  unfold sequentialBound. rewrite Nat2Z.inj_lt, Z2Nat.id by discriminate. reflexivity.
Qed.

(** X1. Random mode returns the first of the next 10000 draws that is
    neither 0 nor held, marks it held, and has consumed the draws up to
    it and no more. *)
Theorem seid_random_takes_first_acceptable (g : Rng) (s : SEIDAllocator) (i : nat) :
  strategy s = "random" -> Z.of_nat i < 10000 ->
  (forall j : nat, (j < i)%nat -> rejectedDraw s (upcoming g j)) ->
  upcoming g i <> 0 -> upcoming g i ∉ usedSEIDs s ->
  Allocate g s =
    (Ok (upcoming g i),
     {| strategy := strategy s; nextSEID := nextSEID s;
        usedSEIDs := {[ upcoming g i ]} ∪ usedSEIDs s |},
     skipDraws g (S i)).
Proof.
  intros Hs Hi Hrej Hnz Hfree. rewrite Allocate_random by assumption.
  apply allocRandom_first; try assumption. apply lt_randomBound. assumption.
Qed.

Lemma seid_random_takes_first_acceptable_witness :
  Allocate (listRng [0; 5; 5; 8]) (randomHolding [5]) =
    (Ok 8,
     {| strategy := "random"; nextSEID := 1;
        usedSEIDs := {[ 8 ]} ∪ usedSEIDs (randomHolding [5]) |},
     skipDraws (listRng [0; 5; 5; 8]) 4).
Proof.
  apply (seid_random_takes_first_acceptable (listRng [0; 5; 5; 8]) (randomHolding [5]) 3).
  - reflexivity.
  - lia.
  - intros j Hj. unfold rejectedDraw.
    destruct j as [|[|[|j]]]; [left; reflexivity | right | right | lia];
      compute_done.
  - compute_done.
  - compute_done.
Defined.

(** X2. Random mode gives up after 10000 draws: when each of them is 0
    or held, the call fails, nothing is marked held, and exactly 10000
    draws were consumed. *)
Theorem seid_random_gives_up (g : Rng) (s : SEIDAllocator) :
  strategy s = "random" ->
  (forall j : nat, Z.of_nat j < 10000 -> rejectedDraw s (upcoming g j)) ->
  Allocate g s = (Err ErrRandomAttempts, s, skipDraws g randomBound).
Proof.
  intros Hs Hrej. rewrite Allocate_random by assumption.
  apply allocRandom_none. intros j Hj. apply Hrej, lt_randomBound, Hj.
Qed.

Lemma seid_random_gives_up_witness :
  Allocate (constRng 0) (randomHolding [5]) =
    (Err ErrRandomAttempts, randomHolding [5], skipDraws (constRng 0) randomBound).
Proof.
  apply seid_random_gives_up; [reflexivity|].
  intros j _. left. reflexivity.
Defined.


Lemma allocSequential_skip (k : nat) : forall iters s,
  (k < iters)%nat -> 1 <= nextSEID s -> nextSEID s + Z.of_nat k < 2 ^ 64 ->
  (forall j, 0 <= j < Z.of_nat k -> nextSEID s + j ∈ usedSEIDs s) ->
  nextSEID s + Z.of_nat k ∉ usedSEIDs s ->
  allocSequential iters s =
    (Ok (nextSEID s + Z.of_nat k),
     {| strategy := strategy s; nextSEID := incr64 (nextSEID s + Z.of_nat k);
        usedSEIDs := {[ nextSEID s + Z.of_nat k ]} ∪ usedSEIDs s |}).
Proof.
  induction k as [|k IH]; intros iters s Hk Hc Hmax Hheld Hfree;
    (destruct iters as [|n]; [lia|]); rewrite allocSequential_S; cbv zeta;
    cbn [usedSEIDs strategy nextSEID];
    (destruct (Z.eqb_spec (nextSEID s) 0) as [?|_]; [lia|]).
  - change (Z.of_nat 0) with 0 in *. rewrite Z.add_0_r in *.
    destruct (decide (nextSEID s ∈ usedSEIDs s)) as [?|_]; [contradiction|].
    reflexivity.
  - destruct (decide (nextSEID s ∈ usedSEIDs s)) as [_|Hn].
    2:{ exfalso. apply Hn. specialize (Hheld 0). rewrite Z.add_0_r in Hheld.
        apply Hheld. lia. }
    assert (Hi : incr64 (nextSEID s) = nextSEID s + 1)
      by (unfold incr64; apply Z.mod_small; lia).
    rewrite Hi.
    rewrite (IH n); cbn [usedSEIDs strategy nextSEID]; try lia.
    + replace (nextSEID s + 1 + Z.of_nat k) with (nextSEID s + Z.of_nat (S k)) by lia.
      reflexivity.
    + intros j Hj. replace (nextSEID s + 1 + j) with (nextSEID s + (1 + j)) by lia.
      apply Hheld. lia.
    + replace (nextSEID s + 1 + Z.of_nat k) with (nextSEID s + Z.of_nat (S k)) by lia.
      assumption.
Qed.

(** X3. Sequential mode steps over held values: when the [k] values
    from the counter on are held and the next one is free (fewer than
    1000000 of them, no 64-bit wrap), the call returns that free value
    and leaves the counter just past it. *)
Theorem seid_sequential_skips_held (g : Rng) (s : SEIDAllocator) (k : nat) :
  strategy s = "sequential" -> 1 <= nextSEID s ->
  Z.of_nat k < 1000000 -> nextSEID s + Z.of_nat k < 2 ^ 64 ->
  (forall j, 0 <= j < Z.of_nat k -> nextSEID s + j ∈ usedSEIDs s) ->
  nextSEID s + Z.of_nat k ∉ usedSEIDs s ->
  Allocate g s =
    (Ok (nextSEID s + Z.of_nat k),
     {| strategy := strategy s; nextSEID := incr64 (nextSEID s + Z.of_nat k);
        usedSEIDs := {[ nextSEID s + Z.of_nat k ]} ∪ usedSEIDs s |}, g).
Proof.
  intros Hs Hc Hk Hmax Hheld Hfree. unfold Allocate. rewrite Hs.
  change (String.eqb "sequential" "sequential") with true. cbv iota.
  rewrite (allocSequential_skip k); try assumption.
  - rewrite Hs. reflexivity.
  - apply lt_sequentialBound. assumption.
Qed.

Lemma seid_sequential_skips_held_witness :
  Allocate (constRng 0) (sequentialAt 5 [5; 6; 9]) =
    (Ok 7,
     {| strategy := "sequential"; nextSEID := incr64 7;
        usedSEIDs := {[ 7 ]} ∪ usedSEIDs (sequentialAt 5 [5; 6; 9]) |}, constRng 0).
Proof.
  apply (seid_sequential_skips_held (constRng 0) (sequentialAt 5 [5; 6; 9]) 2).
  - reflexivity.
  - cbn. lia.
  - lia.
  - cbn. lia.
  - intros j Hj. assert (j = 0 \/ j = 1) as [-> | ->] by lia; compute_done.
  - compute_done.
Defined.

Lemma allocSequential_failure iters : forall s e s',
  allocSequential iters s = (Err e, s') ->
  usedSEIDs s' = usedSEIDs s /\ strategy s' = strategy s.
Proof.
  induction iters as [|n IH]; intros s e s' H.
  - cbn in H. injection H as _ <-. auto.
  - rewrite allocSequential_S in H. cbv zeta in H. cbn [usedSEIDs] in H.
    destruct (decide _) as [_|_]; [|discriminate].
    apply IH in H. cbn in H. exact H.
Qed.

Lemma allocRandom_failure attempts : forall g s e s' g',
  allocRandom attempts g s = (Err e, s', g') -> s' = s.
Proof.
  induction attempts as [|n IH]; intros g s e s' g' H.
  - cbn in H. injection H as _ <- _. reflexivity.
  - cbn [allocRandom Uint64] in H.
    destruct (_ || _); [|discriminate]. eapply IH, H.
Qed.

Lemma Allocate_failure g s e s' g' :
  Allocate g s = (Err e, s', g') -> usedSEIDs s' = usedSEIDs s.
Proof.
  unfold Allocate. intros H.
  destruct (String.eqb (strategy s) "sequential").
  - destruct (allocSequential sequentialBound s) as [r s1] eqn:Hseq.
    injection H as -> -> _. apply allocSequential_failure in Hseq. tauto.
  - destruct (String.eqb (strategy s) "random").
    + apply allocRandom_failure in H. subst. reflexivity.
    + injection H as _ <- _. reflexivity.
Qed.

(** X4. Bookkeeping of the held set: a call of [Allocate] raises
    [AllocatedCount] by one when it succeeds and leaves it alone when
    it fails, whatever the mode; [Release] lowers it by one when the
    value was held and does nothing otherwise. *)
Theorem seid_allocated_count_steps (g : Rng) (s : SEIDAllocator) (v : Z) :
  AllocatedCount (Allocate g s).1.2
    = AllocatedCount s + match (Allocate g s).1.1 with Ok _ => 1 | Err _ => 0 end
  /\ AllocatedCount (Release s v)
      = AllocatedCount s - (if bool_decide (v ∈ usedSEIDs s) then 1 else 0)
  /\ (v ∉ usedSEIDs s -> Release s v = s).
Proof.
  split_and!.
  - destruct (Allocate g s) as [[r s'] g'] eqn:HA. cbn [fst snd].
    unfold AllocatedCount. destruct r as [u|e].
    + apply Allocate_success in HA as (_ & Hfree & Hused & _).
      rewrite Hused, size_union, size_singleton by set_solver. lia.
    + apply Allocate_failure in HA. rewrite HA. lia.
  - unfold AllocatedCount, Release. cbn [usedSEIDs].
    destruct (bool_decide_reflect (v ∈ usedSEIDs s)) as [Hin|Hout].
    + assert (Hsz : size (usedSEIDs s) = (size (usedSEIDs s ∖ {[ v ]}) + 1)%nat).
      { rewrite (union_difference_L {[ v ]} (usedSEIDs s)) at 1 by set_solver.
        rewrite size_union, size_singleton by set_solver. lia. }
      lia.
    + replace (usedSEIDs s ∖ {[ v ]}) with (usedSEIDs s) by set_solver. lia.
  - intros Hout. unfold Release. destruct s as [st nx us]. cbn in *.
    f_equal. set_solver.
Qed.

Lemma seid_AllocateN_distinct n : forall g s rs s' g',
  AllocateN n g s = (rs, s', g') ->
  NoDup (oks rs) /\ usedSEIDs s ⊆ usedSEIDs s' /\
  forall v, v ∈ oks rs -> v <> 0 /\ (v ∉ usedSEIDs s) /\ v ∈ usedSEIDs s'.
Proof.
  induction n as [|n IH]; intros g s rs s' g' H.
  - cbn in H. injection H as <- <- _. cbn. split_and!; [constructor|set_solver|].
    intros v Hv. inversion Hv.
  - cbn [AllocateN] in H.
    destruct (Allocate g s) as [[r s1] g1] eqn:HA.
    destruct (AllocateN n g1 s1) as [[rs1 s2] g2] eqn:HN.
    injection H as <- <- _.
    apply IH in HN as (Hnd & Hsub & Hall).
    destruct r as [u|e].
    + apply Allocate_success in HA as (Hnz & Hfree & Hused & _).
      cbn [oks omap]. split_and!.
      * constructor; [|exact Hnd]. intros Hu. apply Hall in Hu as (_ & Hu & _).
        apply Hu. rewrite Hused. set_solver.
      * set_solver.
      * intros v [->|Hv]%elem_of_cons.
        -- split_and!; [assumption|assumption|]. apply Hsub. rewrite Hused. set_solver.
        -- apply Hall in Hv as (? & Hv & ?). split_and!; [assumption| |assumption].
           intros Hin. apply Hv. rewrite Hused. set_solver.
    + apply Allocate_failure in HA. cbn [oks omap].
      rewrite HA in *. split_and!; assumption.
Qed.

(** X5. Uniqueness of the identifiers handed out: over any number of
    successive calls with no release in between, in either mode and
    whatever the generator yields, the values returned are pairwise
    distinct, none is 0, none was held before the first call, and all
    are held afterwards. *)
Theorem seid_allocations_distinct (n : nat) (g : Rng) (s : SEIDAllocator) :
  NoDup (oks (AllocateN n g s).1.1) /\
  forall v, v ∈ oks (AllocateN n g s).1.1 ->
            v <> 0 /\ (v ∉ usedSEIDs s) /\ v ∈ usedSEIDs (AllocateN n g s).1.2.
Proof.
  destruct (AllocateN n g s) as [[rs s'] g'] eqn:H. cbn [fst snd].
  apply seid_AllocateN_distinct in H. tauto.
Qed.

End SEIDAllocMore.

(** * Further properties: UE IP pool *)
Section IPPoolMore.
Import IPPool PoolTrace.

Lemma valueLE_bound bs : Forall isByte bs -> 0 <= valueLE bs < 256 ^ Z.of_nat (length bs).
Proof.
  induction 1 as [|b rest Hb Hrest IH]; cbn [valueLE length].
  - change (256 ^ Z.of_nat 0) with 1. lia.
  - rewrite Nat2Z.inj_succ, Z.pow_succ_r by lia. unfold isByte in Hb. nia.
Qed.

Lemma incrementLE_spec bs :
  Forall isByte bs ->
  valueLE (incrementLE bs) = (valueLE bs + 1) mod 256 ^ Z.of_nat (length bs)
  /\ length (incrementLE bs) = length bs /\ Forall isByte (incrementLE bs).
Proof.
  induction 1 as [|b rest Hb Hrest IH].
  - cbn. split_and!; [reflexivity|reflexivity|constructor].
  - destruct IH as (IHv & IHl & IHf).
    pose proof (valueLE_bound rest Hrest) as HV.
    cbn [incrementLE]. unfold isByte in Hb.
    destruct (Z.ltb_spec 0 ((b + 1) mod 256)) as [Hpos|Hzero].
    + assert (Hlt : b < 255).
      { destruct (Z.eq_dec b 255) as [->|]; [|lia].
        change ((255 + 1) mod 256) with 0 in Hpos. lia. }
      assert (Hb1 : (b + 1) mod 256 = b + 1) by (apply Z.mod_small; lia).
      rewrite Hb1. cbn [valueLE length].
      rewrite Nat2Z.inj_succ, Z.pow_succ_r by lia.
      split_and!; [|reflexivity|constructor; [unfold isByte; lia|assumption]].
      rewrite Z.mod_small by nia. lia.
    + assert (b = 255) as ->.
      { destruct (Z.eq_dec b 255); [assumption|].
        rewrite Z.mod_small in Hzero by lia. lia. }
      change ((255 + 1) mod 256) with 0. cbn [valueLE length].
      rewrite Nat2Z.inj_succ, Z.pow_succ_r by lia.
      split_and!; [|congruence|constructor; [unfold isByte; lia|assumption]].
      rewrite IHv.
      replace (255 + 256 * valueLE rest + 1) with (256 * (valueLE rest + 1)) by lia.
      rewrite Z.mul_mod_distr_l by lia. lia.
Qed.

(** X6. [incrementIP] on the byte slice, as the source writes it (add
    one to the last byte, carry upwards while a byte overflows to 0),
    is the successor of the number the bytes spell, modulo the width;
    on four bytes it is the successor modulo 2^32 that the pool is
    modelled with. *)
Theorem incrementIP_on_bytes (ip : list Z) :
  Forall isByte ip ->
  ipOfBytes (incrementIPBytes ip) = (ipOfBytes ip + 1) mod 256 ^ Z.of_nat (length ip)
  /\ length (incrementIPBytes ip) = length ip
  /\ Forall isByte (incrementIPBytes ip)
  /\ (length ip = 4%nat -> ipOfBytes (incrementIPBytes ip) = incrementIP (ipOfBytes ip)).
Proof.
  intros Hip.
  assert (Hrev : Forall isByte (rev ip)) by (apply Forall_rev; assumption).
  destruct (incrementLE_spec (rev ip) Hrev) as (Hv & Hl & Hf).
  rewrite length_rev in Hv, Hl.
  assert (Hval : ipOfBytes (incrementIPBytes ip)
                 = (ipOfBytes ip + 1) mod 256 ^ Z.of_nat (length ip)).
  { unfold ipOfBytes, incrementIPBytes. rewrite rev_involutive. exact Hv. }
  split_and!.
  - exact Hval.
  - unfold incrementIPBytes. rewrite length_rev. exact Hl.
  - unfold incrementIPBytes. apply Forall_rev. exact Hf.
  - intros H4. rewrite Hval, H4. reflexivity.
Qed.

Lemma incrementIP_on_bytes_witness :
  ipOfBytes (incrementIPBytes [10; 60; 255; 255])
    = (ipOfBytes [10; 60; 255; 255] + 1) mod 256 ^ Z.of_nat (length [10; 60; 255; 255])
  /\ length (incrementIPBytes [10; 60; 255; 255]) = length [10; 60; 255; 255]
  /\ Forall isByte (incrementIPBytes [10; 60; 255; 255])
  /\ (length [10; 60; 255; 255] = 4%nat ->
      ipOfBytes (incrementIPBytes [10; 60; 255; 255])
        = incrementIP (ipOfBytes [10; 60; 255; 255])).
Proof.
  apply incrementIP_on_bytes.
  repeat constructor; unfold isByte; lia.
Defined.

Lemma scan_error fuel : forall p start c total e p',
  scan fuel p start c total = Some (Err e, p') ->
  e = ErrPoolExhausted (Z.of_nat (size (allocated p))).
Proof.
  induction fuel as [|n IH]; intros p start c total e p' H; [discriminate|].
  cbn [scan] in H. destruct (decide _); [|discriminate].
  destruct (_ || _).
  - congruence.
  - apply IH in H. exact H.
Qed.

(** X7. [Allocate] always returns, for a pool over any IPv4 block: the
    loop without a bound of its own stops. A success returns an address
    that was not held and marks it held, raising [AllocatedCount] by
    one and lowering [Available] by one unless it is 0 already; a
    failure reports the number of held addresses and changes neither
    the held set nor the counts. *)
Theorem pool_allocate_always_answers (p : UEIPPool) :
  0 <= maskOnes (cidr p) <= 32 ->
  exists r p',
    Allocate p = Some (r, p') /\ cidr p' = cidr p /\
    match r with
    | Ok v =>
        (v ∉ allocated p) /\ allocated p' = {[ v ]} ∪ allocated p /\
        AllocatedCount p' = AllocatedCount p + 1 /\
        Available p' = Z.max 0 (Available p - 1)
    | Err e =>
        e = ErrPoolExhausted (AllocatedCount p) /\ allocated p' = allocated p /\
        AllocatedCount p' = AllocatedCount p /\ Available p' = Available p
    end.
Proof.
  intros Hones.
  destruct (Allocate p) as [[r p']|] eqn:HA;
    [|exfalso; exact (Allocate_terminates p Hones HA)].
  exists r, p'. split; [reflexivity|].
  pose proof (Allocate_allocated p r p' HA) as (Hc & Hr).
  split; [exact Hc|].
  destruct r as [v|e].
  - destruct Hr as (Hfree & Hal).
    assert (Hsz : size (allocated p') = S (size (allocated p))).
    { rewrite Hal, size_union, size_singleton by set_solver. reflexivity. }
    unfold AllocatedCount, Available. rewrite Hc, Hsz.
    split_and!; [assumption|assumption|lia|].
    repeat match goal with
           | |- context [?a <? ?b] => destruct (Z.ltb_spec a b)
           end; lia.
  - unfold Allocate in HA. apply scan_error in HA. cbn [allocated] in HA.
    unfold AllocatedCount, Available. rewrite Hc, Hr.
    split_and!; [exact HA|reflexivity|reflexivity|reflexivity].
Qed.

Lemma pool_allocate_always_answers_witness :
  exists r p',
    Allocate (poolAfter block30 3) = Some (r, p') /\ cidr p' = cidr (poolAfter block30 3) /\
    match r with
    | Ok v =>
        (v ∉ allocated (poolAfter block30 3)) /\
        allocated p' = {[ v ]} ∪ allocated (poolAfter block30 3) /\
        AllocatedCount p' = AllocatedCount (poolAfter block30 3) + 1 /\
        Available p' = Z.max 0 (Available (poolAfter block30 3) - 1)
    | Err e =>
        e = ErrPoolExhausted (AllocatedCount (poolAfter block30 3)) /\
        allocated p' = allocated (poolAfter block30 3) /\
        AllocatedCount p' = AllocatedCount (poolAfter block30 3) /\
        Available p' = Available (poolAfter block30 3)
    end.
Proof.
  apply pool_allocate_always_answers. cbn. lia.
Defined.


Lemma runOps_safe ops : forall p,
  wfPool p -> heldInBlock p ->
  exists rs p',
    runOps ops p = Some (rs, p') /\ cidr p' = cidr p /\ wfPool p' /\ heldInBlock p' /\
    forall v, v ∈ oks rs -> issuable (cidr p) v.
Proof.
  induction ops as [|[|ip] ops IH]; intros p Hwf Hheld.
  - exists [], p. cbn. split_and!; auto. intros v Hv. inversion Hv.
  - destruct (Allocate_spec p Hwf) as (r & p1 & HA & Hc & Hwf1 & Hr).
    assert (Hheld1 : heldInBlock p1).
    { unfold heldInBlock. rewrite Hc. destruct r as [v|e].
      - destruct Hr as (Hv & _ & Hal & _). intros a. rewrite Hal.
        intros [->%elem_of_singleton|Ha]%elem_of_union; auto.
      - destruct Hr as (_ & Hal & _). intros a. rewrite Hal. auto. }
    destruct (IH p1 Hwf1 Hheld1) as (rs & p' & HR & Hc' & Hwf' & Hheld' & Hall).
    exists (r :: rs), p'. cbn [runOps]. rewrite HA, HR.
    split_and!; auto; [congruence|].
    intros v. rewrite Hc in Hall. destruct r as [u|e]; cbn.
    + intros [->|Hv]%elem_of_cons; [tauto|auto].
    + auto.
  - cbn [runOps].
    destruct (IH (Release p ip)) as (rs & p' & HR & Hc' & Hwf' & Hheld' & Hall).
    + apply Release_wf. assumption.
    + intros a Ha. cbn in Ha. apply Hheld. set_solver.
    + exists rs, p'. split_and!; auto.
Qed.

Lemma heldInBlock_count p :
  properBlock (cidr p) -> heldInBlock p ->
  AllocatedCount p <= blockSize (cidr p) - 1.
Proof.
  intros Hn Hheld. pose proof (blockSize_ge2 _ Hn) as Hge.
  assert (Hsub : allocated p ⊆ list_to_set (seqZ (netIP (cidr p) + 1)
                                                 (blockSize (cidr p) - 1))).
  { intros a Ha. apply Hheld in Ha. unfold issuable in Ha.
    apply elem_of_list_to_set, elem_of_seqZ. lia. }
  apply subseteq_size in Hsub.
  rewrite size_list_to_set, length_seqZ in Hsub by apply NoDup_seqZ.
  unfold AllocatedCount. lia.
Qed.

(** X8. A pool over a block with prefix length 1 to 31 never leaves its
    block: through any sequence of [Allocate] and [Release] calls, with
    any arguments, every call returns, every address handed out lies in
    the block and is not its network address, the held set stays within
    those addresses, and [AllocatedCount] never exceeds
    [2^(32-ones) - 1]. *)
Theorem pool_never_leaves_block (addr ones : Z) (ops : list PoolOp) :
  0 <= addr < 2 ^ 32 -> 1 <= ones <= 31 ->
  exists p0 rs p',
    NewUEIPPool addr ones = Ok p0 /\ runOps ops p0 = Some (rs, p') /\
    (forall v, v ∈ oks rs ->
               netIP (cidr p0) < v < netIP (cidr p0) + 2 ^ (32 - ones) /\
               Contains (cidr p0) v = true) /\
    (forall a, a ∈ allocated p' ->
               netIP (cidr p0) < a < netIP (cidr p0) + 2 ^ (32 - ones)) /\
    AllocatedCount p' <= 2 ^ (32 - ones) - 1.
Proof.
  intros Haddr Hones.
  destruct (NewUEIPPool_wf addr ones Haddr Hones) as (n & Hn & Hmask & _ & Hnew).
  assert (Hwf : wfPool (poolAfter n 0)) by (apply poolAfter_wf; [assumption|lia]).
  assert (Hheld : heldInBlock (poolAfter n 0)).
  { intros a Ha. cbn in Ha. set_solver. }
  destruct (runOps_safe ops _ Hwf Hheld) as (rs & p' & HR & Hc & Hwf' & Hheld' & Hall).
  exists (poolAfter n 0), rs, p'.
  assert (Hbs : blockSize n = 2 ^ (32 - ones)) by (unfold blockSize; rewrite Hmask; reflexivity).
  cbn [cidr poolAfter] in *. rewrite <- Hbs.
  split_and!; [assumption|assumption| | |].
  - intros v Hv. apply Hall in Hv. split; [exact Hv|].
    pose proof Hn as (H1 & H2 & H3 & H4). unfold issuable in Hv.
    apply Contains_proper; [exact Hn|lia|lia].
  - intros a Ha. apply Hheld' in Ha. rewrite Hc in Ha. exact Ha.
  - pose proof (heldInBlock_count p') as Hcount. rewrite Hc in Hcount.
    apply Hcount; [assumption|]. exact Hheld'.
Qed.

Lemma pool_never_leaves_block_witness :
  exists p0 rs p',
    NewUEIPPool (ipv4 10 60 0 0) 30 = Ok p0 /\
    runOps [OpAllocate; OpAllocate; OpRelease (ipv4 10 60 0 1); OpAllocate; OpAllocate;
            OpAllocate] p0 = Some (rs, p') /\
    (forall v, v ∈ oks rs ->
               netIP (cidr p0) < v < netIP (cidr p0) + 2 ^ (32 - 30) /\
               Contains (cidr p0) v = true) /\
    (forall a, a ∈ allocated p' ->
               netIP (cidr p0) < a < netIP (cidr p0) + 2 ^ (32 - 30)) /\
    AllocatedCount p' <= 2 ^ (32 - 30) - 1.
Proof.
  apply pool_never_leaves_block; vm_compute; split; congruence.
Defined.

Lemma pool_AllocateN_distinct n : forall p,
  0 <= maskOnes (cidr p) <= 32 ->
  exists rs p',
    AllocateN n p = Some (rs, p') /\ cidr p' = cidr p /\
    NoDup (oks rs) /\ allocated p ⊆ allocated p' /\
    forall v, v ∈ oks rs -> (v ∉ allocated p) /\ v ∈ allocated p'.
Proof.
  induction n as [|n IH]; intros p Hones.
  - exists [], p. cbn. split_and!; auto; [constructor|]. intros v Hv. inversion Hv.
  - destruct (Allocate p) as [[r p1]|] eqn:HA;
      [|exfalso; exact (Allocate_terminates p Hones HA)].
    pose proof (Allocate_allocated p r p1 HA) as (Hc & Hr).
    destruct (IH p1) as (rs & p' & HN & Hc' & Hnd & Hsub & Hall); [rewrite Hc; assumption|].
    exists (r :: rs), p'. cbn [AllocateN]. rewrite HA, HN.
    split_and!; [reflexivity|congruence| | |].
    + destruct r as [v|e]; cbn; [|assumption].
      constructor; [|assumption]. intros Hv. apply Hall in Hv as (Hv & _).
      apply Hv. destruct Hr as (_ & ->). set_solver.
    + destruct r as [v|e]; [destruct Hr as (_ & Hal)|]; rewrite ?Hal, ?Hr in Hsub;
        set_solver.
    + intros v. destruct r as [u|e]; cbn.
      * destruct Hr as (Hfree & Hal).
        intros [->|Hv]%elem_of_cons.
        -- split; [assumption|]. apply Hsub. rewrite Hal. set_solver.
        -- apply Hall in Hv as (Hv & ?). split; [|assumption].
           intros Hin. apply Hv. rewrite Hal. set_solver.
      * intros Hv. apply Hall in Hv as (Hv & ?). rewrite Hr in Hv. auto.
Qed.

(** X9. Uniqueness of the addresses handed out, for a pool over any
    IPv4 block: any number of successive [Allocate] calls with no
    [Release] in between all return, and the addresses they return are
    pairwise distinct, were not held before the first call and are held
    after the last. *)
Theorem pool_allocations_distinct (n : nat) (p : UEIPPool) :
  0 <= maskOnes (cidr p) <= 32 ->
  exists rs p',
    AllocateN n p = Some (rs, p') /\ NoDup (oks rs) /\
    forall v, v ∈ oks rs -> (v ∉ allocated p) /\ v ∈ allocated p'.
Proof.
  intros Hones.
  destruct (pool_AllocateN_distinct n p Hones) as (rs & p' & HN & _ & Hnd & _ & Hall).
  exists rs, p'. auto.
Qed.

Lemma pool_allocations_distinct_witness :
  exists rs p',
    AllocateN 5 (idleWholeSpace 7) = Some (rs, p') /\ NoDup (oks rs) /\
    forall v, v ∈ oks rs -> (v ∉ allocated (idleWholeSpace 7)) /\ v ∈ allocated p'.
Proof.
  apply pool_allocations_distinct. cbn. lia.
Defined.

(** X10. On a pool over a block with prefix length 1 to 31, [Allocate]
    succeeds whenever some address of the block other than the network
    address is free, and it returns the free address nearest to the
    cursor in scanning order (no free address is nearer); the cursor
    moves to the address after the one returned, wrapping from the end
    of the block to network address + 1. *)
Theorem pool_serves_nearest_free (p : UEIPPool) (a : Z) :
  wfPool p -> issuable (cidr p) a -> a ∉ allocated p ->
  exists v p',
    Allocate p = Some (Ok v, p') /\
    issuable (cidr p) v /\ (v ∉ allocated p) /\
    dist (cidr p) (nextIP p) v <= dist (cidr p) (nextIP p) a /\
    (forall b, issuable (cidr p) b -> (b ∉ allocated p) ->
               dist (cidr p) (nextIP p) v <= dist (cidr p) (nextIP p) b) /\
    allocated p' = {[ v ]} ∪ allocated p /\
    nextIP p' = succIn (cidr p) v /\ cidr p' = cidr p.
Proof.
  intros Hwf Ha Hfree.
  destruct (Allocate_spec p Hwf) as (r & p' & HA & Hc & _ & Hr).
  destruct r as [v|e].
  - destruct Hr as (Hv & Hvfree & Hal & Hnext & Hfirst).
    assert (Hmin : forall b, issuable (cidr p) b -> (b ∉ allocated p) ->
                             dist (cidr p) (nextIP p) v <= dist (cidr p) (nextIP p) b).
    { intros b Hb Hbfree.
      destruct (Z.le_gt_cases (dist (cidr p) (nextIP p) v) (dist (cidr p) (nextIP p) b))
        as [?|Hlt]; [assumption|].
      exfalso. apply Hbfree. apply Hfirst; [assumption|lia]. }
    exists v, p'. split_and!; auto.
  - destruct Hr as (_ & _ & Hall). exfalso. apply Hfree, Hall, Ha.
Qed.

Lemma pool_serves_nearest_free_witness :
  exists v p',
    Allocate (Release (poolAfter block30 3) (ipv4 10 60 0 2)) = Some (Ok v, p') /\
    issuable block30 v /\ (v ∉ allocated (Release (poolAfter block30 3) (ipv4 10 60 0 2))) /\
    dist block30 (ipv4 10 60 0 1) v <= dist block30 (ipv4 10 60 0 1) (ipv4 10 60 0 2) /\
    (forall b, issuable block30 b ->
               (b ∉ allocated (Release (poolAfter block30 3) (ipv4 10 60 0 2))) ->
               dist block30 (ipv4 10 60 0 1) v <= dist block30 (ipv4 10 60 0 1) b) /\
    allocated p' = {[ v ]} ∪ allocated (Release (poolAfter block30 3) (ipv4 10 60 0 2)) /\
    nextIP p' = succIn block30 v /\ cidr p' = block30.
Proof.
  apply (pool_serves_nearest_free (Release (poolAfter block30 3) (ipv4 10 60 0 2))
           (ipv4 10 60 0 2)).
  - apply Release_wf, poolAfter_wf; [|lia].
    unfold properBlock, blockSize. vm_compute. repeat split; congruence.
  - vm_compute. split; reflexivity.
  - compute_done.
Defined.

(** X11. [Release] leaves the cursor where it is, so a released address
    is not the next one handed out: when the address at the cursor is
    free, the call after [Release x] returns the cursor address, which
    is [x] only if the cursor happens to stand on it. *)
Theorem pool_release_keeps_cursor (p : UEIPPool) (x : Z) :
  wfPool p -> nextIP p ∉ allocated p ->
  nextIP (Release p x) = nextIP p /\
  (x ∉ allocated (Release p x)) /\
  exists p', Allocate (Release p x) = Some (Ok (nextIP p), p').
Proof.
  intros Hwf Hfree. split_and!.
  - reflexivity.
  - cbn. set_solver.
  - eexists. apply (Allocate_free (Release p x)).
    + apply Release_wf. assumption.
    + cbn. set_solver.
Qed.

Lemma pool_release_keeps_cursor_witness :
  nextIP (Release (poolAfter block30 2) (ipv4 10 60 0 1)) = nextIP (poolAfter block30 2) /\
  (ipv4 10 60 0 1 ∉ allocated (Release (poolAfter block30 2) (ipv4 10 60 0 1))) /\
  exists p', Allocate (Release (poolAfter block30 2) (ipv4 10 60 0 1))
             = Some (Ok (nextIP (poolAfter block30 2)), p').
Proof.
  apply pool_release_keeps_cursor.
  - apply poolAfter_wf; [|lia].
    unfold properBlock, blockSize. vm_compute. repeat split; congruence.
  - compute_done.
Defined.

Lemma Contains_single addr ip :
  0 <= addr < 2 ^ 32 -> 0 <= ip < 2 ^ 32 ->
  Contains {| netIP := addr; maskOnes := 32 |} ip = (ip =? addr).
Proof.
  intros Ha Hi. unfold Contains. cbn [maskOnes netIP].
  rewrite !land_CIDRMask by lia.
  change (2 ^ (32 - 32)) with 1. rewrite !Z.div_1_r, !Z.mul_1_r. reflexivity.
Qed.

Lemma incrementIP_range a : 0 <= incrementIP a < 2 ^ 32.
Proof. unfold incrementIP. apply Z.mod_pos_bound. lia. Qed.

Lemma incrementIP_neq a : 0 <= a < 2 ^ 32 -> incrementIP a <> a.
Proof.
  intros Ha. unfold incrementIP.
  destruct (Z.eq_dec a (2 ^ 32 - 1)) as [->|Hn].
  - change ((2 ^ 32 - 1 + 1) mod 2 ^ 32) with 0. lia.
  - rewrite Z.mod_small by lia. lia.
Qed.

Lemma incrementIP_twice_neq a : 0 <= a < 2 ^ 32 -> incrementIP (incrementIP a) <> a.
Proof.
  intros Ha. unfold incrementIP.
  destruct (Z.eq_dec a (2 ^ 32 - 1)) as [->|Hn].
  - change ((2 ^ 32 - 1 + 1) mod 2 ^ 32) with 0.
    change ((0 + 1) mod 2 ^ 32) with 1. lia.
  - rewrite (Z.mod_small (a + 1)) by lia.
    destruct (Z.eq_dec a (2 ^ 32 - 2)) as [->|Hn2].
    + change ((2 ^ 32 - 2 + 1 + 1) mod 2 ^ 32) with 0. lia.
    + rewrite Z.mod_small by lia. lia.
Qed.

(** X12. A pool over a single-address block [a.b.c.d/32] hands out one
    address and then reports exhaustion; the address is the one after
    [a.b.c.d], which the block does not contain, and [Available] is 0
    from the start. *)
Theorem pool_single_address_block (addr : Z) :
  0 <= addr < 2 ^ 32 ->
  exists p0 p1 p2,
    NewUEIPPool addr 32 = Ok p0 /\ netIP (cidr p0) = addr /\ Available p0 = 0 /\
    Allocate p0 = Some (Ok (incrementIP addr), p1) /\
    Contains (cidr p0) (incrementIP addr) = false /\
    Allocate p1 = Some (Err (ErrPoolExhausted 1), p2).
Proof.
  intros Ha.
  pose proof (incrementIP_range addr) as Hr1.
  pose proof (incrementIP_range (incrementIP addr)) as Hr2.
  pose proof (incrementIP_neq addr Ha) as Hn1.
  pose proof (incrementIP_twice_neq addr Ha) as Hn2.
  set (n := {| netIP := addr; maskOnes := 32 |}).
  assert (Hparse : ParseCIDR addr 32 = Some n).
  { unfold ParseCIDR.
    destruct (Z.leb_spec 0 addr); [|lia]. destruct (Z.ltb_spec addr (2 ^ 32)); [|lia].
    cbn [andb]. change ((0 <=? 32) && (32 <=? 32)) with true. cbn [andb].
    rewrite land_CIDRMask by lia.
    change (2 ^ (32 - 32)) with 1. rewrite Z.div_1_r, Z.mul_1_r. reflexivity. }
  assert (Hc1 : Contains n (incrementIP addr) = false).
  { unfold n. rewrite Contains_single by assumption. apply Z.eqb_neq. assumption. }
  assert (Hc2 : Contains n (incrementIP (incrementIP addr)) = false).
  { unfold n. rewrite Contains_single by assumption. apply Z.eqb_neq. assumption. }
  assert (Hw1 : wrapCursor n (incrementIP addr) = incrementIP addr).
  { unfold wrapCursor. rewrite Hc1. reflexivity. }
  assert (Hw2 : wrapCursor n (incrementIP (incrementIP addr)) = incrementIP addr).
  { unfold wrapCursor. rewrite Hc2. reflexivity. }
  eexists _, _, _. split_and!.
  - unfold NewUEIPPool. rewrite Hparse. reflexivity.
  - reflexivity.
  - reflexivity.
  - unfold Allocate. cbn [cidr nextIP allocated n netIP].
    fold n. rewrite Hw1.
    change (totalIPs n) with 1. change (Z.to_nat 1) with 1%nat.
    cbn [scan cidr nextIP allocated].
    destruct (decide (incrementIP addr ∈ (∅ : gset Z))) as [Hin|_]; [exfalso; set_solver|].
    rewrite Hw2. reflexivity.
  - exact Hc1.
  - unfold Allocate. cbn [cidr nextIP allocated]. rewrite Hw1.
    change (totalIPs n) with 1. change (Z.to_nat 1) with 1%nat.
    cbn [scan cidr nextIP allocated].
    destruct (decide (incrementIP addr ∈ ({[ incrementIP addr ]} ∪ ∅ : gset Z)))
      as [_|Hout]; [|exfalso; set_solver].
    rewrite Hw2. change (0 + 1 >=? 1 - 1) with true. cbn [orb].
    rewrite size_union, size_singleton, size_empty by set_solver. reflexivity.
Qed.

Lemma pool_single_address_block_witness :
  exists p0 p1 p2,
    NewUEIPPool (ipv4 10 60 0 9) 32 = Ok p0 /\ netIP (cidr p0) = ipv4 10 60 0 9 /\
    Available p0 = 0 /\
    Allocate p0 = Some (Ok (incrementIP (ipv4 10 60 0 9)), p1) /\
    Contains (cidr p0) (incrementIP (ipv4 10 60 0 9)) = false /\
    Allocate p1 = Some (Err (ErrPoolExhausted 1), p2).
Proof.
  apply pool_single_address_block. vm_compute. split; congruence.
Defined.

End IPPoolMore.

(** * Further properties: transaction tracker *)
Section TrackerMore.
Import Tracker TrackerView.

Ltac proj := cbn [trk snapshot pending heap chans nextAddr timeout maxRetries wire
                  Track Resolve snd fst SeqNum RequestData SentAt RetryCount ResultCh
                  vTx vPending vDelivered vResent] in *.

(** A timeout of another transaction does not concern the one at [a]. *)
Lemma handleTimeout_other t b rest now a :
  trkInv t (b :: rest) -> a <> b ->
  view (handleTimeout b now t) a = view t a.
Proof.
  intros Hinv Hab. pose proof Hinv as (HP & HH & HW & HS).
  destruct (HS b) as (txb & Hb & Hst); [apply list_elem_of_here|].
  rewrite handleTimeout_eq. rewrite Hb.
  destruct Hst as [Hst|Hst]; rewrite Hst; [|reflexivity].
  destruct (HH _ _ Hb) as (Hchb & _).
  destruct (RetryCount txb <? maxRetries t).
  - unfold view, pendingAt, delivered. proj.
    rewrite lookup_insert_ne by congruence.
    rewrite (resent_snoc_other _ b a (RequestData txb) (wire t)) by (auto; congruence).
    reflexivity.
  - unfold view, pendingAt, delivered, resent. proj. rewrite Hchb.
    rewrite chanSend_other by congruence.
    f_equal. destruct (heap t !! a) as [tx|] eqn:Ha; [|reflexivity].
    apply bool_decide_ext.
    destruct (decide (SeqNum tx = SeqNum txb)) as [E|E].
    + rewrite E, lookup_delete_eq, Hst. split; [discriminate|]. intros H.
      exfalso. apply Hab. congruence.
    + rewrite lookup_delete_ne by congruence. reflexivity.
Qed.

(** A timeout of the transaction at [a], seen from [a]. *)
Lemma handleTimeout_self t rest now a :
  trkInv t (a :: rest) ->
  view (handleTimeout a now t) a = afterTimeout (maxRetries t) now (view t a).
Proof.
  intros Hinv. pose proof Hinv as (HP & HH & HW & HS).
  destruct (HS a) as (tx & Ha & Hst); [apply list_elem_of_here|].
  destruct (HH _ _ Ha) as (Hch & _).
  assert (Hv : view t a = {| vTx := Some tx;
                             vPending := bool_decide (pending t !! SeqNum tx = Some a);
                             vDelivered := delivered t a; vResent := resent t a |})
    by (unfold view, pendingAt; rewrite Ha; reflexivity).
  rewrite Hv. rewrite handleTimeout_eq. unfold afterTimeout. proj. rewrite Ha.
  destruct Hst as [Hst|Hst]; rewrite Hst.
  - rewrite bool_decide_eq_true_2 by reflexivity.
    destruct (RetryCount tx <? maxRetries t).
    + unfold view, pendingAt, delivered. proj. rewrite lookup_insert_eq. proj.
      rewrite Hst, bool_decide_eq_true_2 by reflexivity.
      rewrite (resent_snoc_same _ a (RequestData tx) (wire t)) by reflexivity.
      reflexivity.
    + unfold view, pendingAt, delivered, resent. proj. rewrite Ha, Hch.
      rewrite lookup_delete_eq, chanSend_same.
      rewrite bool_decide_eq_false_2 by discriminate. reflexivity.
  - rewrite bool_decide_eq_false_2 by discriminate.
    unfold view, pendingAt. rewrite Ha, Hst.
    rewrite bool_decide_eq_false_2 by discriminate. reflexivity.
Qed.

Lemma sweep_others (clock : nat -> Z) a : forall l t,
  trkInv t l -> a ∉ l ->
  view (foldl (fun t b => handleTimeout b (clock b) t) t l) a = view t a.
Proof.
  induction l as [|b rest IH]; intros t Hinv Hnotin; [reflexivity|].
  cbn [foldl].
  rewrite IH.
  - apply (handleTimeout_other t b rest); [assumption|]. set_solver.
  - apply trkInv_handle. assumption.
  - set_solver.
Qed.

Lemma sweep_self (clock : nat -> Z) a : forall l t,
  trkInv t l -> NoDup l -> a ∈ l ->
  view (foldl (fun t b => handleTimeout b (clock b) t) t l) a
    = afterTimeout (maxRetries t) (clock a) (view t a).
Proof.
  induction l as [|b rest IH]; intros t Hinv Hnd Hin; [inversion Hin|].
  apply NoDup_cons in Hnd as [Hb Hnd]. cbn [foldl].
  assert (Hinv' : trkInv (handleTimeout b (clock b) t) rest)
    by (apply trkInv_handle; assumption).
  destruct (decide (a = b)) as [->|Hab].
  - rewrite sweep_others by assumption.
    apply (handleTimeout_self t rest).  assumption.
  - assert (Hin' : a ∈ rest) by set_solver.
    rewrite IH by assumption.
    rewrite (proj1 (handleTimeout_config b (clock b) t)).
    rewrite (handleTimeout_other t b rest) by assumption. reflexivity.
Qed.

Lemma timedOut_NoDup t snap now : trkInv t snap -> NoDup (timedOut now t).
Proof.
  intros Hinv. pose proof (pending_values_NoDup t snap Hinv) as Hnd.
  unfold timedOut. induction (map_to_list (pending t)) as [|[q b] l IH];
    [constructor|].
  cbn [fmap list_fmap snd] in Hnd. apply NoDup_cons in Hnd as [Hb Hnd].
  cbn [omap list_omap].
  destruct (heap t !! b) as [tx|]; [|auto].
  destruct (timeout t <? now - SentAt tx); [|auto].
  constructor; [|auto].
  intros Hin. apply Hb. apply list_elem_of_omap in Hin as ([q' b'] & Hin & Hf).
  destruct (heap t !! b') as [tx'|]; [|discriminate].
  destruct (timeout t <? now - SentAt tx'); [|discriminate].
  inversion Hf; subst. apply list_elem_of_fmap. exists (q', b). auto.
Qed.

Lemma timedOut_iff t snap now a tx :
  trkInv t snap -> heap t !! a = Some tx ->
  a ∈ timedOut now t <->
  pending t !! SeqNum tx = Some a /\ timeout t < now - SentAt tx.
Proof.
  intros Hinv Htx. pose proof Hinv as (HP & HH & HW & HS). split.
  - intros Hin. destruct (timedOut_pending _ _ _ Hin) as (q & tx' & Hp & Hh & Hto).
    assert (tx' = tx) by congruence. subst tx'.
    destruct (HP _ _ Hp) as (tx' & Htx' & Hseq).
    assert (tx' = tx) by congruence. subst tx'. rewrite Hseq. auto.
  - intros [Hp Hto]. unfold timedOut. rewrite list_elem_of_omap.
    exists (SeqNum tx, a). split; [apply elem_of_map_to_list; exact Hp|].
    cbn. rewrite Htx.
    destruct (Z.ltb_spec (timeout t) (now - SentAt tx)); [reflexivity | lia].
Qed.

(** One sweep, seen from the transaction at [a]. *)
Lemma sweepAt_view t snap now clock a tx :
  trkInv t snap -> heap t !! a = Some tx ->
  pending t !! SeqNum tx = Some a ->
  view (sweepAt now clock t) a =
    if timeout t <? now - SentAt tx
    then afterTimeout (maxRetries t) (clock a) (view t a)
    else view t a.
Proof.
  intros Hinv Htx Hp.
  pose proof (trkInv_scan t snap now Hinv) as Hscan.
  pose proof (timedOut_NoDup t snap now Hinv) as Hnd.
  pose proof (timedOut_iff t snap now a tx Hinv Htx) as Hiff.
  unfold sweepAt.
  destruct (Z.ltb_spec (timeout t) (now - SentAt tx)) as [Hto|Hyoung].
  - apply sweep_self; [assumption|assumption|]. apply Hiff. auto.
  - apply sweep_others; [assumption|]. rewrite Hiff. lia.
Qed.

(** While the monitor has no send to make, the tracker is as the
    invariant describes it. *)
Lemma sysInv_quiet s : sysInv s -> sending s = None -> trkInv (trk s) (snapshot s).
Proof. intros [H _] E. unfold caughtUp in H. rewrite E in H. exact H. Qed.

(** X13. One sweep of the timeout monitor, run to its end while the
    monitor has no earlier send to make, deals with every pending
    transaction separately and once: a transaction that is not overdue
    is left exactly as it was; an overdue one with retries left gets
    its retry count raised by one, its sent-time set to the time at
    which it is handled and one more retransmission, and stays pending;
    an overdue one without retries left stops being pending and
    receives the timeout failure, and is not retransmitted. *)
Theorem sweep_treats_each_transaction_once
    (timeoutMs R : Z) (evs : list Event) (now : Z) (clock : nat -> Z)
    (a : nat) (tx : PendingTransaction) :
  freshRun (start timeoutMs R) evs ->
  sending (run evs (start timeoutMs R)) = None ->
  heap (trk (run evs (start timeoutMs R))) !! a = Some tx ->
  pending (trk (run evs (start timeoutMs R))) !! SeqNum tx = Some a ->
  (now - SentAt tx <= timeoutMs * 1000000 ->
   view (sweepAt now clock (trk (run evs (start timeoutMs R)))) a
     = view (trk (run evs (start timeoutMs R))) a)
  /\ (timeoutMs * 1000000 < now - SentAt tx -> RetryCount tx < R ->
      view (sweepAt now clock (trk (run evs (start timeoutMs R)))) a
        = {| vTx := Some (retried tx (clock a)); vPending := true; vDelivered := [];
             vResent := S (resent (trk (run evs (start timeoutMs R))) a) |})
  /\ (timeoutMs * 1000000 < now - SentAt tx -> ~ RetryCount tx < R ->
      view (sweepAt now clock (trk (run evs (start timeoutMs R)))) a
        = {| vTx := Some tx; vPending := false;
             vDelivered := [timeoutResult (SeqNum tx) R];
             vResent := resent (trk (run evs (start timeoutMs R))) a |}).
Proof.
  intros Hfresh Hquiet Htx Hp.
  pose proof (sysInv_run evs _ (sysInv_start timeoutMs R) Hfresh) as Hinv.
  destruct (config_run evs (start timeoutMs R)) as [HR HT].
  cbn [start trk NewTransactionTracker maxRetries timeout] in HR, HT.
  set (s := run evs (start timeoutMs R)) in *.
  pose proof (sysInv_quiet s Hinv Hquiet) as Ht.
  pose proof (sweepAt_view (trk s) (snapshot s) now clock a tx Ht Htx Hp) as Hview.
  rewrite HR, HT in Hview.
  destruct (sysInv_tx s a tx Hinv Htx) as (_ & _ & _ & _ & _ & Hst).
  assert (Hd : delivered (trk s) a = []) by (destruct Hst as [[_ ?]|[? _]]; [auto|contradiction]).
  assert (Hv : view (trk s) a = {| vTx := Some tx; vPending := true; vDelivered := [];
                                   vResent := resent (trk s) a |}).
  { unfold view, pendingAt. rewrite Htx, Hd, bool_decide_eq_true_2 by assumption.
    reflexivity. }
  split_and!.
  - intros Hyoung. rewrite Hview.
    destruct (Z.ltb_spec (timeoutMs * 1000000) (now - SentAt tx)); [lia|reflexivity].
  - intros Hto Hretry. rewrite Hview, Hv.
    destruct (Z.ltb_spec (timeoutMs * 1000000) (now - SentAt tx)); [|lia].
    unfold afterTimeout. proj.
    destruct (Z.ltb_spec (RetryCount tx) R); [reflexivity|lia].
  - intros Hto Hlast. rewrite Hview, Hv.
    destruct (Z.ltb_spec (timeoutMs * 1000000) (now - SentAt tx)); [|lia].
    unfold afterTimeout. proj.
    destruct (Z.ltb_spec (RetryCount tx) R); [contradiction|reflexivity].
Qed.

Lemma sweep_treats_each_transaction_once_witness :
  (6000000000 - SentAt oneTrackedTx <= 5000 * 1000000 ->
   view (sweepAt 6000000000 (fun _ => 6000000007)
           (trk (run oneTracked (start 5000 3)))) 0
     = view (trk (run oneTracked (start 5000 3))) 0)
  /\ (5000 * 1000000 < 6000000000 - SentAt oneTrackedTx -> RetryCount oneTrackedTx < 3 ->
      view (sweepAt 6000000000 (fun _ => 6000000007)
              (trk (run oneTracked (start 5000 3)))) 0
        = {| vTx := Some (retried oneTrackedTx 6000000007); vPending := true;
             vDelivered := [];
             vResent := S (resent (trk (run oneTracked (start 5000 3))) 0) |})
  /\ (5000 * 1000000 < 6000000000 - SentAt oneTrackedTx -> ~ RetryCount oneTrackedTx < 3 ->
      view (sweepAt 6000000000 (fun _ => 6000000007)
              (trk (run oneTracked (start 5000 3)))) 0
        = {| vTx := Some oneTrackedTx; vPending := false;
             vDelivered := [timeoutResult (SeqNum oneTrackedTx) 3];
             vResent := resent (trk (run oneTracked (start 5000 3))) 0 |}).
Proof.
  apply (sweep_treats_each_transaction_once 5000 3 oneTracked 6000000000
           (fun _ => 6000000007) 0 oneTrackedTx).
  - cbn. split; [|exact I]. split; [reflexivity|]. intros a tx Ha. inversion Ha.
  - reflexivity.
  - reflexivity.
  - reflexivity.
Defined.

(** X14. The response time a caller is given counts from the latest
    transmission decided, not from the first: a response to a pending
    transaction is delivered with the time elapsed since [SentAt], and
    after a timeout handled at time [now1] with retries left a response
    at [now2] is reported with response time [now2 - now1], whether the
    retransmission has been sent by then or not. *)
Theorem response_time_counts_from_last_send
    (timeoutMs R : Z) (evs : list Event) (a : nat) (tx : PendingTransaction)
    (d : list Z) (now1 now2 : Z) :
  freshRun (start timeoutMs R) evs ->
  heap (trk (run evs (start timeoutMs R))) !! a = Some tx ->
  pending (trk (run evs (start timeoutMs R))) !! SeqNum tx = Some a ->
  delivered (Resolve (SeqNum tx) d now2 (trk (run evs (start timeoutMs R)))) a
    = [{| resSeqNum := SeqNum tx; Response := d; ResponseTime := now2 - SentAt tx;
          Error := None |}]
  /\ (RetryCount tx < R ->
      delivered (Resolve (SeqNum tx) d now2
                   (handleTimeout a now1 (trk (run evs (start timeoutMs R))))) a
        = [{| resSeqNum := SeqNum tx; Response := d; ResponseTime := now2 - now1;
              Error := None |}]
      /\ delivered (Resolve (SeqNum tx) d now2
                      (handleTimeoutLocked a now1 (trk (run evs (start timeoutMs R)))).1) a
        = [{| resSeqNum := SeqNum tx; Response := d; ResponseTime := now2 - now1;
              Error := None |}]).
Proof.
  intros Hfresh Htx Hp.
  pose proof (sysInv_run evs _ (sysInv_start timeoutMs R) Hfresh) as Hinv.
  destruct (config_run evs (start timeoutMs R)) as [HR HT].
  cbn [start trk NewTransactionTracker maxRetries timeout] in HR, HT.
  set (s := run evs (start timeoutMs R)) in *.
  destruct (sysInv_tx s a tx Hinv Htx) as (Hch & _ & _ & _ & _ & Hst).
  assert (Hd : delivered (trk s) a = [])
    by (destruct Hst as [[_ ?]|[? _]]; [auto|contradiction]).
  unfold delivered in Hd. split.
  - unfold Resolve. rewrite Hp, Htx. unfold delivered. proj.
    rewrite Hch, chanSend_same, Hd. reflexivity.
  - intros Hretry. rewrite handleTimeout_eq. unfold handleTimeoutLocked.
    rewrite Htx, Hp, HR.
    destruct (Z.ltb_spec (RetryCount tx) R); [|lia].
    unfold Resolve. proj. rewrite Hp, lookup_insert_eq. unfold delivered. proj.
    rewrite Hch, chanSend_same, Hd. split; reflexivity.
Qed.

Lemma response_time_counts_from_last_send_witness :
  delivered (Resolve (SeqNum oneTrackedTx) [9] 7000000000
               (trk (run oneTracked (start 5000 3)))) 0
    = [{| resSeqNum := SeqNum oneTrackedTx; Response := [9];
          ResponseTime := 7000000000 - SentAt oneTrackedTx; Error := None |}]
  /\ (RetryCount oneTrackedTx < 3 ->
      delivered (Resolve (SeqNum oneTrackedTx) [9] 7000000000
                   (handleTimeout 0 6000000000 (trk (run oneTracked (start 5000 3))))) 0
        = [{| resSeqNum := SeqNum oneTrackedTx; Response := [9];
              ResponseTime := 7000000000 - 6000000000; Error := None |}]
      /\ delivered (Resolve (SeqNum oneTrackedTx) [9] 7000000000
                      (handleTimeoutLocked 0 6000000000
                         (trk (run oneTracked (start 5000 3)))).1) 0
        = [{| resSeqNum := SeqNum oneTrackedTx; Response := [9];
              ResponseTime := 7000000000 - 6000000000; Error := None |}]).
Proof.
  apply (response_time_counts_from_last_send 5000 3 oneTracked 0 oneTrackedTx).
  - cbn. split; [|exact I]. split; [reflexivity|]. intros a tx Ha. inversion Ha.
  - reflexivity.
  - reflexivity.
Defined.



Lemma pending_bounded t snap :
  trkInv t snap -> (size (pending t) <= nextAddr t)%nat.
Proof.
  intros Hinv. pose proof (pending_values_NoDup t snap Hinv) as Hnd.
  pose proof Hinv as (HP & HH & _ & _).
  assert (Hsub : (map_to_list (pending t)).*2 ⊆+ seq 0 (nextAddr t)).
  { apply NoDup_submseteq; [assumption|].
    intros b Hb. apply list_elem_of_fmap in Hb as ([q b'] & -> & Hin).
    apply elem_of_map_to_list in Hin. destruct (HP _ _ Hin) as (tx & Htx & _).
    destruct (HH _ _ Htx) as (_ & Hlt & _). apply elem_of_seq. cbn. lia. }
  apply submseteq_length in Hsub.
  rewrite length_fmap, length_map_to_list, length_seq in Hsub. exact Hsub.
Qed.

(** X16. [PendingCount] counts sequence numbers, not callers:
    registering a number that is not pending raises it by one,
    registering a pending number again leaves it unchanged (the earlier
    transaction is overwritten), a response to a pending number lowers
    it by one and any other response leaves it alone; it never exceeds
    the number of [Track] calls made so far. *)
Theorem pending_count_steps
    (timeoutMs R : Z) (evs : list Event) (q : Z) (d : list Z) (now : Z) :
  freshRun (start timeoutMs R) evs ->
  PendingCount (Track q d now (trk (run evs (start timeoutMs R)))).2
    = PendingCount (trk (run evs (start timeoutMs R)))
      + match pending (trk (run evs (start timeoutMs R))) !! q with
        | Some _ => 0
        | None => 1
        end
  /\ PendingCount (Resolve q d now (trk (run evs (start timeoutMs R))))
      = PendingCount (trk (run evs (start timeoutMs R)))
        - match pending (trk (run evs (start timeoutMs R))) !! q with
          | Some _ => 1
          | None => 0
          end
  /\ 0 <= PendingCount (trk (run evs (start timeoutMs R)))
       <= Z.of_nat (nextAddr (trk (run evs (start timeoutMs R)))).
Proof.
  intros Hfresh.
  pose proof (sysInv_run evs _ (sysInv_start timeoutMs R) Hfresh) as Hinv.
  set (s := run evs (start timeoutMs R)) in *.
  unfold PendingCount. split_and!.
  - proj. rewrite map_size_insert. destruct (pending (trk s) !! q); cbn; lia.
  - unfold Resolve. destruct (pending (trk s) !! q) as [b|] eqn:Hq; [|lia].
    destruct (sysInv_pending s q b Hinv Hq) as (tx & Htx & _). rewrite Htx. proj.
    rewrite map_size_delete, Hq.
    assert (size (pending (trk s)) <> 0%nat).
    { intros Hz. apply map_size_empty_iff in Hz. rewrite Hz, lookup_empty in Hq.
      discriminate. }
    cbn. lia.
  - lia.
  - destruct Hinv as [Hinv _].
    pose proof (pending_bounded _ _ Hinv) as Hb.
    destruct (caughtUp_fields s) as (Fp & _ & _ & Fn & _).
    rewrite Fp, Fn in Hb. lia.
Qed.

Lemma pending_count_steps_witness :
  PendingCount (Track 7 [3] 1 (trk (run oneTracked (start 5000 3)))).2
    = PendingCount (trk (run oneTracked (start 5000 3)))
      + match pending (trk (run oneTracked (start 5000 3))) !! 7 with
        | Some _ => 0
        | None => 1
        end
  /\ PendingCount (Resolve 7 [3] 1 (trk (run oneTracked (start 5000 3))))
      = PendingCount (trk (run oneTracked (start 5000 3)))
        - match pending (trk (run oneTracked (start 5000 3))) !! 7 with
          | Some _ => 1
          | None => 0
          end
  /\ 0 <= PendingCount (trk (run oneTracked (start 5000 3)))
       <= Z.of_nat (nextAddr (trk (run oneTracked (start 5000 3)))).
Proof.
  apply (pending_count_steps 5000 3 oneTracked 7 [3] 1).
  cbn. split; [|exact I]. split; [reflexivity|]. intros a tx Ha. inversion Ha.
Defined.

Lemma sweep_invariant (clock : nat -> Z) : forall l t,
  trkInv t l ->
  trkInv (foldl (fun t b => handleTimeout b (clock b) t) t l) []
  /\ maxRetries (foldl (fun t b => handleTimeout b (clock b) t) t l) = maxRetries t
  /\ timeout (foldl (fun t b => handleTimeout b (clock b) t) t l) = timeout t.
Proof.
  induction l as [|b rest IH]; intros t Hinv; [cbn; auto|].
  cbn [foldl].
  destruct (IH (handleTimeout b (clock b) t)) as (H1 & H2 & H3).
  - apply trkInv_handle. assumption.
  - destruct (handleTimeout_config b (clock b) t) as [G1 G2].
    split_and!; [assumption|congruence|congruence].
Qed.

Lemma sweepAt_invariant t snap now clock :
  trkInv t snap ->
  trkInv (sweepAt now clock t) []
  /\ maxRetries (sweepAt now clock t) = maxRetries t
  /\ timeout (sweepAt now clock t) = timeout t.
Proof.
  intros Hinv. apply (sweep_invariant clock (timedOut now t) t).
  apply (trkInv_scan t snap now Hinv).
Qed.

Lemma sweeps_until_failure a : forall (k : nat) times t snap tx,
  trkInv t snap -> heap t !! a = Some tx ->
  pending t !! SeqNum tx = Some a ->
  spaced (timeout t) a (SentAt tx) times ->
  length times = S k -> k = Z.to_nat (maxRetries t - RetryCount tx) ->
  exists tx',
    view (sweeps times t) a =
      {| vTx := Some tx'; vPending := false;
         vDelivered := [timeoutResult (SeqNum tx) (maxRetries t)];
         vResent := (resent t a + k)%nat |}
    /\ SeqNum tx' = SeqNum tx /\ RequestData tx' = RequestData tx
    /\ RetryCount tx' = RetryCount tx + Z.of_nat k.
Proof.
  induction k as [|k IH]; intros times t snap tx Hinv Htx Hp Hsp Hlen Hk;
    (destruct times as [|[now clock] rest]; [discriminate|]);
    destruct Hsp as [Hto Hsp]; cbn [sweeps foldl fst snd] in *.
  - destruct rest; [|discriminate]. cbn [foldl].
    pose proof (sweepAt_view t snap now clock a tx Hinv Htx Hp) as Hview.
    destruct (Z.ltb_spec (timeout t) (now - SentAt tx)); [|lia].
    pose proof Hinv as (_ & HH & _ & _).
    destruct (HH _ _ Htx) as (_ & _ & _ & _ & _ & Hst).
    assert (Hd : delivered t a = [])
      by (destruct Hst as [[_ ?]|[? _]]; [auto|contradiction]).
    exists tx. rewrite Hview. unfold afterTimeout, view, pendingAt. proj.
    rewrite Htx, Hd, bool_decide_eq_true_2 by assumption.
    destruct (Z.ltb_spec (RetryCount tx) (maxRetries t)); [lia|].
    rewrite Nat.add_0_r. split_and!; [reflexivity|reflexivity|reflexivity|lia].
  - pose proof (sweepAt_view t snap now clock a tx Hinv Htx Hp) as Hview.
    destruct (Z.ltb_spec (timeout t) (now - SentAt tx)); [|lia].
    pose proof Hinv as (_ & HH & _ & _).
    destruct (HH _ _ Htx) as (_ & _ & _ & _ & _ & Hst).
    assert (Hd : delivered t a = [])
      by (destruct Hst as [[_ ?]|[? _]]; [auto|contradiction]).
    assert (Hv0 : view t a = {| vTx := Some tx; vPending := true; vDelivered := [];
                                vResent := resent t a |}).
    { unfold view, pendingAt. rewrite Htx, Hd, bool_decide_eq_true_2 by assumption.
      reflexivity. }
    rewrite Hv0 in Hview. unfold afterTimeout in Hview. proj.
    destruct (Z.ltb_spec (RetryCount tx) (maxRetries t)); [|lia].
    destruct (sweepAt_invariant t snap now clock Hinv) as (Hinv1 & HR1 & HT1).
    set (t1 := sweepAt now clock t) in *.
    assert (Htx1 : heap t1 !! a = Some (retried tx (clock a)))
      by (apply (f_equal vTx) in Hview; exact Hview).
    assert (Hp1 : pending t1 !! SeqNum (retried tx (clock a)) = Some a).
    { apply (f_equal vPending) in Hview. cbn in Hview. unfold pendingAt in Hview.
      rewrite Htx1 in Hview. apply bool_decide_eq_true_1 in Hview. exact Hview. }
    assert (Hres1 : resent t1 a = S (resent t a))
      by (apply (f_equal vResent) in Hview; exact Hview).
    destruct (IH rest t1 [] (retried tx (clock a)))
      as (tx' & Hv & H1 & H2 & H3); proj; try assumption.
    + rewrite HT1. exact Hsp.
    + cbn in Hlen. lia.
    + rewrite HR1. unfold retried. proj. lia.
    + exists tx'. unfold sweeps in Hv. rewrite Hv, HR1, Hres1.
      unfold retried in H1, H2, H3. proj.
      split_and!; [f_equal; lia|assumption|assumption|lia].
Qed.

(** X17. A request that is never answered is failed after a bounded
    number of sweeps: if every sweep finds the transaction overdue, it
    is retransmitted on each of the first [maxRetries - RetryCount]
    sweeps, always with the original bytes and sequence number, and the
    sweep after those takes it out of the pending set and delivers the
    timeout failure; in all it was retransmitted that many times more. *)
Theorem unanswered_request_is_failed
    (timeoutMs R : Z) (evs : list Event) (times : list (Z * (nat -> Z))) (a : nat)
    (tx : PendingTransaction) :
  freshRun (start timeoutMs R) evs ->
  sending (run evs (start timeoutMs R)) = None ->
  heap (trk (run evs (start timeoutMs R))) !! a = Some tx ->
  pending (trk (run evs (start timeoutMs R))) !! SeqNum tx = Some a ->
  spaced (timeoutMs * 1000000) a (SentAt tx) times ->
  length times = S (Z.to_nat (R - RetryCount tx)) ->
  exists tx',
    view (sweeps times (trk (run evs (start timeoutMs R)))) a =
      {| vTx := Some tx'; vPending := false;
         vDelivered := [timeoutResult (SeqNum tx) R];
         vResent := (resent (trk (run evs (start timeoutMs R))) a
                     + Z.to_nat (R - RetryCount tx))%nat |}
    /\ SeqNum tx' = SeqNum tx /\ RequestData tx' = RequestData tx
    /\ RetryCount tx' = RetryCount tx + Z.max 0 (R - RetryCount tx).
Proof.
  intros Hfresh Hquiet Htx Hp Hsp Hlen.
  pose proof (sysInv_run evs _ (sysInv_start timeoutMs R) Hfresh) as Hinv.
  destruct (config_run evs (start timeoutMs R)) as [HR HT].
  cbn [start trk NewTransactionTracker maxRetries timeout] in HR, HT.
  set (s := run evs (start timeoutMs R)) in *.
  pose proof (sysInv_quiet s Hinv Hquiet) as Ht.
  destruct (sweeps_until_failure a (Z.to_nat (R - RetryCount tx)) times (trk s)
              (snapshot s) tx)
    as (tx' & Hv & H1 & H2 & H3); try assumption.
  - rewrite HT. exact Hsp.
  - rewrite HR. reflexivity.
  - exists tx'. rewrite HR in Hv. split_and!; [exact Hv|assumption|assumption|lia].
Qed.

Lemma unanswered_request_is_failed_witness :
  exists tx',
    view (sweeps [(5000000001, fun _ => 5000000002); (10000000003, fun _ => 10000000004);
                  (15000000005, fun _ => 15000000006)]
            (trk (run oneTracked (start 5000 2)))) 0 =
      {| vTx := Some tx'; vPending := false;
         vDelivered := [timeoutResult (SeqNum oneTrackedTx) 2];
         vResent := (resent (trk (run oneTracked (start 5000 2))) 0
                     + Z.to_nat (2 - RetryCount oneTrackedTx))%nat |}
    /\ SeqNum tx' = SeqNum oneTrackedTx /\ RequestData tx' = RequestData oneTrackedTx
    /\ RetryCount tx' = RetryCount oneTrackedTx + Z.max 0 (2 - RetryCount oneTrackedTx).
Proof.
  apply (unanswered_request_is_failed 5000 2 oneTracked
           [(5000000001, fun _ => 5000000002); (10000000003, fun _ => 10000000004);
            (15000000005, fun _ => 15000000006)] 0 oneTrackedTx).
  - cbn. split; [|exact I]. split; [reflexivity|]. intros a tx Ha. inversion Ha.
  - reflexivity.
  - reflexivity.
  - reflexivity.
  - cbn. lia.
  - reflexivity.
Defined.

End TrackerMore.

(** * Further properties: message modifier *)
Section ModifierMore.
Import Pfcp.
Context {codec : Codec}.

Lemma rewriteChildren_acc (rewrite : IE -> option IE) (children : list IE) :
  forall acc b,
    foldl (fun '(newChildren, modified) child =>
             match rewrite child with
             | Some child' => (newChildren ++ [child'], true)
             | None => (newChildren ++ [child], modified)
             end)
          (acc, b) children
    = (acc ++ ((fun c => default c (rewrite c)) <$> children),
       b || existsb (fun c => bool_decide (is_Some (rewrite c))) children).
Proof.
  induction children as [|c rest IH]; intros acc b.
  - cbn. rewrite app_nil_r, orb_false_r. reflexivity.
  - cbn [foldl fmap list_fmap existsb]. destruct (rewrite c) as [c'|] eqn:Hc.
    + rewrite IH, <- app_assoc. cbn [default app].
      rewrite bool_decide_eq_true_2 by eauto. cbn [orb]. rewrite orb_true_r.
      reflexivity.
    + rewrite IH, <- app_assoc. cbn [default app].
      rewrite bool_decide_eq_false_2 by (intros [? ?]; discriminate). reflexivity.
Qed.

Lemma rewriteChildren_spec (rewrite : IE -> option IE) (children : list IE) :
  rewriteChildren rewrite children
    = ((fun c => default c (rewrite c)) <$> children,
       existsb (fun c => bool_decide (is_Some (rewrite c))) children).
Proof. unfold rewriteChildren. rewrite rewriteChildren_acc. reflexivity. Qed.

Lemma existsb_ext_in {A} (f g : A -> bool) (l : list A) :
  (forall x, x ∈ l -> f x = g x) -> existsb f l = existsb g l.
Proof.
  induction l as [|x l IH]; intros H; [reflexivity|]. cbn.
  rewrite (H x) by apply list_elem_of_here.
  rewrite IH; [reflexivity|]. intros y Hy. apply H, list_elem_of_further, Hy.
Qed.

Lemma modifyUEIPInPDI_spec (m : Modifier) (pdi : IE) (newUEIP : IP) :
  modifyUEIPInPDI m pdi newUEIP =
    if existsb (fun g => (ieType g =? ieUEIPAddress)
                         && bool_decide (is_Some (createModifiedUEIPIE m g newUEIP)))
               (ChildIEs pdi)
    then (ie_NewPDI ((fun g => if ieType g =? ieUEIPAddress
                               then default g (createModifiedUEIPIE m g newUEIP)
                               else g) <$> ChildIEs pdi), true)
    else (pdi, false).
Proof.
  unfold modifyUEIPInPDI. destruct (ChildIEs pdi) as [|c rest] eqn:Hch; [reflexivity|].
  rewrite rewriteChildren_spec.
  rewrite (existsb_ext_in _
             (fun g => (ieType g =? ieUEIPAddress)
                       && bool_decide (is_Some (createModifiedUEIPIE m g newUEIP)))).
  2:{ intros g _. destruct (ieType g =? ieUEIPAddress); [reflexivity|].
      apply bool_decide_eq_false_2. intros [? ?]. discriminate. }
  destruct (existsb _ _); [|reflexivity].
  do 2 f_equal. apply list_fmap_ext. intros i g _.
  destruct (ieType g =? ieUEIPAddress); reflexivity.
Qed.

Lemma modifyUEIPInPDR_spec (m : Modifier) (pdr : IE) (newUEIP : IP) :
  modifyUEIPInPDR m pdr newUEIP =
    if existsb (fun c => (ieType c =? iePDI) && (modifyUEIPInPDI m c newUEIP).2)
               (ChildIEs pdr)
    then
      let newPDR :=
        ie_NewCreatePDR ((fun c => if ieType c =? iePDI
                                   then (modifyUEIPInPDI m c newUEIP).1 else c)
                           <$> ChildIEs pdr) in
      Some {| ieType := ieType pdr; iePayload := iePayload newPDR;
              ChildIEs := ChildIEs newPDR |}
    else None.
Proof.
  unfold modifyUEIPInPDR. destruct (ChildIEs pdr) as [|c rest] eqn:Hch; [reflexivity|].
  rewrite rewriteChildren_spec.
  rewrite (existsb_ext_in _
             (fun c => (ieType c =? iePDI) && (modifyUEIPInPDI m c newUEIP).2)).
  2:{ intros g _. destruct (ieType g =? iePDI).
      - destruct (modifyUEIPInPDI m g newUEIP) as [mp [|]]; cbn [snd andb].
        + apply bool_decide_eq_true_2. eauto.
        + apply bool_decide_eq_false_2. intros [? ?]. discriminate.
      - apply bool_decide_eq_false_2. intros [? ?]. discriminate. }
  destruct (existsb _ _); [|reflexivity].
  cbv zeta.
  assert (Heq : (fun c0 : IE =>
                   default c0
                     (if ieType c0 =? iePDI
                      then let '(modifiedPDI, pdiModified) := modifyUEIPInPDI m c0 newUEIP in
                           if pdiModified then Some modifiedPDI else None
                      else None)) <$> c :: rest
                = (fun c0 => if ieType c0 =? iePDI
                             then (modifyUEIPInPDI m c0 newUEIP).1 else c0) <$> c :: rest).
  { apply list_fmap_ext. intros i g Hg.
    destruct (ieType g =? iePDI); [|reflexivity].
    rewrite modifyUEIPInPDI_spec. destruct (existsb _ _); reflexivity. }
  rewrite Heq. reflexivity.
Qed.

(** X18. The search for UE IP addresses is positional and two levels
    deep. A PDI is rebuilt exactly when one of its direct children is a
    UE IP Address IE that gets a replacement, and a PDR exactly when
    one of its direct children is a PDI that was rebuilt; the rebuilt
    IE has the same number of children in the same order, with exactly
    those children replaced, and a rebuilt PDR keeps its type tag
    (Create PDR or Update PDR). *)
Theorem ue_ip_rewrite_is_positional (m : Modifier) (ie0 : IE) (newUEIP : IP) :
  modifyUEIPInPDI m ie0 newUEIP =
    (if existsb (fun g => (ieType g =? ieUEIPAddress)
                          && bool_decide (is_Some (createModifiedUEIPIE m g newUEIP)))
                (ChildIEs ie0)
     then (ie_NewPDI ((fun g => if ieType g =? ieUEIPAddress
                                then default g (createModifiedUEIPIE m g newUEIP)
                                else g) <$> ChildIEs ie0), true)
     else (ie0, false))
  /\ modifyUEIPInPDR m ie0 newUEIP =
     (if existsb (fun c => (ieType c =? iePDI) && (modifyUEIPInPDI m c newUEIP).2)
                 (ChildIEs ie0)
      then
        let newPDR :=
          ie_NewCreatePDR ((fun c => if ieType c =? iePDI
                                     then (modifyUEIPInPDI m c newUEIP).1 else c)
                             <$> ChildIEs ie0) in
        Some {| ieType := ieType ie0; iePayload := iePayload newPDR;
                ChildIEs := ChildIEs newPDR |}
      else None)
  /\ (forall pdr', modifyUEIPInPDR m ie0 newUEIP = Some pdr' -> ieType pdr' = ieType ie0).
Proof.
  split_and!.
  - apply modifyUEIPInPDI_spec.
  - apply modifyUEIPInPDR_spec.
  - intros pdr'. rewrite modifyUEIPInPDR_spec. destruct (existsb _ _); [|discriminate].
    cbv zeta. intros H. injection H as <-. reflexivity.
Qed.

(** X19. The list of PDRs keeps its frame: the rewritten list has the
    same length, a nil entry stays nil, and every other entry stays
    non-nil with its type tag unchanged. *)
Theorem pdr_list_keeps_frame (m : Modifier) (pdrs : list (option IE)) (newUEIP : IP) :
  length (modifyUEIPInCreatePDRs m pdrs newUEIP) = length pdrs
  /\ forall i,
       match pdrs !! i with
       | None => modifyUEIPInCreatePDRs m pdrs newUEIP !! i = None
       | Some None => modifyUEIPInCreatePDRs m pdrs newUEIP !! i = Some None
       | Some (Some pdr) =>
           exists pdr', modifyUEIPInCreatePDRs m pdrs newUEIP !! i = Some (Some pdr')
                        /\ ieType pdr' = ieType pdr
       end.
Proof.
  unfold modifyUEIPInCreatePDRs. split; [apply length_fmap|].
  intros i. rewrite list_lookup_fmap.
  destruct (pdrs !! i) as [[pdr|]|]; cbn; [|reflexivity|reflexivity].
  destruct (modifyUEIPInPDR m pdr newUEIP) as [pdr'|] eqn:H.
  - exists pdr'. split; [reflexivity|]. revert H.
    rewrite modifyUEIPInPDR_spec. destruct (existsb _ _); [|discriminate].
    cbv zeta. intros H. injection H as <-. reflexivity.
  - exists pdr. auto.
Qed.

(** X20. A request without a replaceable UE IP address is not
    disturbed: when no UE IP Address IE directly inside a PDI directly
    inside one of the PDRs gets a replacement (there is none, it does
    not parse, or IPv6 is kept and its V4 flag is clear), the PDR list
    comes back identical. *)
Theorem pdrs_without_address_untouched
    (m : Modifier) (pdrs : list (option IE)) (newUEIP : IP) :
  (forall pdr pdi g,
     Some pdr ∈ pdrs -> pdi ∈ ChildIEs pdr -> ieType pdi = iePDI ->
     g ∈ ChildIEs pdi -> ieType g = ieUEIPAddress ->
     createModifiedUEIPIE m g newUEIP = None) ->
  modifyUEIPInCreatePDRs m pdrs newUEIP = pdrs.
Proof.
  intros Hnone. unfold modifyUEIPInCreatePDRs.
  rewrite <- (list_fmap_id pdrs) at 2. apply list_fmap_ext.
  intros i [pdr|] Hi; [|reflexivity]. cbn.
  assert (Hin : Some pdr ∈ pdrs) by (eapply list_elem_of_lookup_2; exact Hi).
  rewrite modifyUEIPInPDR_spec.
  rewrite (existsb_ext_in _ (fun _ => false)).
  { assert (Hf : forall l : list IE, existsb (fun _ => false) l = false)
      by (induction l; auto).
    rewrite Hf. reflexivity. }
  intros pdi Hpdi. destruct (Z.eqb_spec (ieType pdi) iePDI) as [Ht|]; [|reflexivity].
  cbn [andb]. rewrite modifyUEIPInPDI_spec.
  rewrite (existsb_ext_in _ (fun _ => false)).
  { assert (Hf : forall l : list IE, existsb (fun _ => false) l = false)
      by (induction l; auto).
    rewrite Hf. reflexivity. }
  intros g Hg. destruct (Z.eqb_spec (ieType g) ieUEIPAddress) as [Hu|]; [|reflexivity].
  cbn [andb]. rewrite (Hnone pdr pdi g) by assumption.
  apply bool_decide_eq_false_2. intros [? ?]. discriminate.
Qed.


Lemma testbit_pow2_other (n i : Z) : 0 <= n -> i <> n -> Z.testbit (2 ^ n) i = false.
Proof. intros Hn Hi. rewrite Z.pow2_bits_eqb by assumption. apply Z.eqb_neq. lia. Qed.

Lemma strip_bits (F i : Z) :
  Z.testbit (Z.ldiff (Z.ldiff (Z.lor (Z.ldiff F 1) 2) 8) 64) i =
    if (i =? 0) || (i =? 3) || (i =? 6) then false
    else if i =? 1 then true else Z.testbit F i.
Proof.
  rewrite !Z.ldiff_spec, Z.lor_spec, Z.ldiff_spec.
  destruct (Z.eqb_spec i 0) as [->|H0]; [cbn; rewrite andb_false_r; reflexivity|].
  destruct (Z.eqb_spec i 3) as [->|H3]; [cbn; rewrite andb_false_r; reflexivity|].
  destruct (Z.eqb_spec i 6) as [->|H6]; [cbn; rewrite andb_false_r; reflexivity|].
  cbn [orb].
  change 1 with (2 ^ 0) at 1. change 8 with (2 ^ 3). change 64 with (2 ^ 6).
  rewrite (testbit_pow2_other 0), (testbit_pow2_other 3), (testbit_pow2_other 6) by lia.
  cbn [negb]. rewrite !andb_true_r.
  destruct (Z.eqb_spec i 1) as [->|H1]; [apply orb_true_r|].
  change 2 with (2 ^ 1). rewrite (testbit_pow2_other 1) by lia. apply orb_false_r.
Qed.

(** X21. With IPv6 stripping on, a UE IP Address IE that parses is
    always replaced, by an IE carrying the allocated address as IPv4
    address and no IPv6 address, whose flags are the original flags
    with the V6 bit (0), the IPv6D bit (3) and the IP6PL bit (6)
    cleared and the V4 bit (1) set; every other bit is as it was, and
    the flags still fit in a byte. An IE that does not parse is never
    replaced, in either mode. *)
Theorem strip_ipv6_rewrites_flags
    (m : Modifier) (original : IE) (newUEIP : IP) (f : UEIPAddressFields) :
  stripIPv6 m = true -> ie_UEIPAddress original = Some f ->
  (exists flags',
     createModifiedUEIPIE m original newUEIP
       = Some (ie_NewUEIPAddress flags' (ipString newUEIP) "" 0 0)
     /\ Z.testbit flags' 0 = false /\ Z.testbit flags' 1 = true
     /\ Z.testbit flags' 3 = false /\ Z.testbit flags' 6 = false
     /\ (forall i, i <> 0 -> i <> 1 -> i <> 3 -> i <> 6 ->
                   Z.testbit flags' i = Z.testbit (Flags f) i)
     /\ (0 <= Flags f < 256 -> 0 <= flags' < 256))
  /\ (forall m' other, ie_UEIPAddress other = None ->
                       createModifiedUEIPIE m' other newUEIP = None).
Proof.
  intros Hstrip Hparse. split.
  - eexists. unfold createModifiedUEIPIE. rewrite Hparse, Hstrip. cbv zeta.
    split; [reflexivity|].
    split_and!.
    + rewrite strip_bits. reflexivity.
    + rewrite strip_bits. reflexivity.
    + rewrite strip_bits. reflexivity.
    + rewrite strip_bits. reflexivity.
    + intros i H0 H1 H3 H6. rewrite strip_bits.
      destruct (Z.eqb_spec i 0); [contradiction|].
      destruct (Z.eqb_spec i 3); [contradiction|].
      destruct (Z.eqb_spec i 6); [contradiction|].
      destruct (Z.eqb_spec i 1); [contradiction|]. reflexivity.
    + intros HF.
      set (g := Z.ldiff (Z.ldiff (Z.lor (Z.ldiff (Flags f) 1) 2) 8) 64).
      assert (Hmod : g = g mod 2 ^ 8).
      { apply Z.bits_inj'. intros i Hi.
        destruct (Z.lt_ge_cases i 8) as [Hlt|Hge].
        - rewrite Z.mod_pow2_bits_low by lia. reflexivity.
        - rewrite Z.mod_pow2_bits_high by lia. unfold g. rewrite strip_bits.
          destruct (Z.eqb_spec i 0); [lia|].
          destruct (Z.eqb_spec i 3); [lia|].
          destruct (Z.eqb_spec i 6); [lia|].
          destruct (Z.eqb_spec i 1); [lia|]. cbn [orb].
          rewrite <- (Z.mod_small (Flags f) (2 ^ 8)) by lia.
          apply Z.mod_pow2_bits_high. lia. }
      rewrite Hmod. change (2 ^ 8) with 256. apply Z.mod_pos_bound. lia.
  - intros m' other Hnone. unfold createModifiedUEIPIE. rewrite Hnone. reflexivity.
Qed.

(** X22. [ExtractCause] looks at the first Cause IE only: the result is
    what that IE parses to, an error if it does not parse, whatever
    follows it; and it reports "no Cause IE found" exactly when no IE
    of the list has the Cause type. *)
Theorem extract_cause_takes_first (before following : list IE) (c : IE) :
  (forall i, i ∈ before -> ieType i <> ieCause) ->
  (ieType c = ieCause ->
   ExtractCause (before ++ c :: following)
     = match ie_Cause c with
       | Some cause => Ok cause
       | None => Err ErrParseCause
       end)
  /\ ExtractCause before = Err ErrNoCause
  /\ (forall l, ExtractCause l = Err ErrNoCause ->
                forall i, i ∈ l -> ieType i <> ieCause).
Proof.
  intros Hbefore. split_and!.
  - intros Hc. induction before as [|b rest IH]; cbn [app ExtractCause].
    + rewrite Hc, Z.eqb_refl. reflexivity.
    + destruct (Z.eqb_spec (ieType b) ieCause) as [Hb|_].
      * exfalso. exact (Hbefore b (list_elem_of_here _ _) Hb).
      * apply IH. intros i Hi. apply Hbefore, list_elem_of_further, Hi.
  - induction before as [|b rest IH]; cbn [ExtractCause]; [reflexivity|].
    destruct (Z.eqb_spec (ieType b) ieCause) as [Hb|_].
    + exfalso. exact (Hbefore b (list_elem_of_here _ _) Hb).
    + apply IH. intros i Hi. apply Hbefore, list_elem_of_further, Hi.
  - induction l as [|b rest IH]; intros H i Hi; [inversion Hi|].
    cbn [ExtractCause] in H.
    destruct (Z.eqb_spec (ieType b) ieCause) as [Hb|Hb].
    + destruct (ie_Cause b); discriminate.
    + apply elem_of_cons in Hi as [->|Hi]; [assumption|]. apply IH; assumption.
Qed.

(** X23. What [ModifySessionEstablishment] leaves in the request: the
    header SEID is 0 and the sequence number the given one. If the
    request had a CP F-SEID, the new one is built from the local SEID,
    with the configured SMF address if there is one and otherwise the
    addresses of the old IE, none at all if the old IE does not parse;
    reading it back gives the local SEID, provided the codec reads back
    the SEID it wrote. If the request had no CP F-SEID it still has
    none. *)
Theorem establishment_carries_local_seid
    (m : Modifier) (req : SessionEstablishmentRequest) (localSEID : Z) (ueIP : IP)
    (seqNum : Z) :
  (forall s v4 v6, fSEID <$> ie_FSEID (ie_NewFSEID s v4 v6) = Some s) ->
  seHeader (ModifySessionEstablishment m req localSEID ueIP seqNum)
    = {| hdrSEID := 0; hdrSequenceNumber := seqNum |}
  /\ (forall old, seCPFSEID req = Some old ->
        ExtractCPSEID (ModifySessionEstablishment m req localSEID ueIP seqNum)
          = Ok localSEID
        /\ (smfIP m = None ->
            seCPFSEID (ModifySessionEstablishment m req localSEID ueIP seqNum)
              = Some (match ie_FSEID old with
                      | Some f => ie_NewFSEID localSEID (IPv4Address f) (IPv6Address f)
                      | None => ie_NewFSEID localSEID None None
                      end))
        /\ (forall ip, smfIP m = Some ip ->
              seCPFSEID (ModifySessionEstablishment m req localSEID ueIP seqNum)
                = Some (if isIPv4 ip then ie_NewFSEID localSEID (Some ip) None
                        else ie_NewFSEID localSEID None (Some ip))))
  /\ (seCPFSEID req = None ->
      seCPFSEID (ModifySessionEstablishment m req localSEID ueIP seqNum) = None
      /\ ExtractCPSEID (ModifySessionEstablishment m req localSEID ueIP seqNum)
         = Err ErrNoCPFSEID).
Proof.
  intros Hlaw. split_and!.
  - reflexivity.
  - intros old Hold. split_and!.
    + unfold ExtractCPSEID, ModifySessionEstablishment. cbn [seCPFSEID]. rewrite Hold.
      destruct (match smfIP m with
                | Some ip => if isIPv4 ip then (Some ip, None) else (None, Some ip)
                | None => match ie_FSEID old with
                          | Some fseid => (IPv4Address fseid, IPv6Address fseid)
                          | None => (None, None)
                          end
                end) as [v4 v6].
      specialize (Hlaw localSEID v4 v6).
      destruct (ie_FSEID (ie_NewFSEID localSEID v4 v6)) as [f|]; [|discriminate].
      cbn in Hlaw. injection Hlaw as ->. reflexivity.
    + intros Hsmf. unfold ModifySessionEstablishment. cbn [seCPFSEID].
      rewrite Hold, Hsmf. destruct (ie_FSEID old); reflexivity.
    + intros ip Hsmf. unfold ModifySessionEstablishment. cbn [seCPFSEID].
      rewrite Hold, Hsmf. destruct (isIPv4 ip); reflexivity.
  - intros Hnone. unfold ExtractCPSEID, ModifySessionEstablishment. cbn [seCPFSEID].
    rewrite Hnone. auto.
Qed.

End ModifierMore.

Section ModifierSamples.
Import Pfcp Samples MoreSamples.

Lemma strip_ipv6_rewrites_flags_witness :
  (exists flags',
     createModifiedUEIPIE (codec := addressCodec) (NewModifier None true)
       dualStackAddress [10; 60; 0; 1]
       = Some (ie_NewUEIPAddress (Codec := addressCodec) flags'
                 (ipString (Codec := addressCodec) [10; 60; 0; 1]) "" 0 0)
     /\ Z.testbit flags' 0 = false /\ Z.testbit flags' 1 = true
     /\ Z.testbit flags' 3 = false /\ Z.testbit flags' 6 = false
     /\ (forall i, i <> 0 -> i <> 1 -> i <> 3 -> i <> 6 ->
                   Z.testbit flags' i
                   = Z.testbit (Flags {| Flags := 73; ueIPv4Address := None;
                                         ueIPv6Address := None;
                                         IPv6PrefixDelegationBits := 0;
                                         IPv6PrefixLength := 0 |}) i)
     /\ (0 <= Flags {| Flags := 73; ueIPv4Address := None; ueIPv6Address := None;
                       IPv6PrefixDelegationBits := 0; IPv6PrefixLength := 0 |} < 256 ->
         0 <= flags' < 256))
  /\ (forall m' other, ie_UEIPAddress (Codec := addressCodec) other = None ->
                       createModifiedUEIPIE (codec := addressCodec) m' other
                         [10; 60; 0; 1] = None).
Proof.
  apply (strip_ipv6_rewrites_flags (codec := addressCodec)); reflexivity.
Defined.

Lemma pdrs_without_address_untouched_witness :
  modifyUEIPInCreatePDRs (codec := sampleCodec) (NewModifier None true)
    [Some (MkIE ieCreatePDR [] [MkIE iePDI [] [MkIE ieUEIPAddress [2] []]]); None]
    [10; 60; 0; 1]
  = [Some (MkIE ieCreatePDR [] [MkIE iePDI [] [MkIE ieUEIPAddress [2] []]]); None].
Proof.
  apply (pdrs_without_address_untouched (codec := sampleCodec)).
  intros pdr pdi g _ _ _ _ _. reflexivity.
Defined.

Lemma extract_cause_takes_first_witness :
  (ieType (MkIE ieCause [64] []) = ieCause ->
   ExtractCause (codec := sampleCodec)
     ([MkIE ieNodeID [] []] ++ MkIE ieCause [64] [] :: [MkIE ieCause [1] []])
     = match ie_Cause (Codec := sampleCodec) (MkIE ieCause [64] []) with
       | Some cause => Ok cause
       | None => Err ErrParseCause
       end)
  /\ ExtractCause (codec := sampleCodec) [MkIE ieNodeID [] []] = Err ErrNoCause
  /\ (forall l, ExtractCause (codec := sampleCodec) l = Err ErrNoCause ->
                forall i, i ∈ l -> ieType i <> ieCause).
Proof.
  apply (extract_cause_takes_first (codec := sampleCodec)).
  intros i Hi. apply list_elem_of_singleton in Hi. subst i. vm_compute. discriminate.
Defined.

Lemma establishment_carries_local_seid_witness :
  seHeader (ModifySessionEstablishment (codec := sampleCodec) (NewModifier None true)
              establishment 1 [10; 60; 0; 1] 1)
    = {| hdrSEID := 0; hdrSequenceNumber := 1 |}
  /\ (forall old, seCPFSEID establishment = Some old ->
        ExtractCPSEID (codec := sampleCodec)
          (ModifySessionEstablishment (codec := sampleCodec) (NewModifier None true)
             establishment 1 [10; 60; 0; 1] 1)
          = Ok 1
        /\ (smfIP (NewModifier None true) = None ->
            seCPFSEID (ModifySessionEstablishment (codec := sampleCodec)
                         (NewModifier None true) establishment 1 [10; 60; 0; 1] 1)
              = Some (match ie_FSEID (Codec := sampleCodec) old with
                      | Some f => ie_NewFSEID (Codec := sampleCodec) 1
                                    (IPv4Address f) (IPv6Address f)
                      | None => ie_NewFSEID (Codec := sampleCodec) 1 None None
                      end))
        /\ (forall ip, smfIP (NewModifier None true) = Some ip ->
              seCPFSEID (ModifySessionEstablishment (codec := sampleCodec)
                           (NewModifier None true) establishment 1 [10; 60; 0; 1] 1)
                = Some (if isIPv4 ip
                        then ie_NewFSEID (Codec := sampleCodec) 1 (Some ip) None
                        else ie_NewFSEID (Codec := sampleCodec) 1 None (Some ip))))
  /\ (seCPFSEID establishment = None ->
      seCPFSEID (ModifySessionEstablishment (codec := sampleCodec) (NewModifier None true)
                   establishment 1 [10; 60; 0; 1] 1) = None
      /\ ExtractCPSEID (codec := sampleCodec)
           (ModifySessionEstablishment (codec := sampleCodec) (NewModifier None true)
              establishment 1 [10; 60; 0; 1] 1)
         = Err ErrNoCPFSEID).
Proof.
  apply (establishment_carries_local_seid (codec := sampleCodec)).
  intros s v4 v6. reflexivity.
Defined.

End ModifierSamples.

(** * Further properties: session manager *)
Section SequenceNumbers.
Import Session SessionMore.

Lemma Next_small c : 0 <= c < 16777215 -> Next c = c + 1.
Proof.
  intros Hc. unfold Next. cbv zeta. rewrite Z.mod_small by lia.
  destruct (Z.ltb_spec 16777215 (c + 1)); [lia|reflexivity].
Qed.

Lemma Next_top : Next 16777215 = 1.
Proof. reflexivity. Qed.

Lemma seqAfter_formula (k : nat) :
  seqAfter (S k) 0 = Z.of_nat k mod 16777215 + 1.
Proof.
  induction k as [|k IH]; [reflexivity|].
  change (seqAfter (S (S k)) 0) with (Next (seqAfter (S k) 0)). rewrite IH.
  pose proof (Z.mod_pos_bound (Z.of_nat k) 16777215 ltac:(lia)) as Hr.
  rewrite Nat2Z.inj_succ. unfold Z.succ.
  rewrite <- (Z.add_mod_idemp_l (Z.of_nat k)) by lia.
  destruct (Z.eq_dec (Z.of_nat k mod 16777215) 16777214) as [E|E].
  - rewrite E. reflexivity.
  - rewrite Next_small by lia. rewrite (Z.mod_small (_ + 1)) by lia. reflexivity.
Qed.

(** X24. Sequence numbers: from any counter value the program can
    hold, [Next] yields a value from 1 to 0xFFFFFF, never 0: the value
    plus one, and 1 after 0xFFFFFF. The [k]-th number taken from a new
    counter is [(k - 1) mod 0xFFFFFF + 1], so the numbers repeat with
    period 0xFFFFFF and not before. *)
Theorem sequence_numbers_cycle (c : Z) (k j : nat) :
  0 <= c <= 16777215 ->
  1 <= Next c <= 16777215
  /\ (c < 16777215 -> Next c = c + 1)
  /\ (c = 16777215 -> Next c = 1)
  /\ seqAfter (S k) 0 = Z.of_nat k mod 16777215 + 1
  /\ (seqAfter (S k) 0 = seqAfter (S j) 0 <->
      Z.of_nat k mod 16777215 = Z.of_nat j mod 16777215).
Proof.
  intros Hc. split; [|split_and!].
  - destruct (Z.eq_dec c 16777215) as [->|]; [rewrite Next_top; lia|].
    rewrite Next_small by lia. lia.
  - intros H. apply Next_small. lia.
  - intros ->. apply Next_top.
  - apply seqAfter_formula.
  - rewrite !seqAfter_formula. lia.
Qed.

Lemma sequence_numbers_cycle_witness :
  1 <= Next 16777215 <= 16777215
  /\ (16777215 < 16777215 -> Next 16777215 = 16777215 + 1)
  /\ (16777215 = 16777215 -> Next 16777215 = 1)
  /\ seqAfter 3 0 = Z.of_nat 2 mod 16777215 + 1
  /\ (seqAfter 3 0 = seqAfter 2 0 <->
      Z.of_nat 2 mod 16777215 = Z.of_nat 1 mod 16777215).
Proof.
  apply (sequence_numbers_cycle 16777215 2 1). lia.
Defined.

End SequenceNumbers.

Section ManagerMore.
Import Pfcp Session SessionMore.
Context {codec : Codec}.

Lemma foldl_mappings_other (l : list (Z * Z)) : forall (acc : gmap Z Z) cp,
  (forall r, (cp, r) ∉ l) ->
  foldl (fun acc '(cp, remote) => <[ cp := remote ]> acc) acc l !! cp = acc !! cp.
Proof.
  induction l as [|[cp0 r0] l IH]; intros acc cp Hnot; [reflexivity|].
  cbn [foldl]. rewrite IH.
  - apply lookup_insert_ne. intros ->. apply (Hnot r0), list_elem_of_here.
  - intros r Hin. apply (Hnot r), list_elem_of_further, Hin.
Qed.

(** X25. [SetSEIDMappings] keeps, for every recorded CP SEID, the
    remote SEID of the last mapping given for it; a CP SEID that does
    not occur among the new mappings keeps what was registered before;
    nothing else in the manager changes. *)
Theorem seid_mappings_last_wins
    (m : Manager) (before following : list (Z * Z)) (cp remote : Z) :
  (forall r, (cp, r) ∉ following) ->
  originalSEIDMappings (SetSEIDMappings m (before ++ (cp, remote) :: following)) !! cp
    = Some remote
  /\ originalSEIDMappings (SetSEIDMappings m following) !! cp
     = originalSEIDMappings m !! cp
  /\ sessions (SetSEIDMappings m following) = sessions m
  /\ byOriginalCPSEID (SetSEIDMappings m following) = byOriginalCPSEID m
  /\ byOriginalRemoteSEID (SetSEIDMappings m following) = byOriginalRemoteSEID m
  /\ byLocalSEID (SetSEIDMappings m following) = byLocalSEID m.
Proof.
  intros Hnot. unfold SetSEIDMappings. cbn. split_and!; try reflexivity.
  - rewrite foldl_app. cbn [foldl].
    rewrite foldl_mappings_other by assumption. apply lookup_insert_eq.
  - apply foldl_mappings_other. assumption.
Qed.


(** The session [handleSessionEstablishment] stores for a request, once
    the peer has accepted it with UP SEID [remoteSEID]. *)
Lemma establishment_success_inv w m m' req :
  handleSessionEstablishment w m req = Some (m', None) ->
  exists localSEID alloc g ueIP pool data resp remoteSEID,
    SEIDAlloc.Allocate (rng m) (seidAlloc m) = (Ok localSEID, alloc, g) /\
    IPPool.Allocate (ipPool m) = Some (Ok ueIP, pool) /\
    Encode (MsgSessionEstablishmentRequest
              (ModifySessionEstablishment (modifier m) req localSEID (ipBytes ueIP)
                 (Next (seqCounter m)))) = Ok data /\
    wSendFails w = false /\ Tracker.Error (wResult w) = None /\
    Decode (Tracker.Response (wResult w)) = Ok (MsgSessionEstablishmentResponse resp) /\
    (forall c cause, srCause resp = Some c -> ie_Cause c = Some cause ->
                     cause = CauseRequestAccepted) /\
    ExtractRemoteSEID resp = Ok remoteSEID /\
    sessions m' !! nextSession m
      = Some {| OriginalCPSEID := match ExtractCPSEID req with Ok v => v | Err _ => 0 end;
                OriginalRemoteSEID :=
                  default 0 (originalSEIDMappings m
                               !! match ExtractCPSEID req with Ok v => v | Err _ => 0 end);
                LocalSEID := localSEID; RemoteSEID := remoteSEID; UEIP := Some ueIP;
                State := "established"; CreatedAt := wNow w |} /\
    (forall q, q <> nextSession m -> sessions m' !! q = sessions m !! q) /\
    seidAlloc m' = alloc /\ rng m' = g /\ ipPool m' = pool /\
    seqCounter m' = Next (seqCounter m) /\ nextSession m' = S (nextSession m) /\
    byOriginalCPSEID m'
      = <[ match ExtractCPSEID req with Ok v => v | Err _ => 0 end := nextSession m ]>
          (byOriginalCPSEID m) /\
    byLocalSEID m' = <[ localSEID := nextSession m ]> (byLocalSEID m) /\
    byOriginalRemoteSEID m'
      = match originalSEIDMappings m
                !! match ExtractCPSEID req with Ok v => v | Err _ => 0 end with
        | Some r => <[ r := nextSession m ]> (byOriginalRemoteSEID m)
        | None => byOriginalRemoteSEID m
        end /\
    originalSEIDMappings m' = originalSEIDMappings m /\
    modifier m' = modifier m /\ associationEnabled m' = associationEnabled m /\
    tracked m' = tracked m ++ [(Next (seqCounter m), data)] /\
    sent m' = sent m ++ [data] /\
    stats m' = stats m ++ [RecordSent "SessionEstablishmentRequest";
                           RecordReceived "SessionEstablishmentResponse";
                           RecordSuccess "SessionEstablishmentRequest"
                             (Tracker.ResponseTime (wResult w));
                           RecordSessionEstablished].
Proof.
  intros H. unfold handleSessionEstablishment in H.
  set (cp := match ExtractCPSEID req with Ok v => v | Err _ => 0 end) in *.
  destruct (SEIDAlloc.Allocate (rng m) (seidAlloc m)) as [[[localSEID|ae] alloc] g] eqn:HA;
    [|discriminate].
  destruct (IPPool.Allocate (ipPool m)) as [[[ueIP|pe] pool]|] eqn:HP; try discriminate.
  unfold registerSession in H.
  cbn [withAllocators originalSEIDMappings OriginalCPSEID] in H.
  exists localSEID, alloc, g, ueIP, pool.
  destruct (originalSEIDMappings m !! cp) as [r|] eqn:Hmap;
    cbn [takeSeq modifier seqCounter fst snd] in H;
    (destruct (Encode _) as [data|ee] eqn:HE; [|discriminate]);
    unfold exchange in H;
    (destruct (wSendFails w) eqn:Hsend; [discriminate|]);
    (destruct (Tracker.Error (wResult w)) as [te|] eqn:Herr; [discriminate|]);
    unfold establishmentResponse in H;
    (destruct (Decode (Tracker.Response (wResult w)))
       as [[a|a|a|a|a|resp|t h i]|de] eqn:HD; try discriminate);
    (destruct (match srCause resp with
               | Some c => match ie_Cause c with
                           | Some cause =>
                               if cause =? CauseRequestAccepted then None else Some cause
                           | None => None
                           end
               | None => None
               end) as [cause|] eqn:Hcause; [discriminate|]);
    (destruct (ExtractRemoteSEID resp) as [remoteSEID|xe] eqn:HX; [|discriminate]);
    injection H as <-;
    exists data, resp, remoteSEID;
    (assert (Hacc : forall c cause, srCause resp = Some c -> ie_Cause c = Some cause ->
                                    cause = CauseRequestAccepted);
     [intros c cause0 Hc Hic; rewrite Hc, Hic in Hcause;
      destruct (Z.eqb_spec cause0 CauseRequestAccepted); [assumption|discriminate]|]);
    cbn; rewrite ?lookup_alter_eq, ?lookup_insert_eq; cbn;
    split_and!; try reflexivity; try assumption;
    first [ intros q Hq; rewrite lookup_alter_ne, lookup_insert_ne by congruence;
            reflexivity
          | rewrite <- !app_assoc; reflexivity ].
Qed.


(** X26. What a successful establishment leaves behind. If the handler
    returns no error, the response was a Session Establishment Response
    whose cause, if present and readable, is "request accepted" (a
    response without a readable cause counts as accepted) and whose UP
    F-SEID could be read; the session stored for the request is in
    state "established" with that SEID as its remote SEID, holds a
    local SEID and a UE IP address that were free before and are held
    now, and is entered in the tables under its local SEID and its
    original CP SEID; one datagram was registered with the tracker
    under the next sequence number and sent. *)
Theorem accepted_establishment_result
    (w : World) (m m' : Manager) (req : SessionEstablishmentRequest) :
  handleSessionEstablishment w m req = Some (m', None) ->
  exists session resp remoteSEID ueIP data,
    Decode (Tracker.Response (wResult w)) = Ok (MsgSessionEstablishmentResponse resp) /\
    (forall c cause, srCause resp = Some c -> ie_Cause c = Some cause ->
                     cause = CauseRequestAccepted) /\
    ExtractRemoteSEID resp = Ok remoteSEID /\
    sessions m' !! nextSession m = Some session /\
    State session = "established" /\ RemoteSEID session = remoteSEID /\
    OriginalCPSEID session = match ExtractCPSEID req with Ok v => v | Err _ => 0 end /\
    (LocalSEID session ∉ SEIDAlloc.usedSEIDs (seidAlloc m)) /\
    LocalSEID session ∈ SEIDAlloc.usedSEIDs (seidAlloc m') /\
    UEIP session = Some ueIP /\
    (ueIP ∉ IPPool.allocated (ipPool m)) /\ ueIP ∈ IPPool.allocated (ipPool m') /\
    byLocalSEID m' !! LocalSEID session = Some (nextSession m) /\
    byOriginalCPSEID m' !! OriginalCPSEID session = Some (nextSession m) /\
    tracked m' = tracked m ++ [(Next (seqCounter m), data)] /\
    sent m' = sent m ++ [data] /\
    Encode (MsgSessionEstablishmentRequest
              (ModifySessionEstablishment (modifier m) req (LocalSEID session)
                 (ipBytes ueIP) (Next (seqCounter m)))) = Ok data.
Proof.
  intros H.
  destruct (establishment_success_inv w m m' req H)
    as (localSEID & alloc & g & ueIP & pool & data & resp & remoteSEID &
        HA & HP & HE & Hsend & Herr & HD & Hacc & HX & Hsess & Hothers &
        Hal & Hg & Hpool & Hseq & Hnext & HbCP & HbL & HbR & Hmap & Hmod & Hen &
        Htr & Hsent & Hstats).
  apply Allocate_success in HA as (_ & Hfresh & Hused & _).
  apply Allocate_allocated in HP as (_ & Hfree & Hheld).
  eexists _, resp, remoteSEID, ueIP, data.
  split_and!; try eassumption; try reflexivity; cbn [LocalSEID OriginalCPSEID].
  - rewrite Hal, Hused. set_solver.
  - rewrite Hpool, Hheld. set_solver.
  - rewrite HbL. apply lookup_insert_eq.
  - rewrite HbCP. apply lookup_insert_eq.
Qed.

Lemma modification_sent w m req session data :
  findSession m (hdrSEID (smHeader req)) = Some session ->
  wSendFails w = false ->
  Encode (MsgSessionModificationRequest
            (ModifySessionModification (modifier m) req (RemoteSEID session)
               (ipBytes <$> UEIP session) (Next (seqCounter m)))) = Ok data ->
  sent (handleSessionModification w m req).1 = sent m ++ [data] /\
  tracked (handleSessionModification w m req).1
    = tracked m ++ [(Next (seqCounter m), data)].
Proof.
  intros Hfind Hsend HE. unfold handleSessionModification.
  change (ExtractHeaderSEID (MsgSessionModificationRequest req))
    with (hdrSEID (smHeader req)).
  rewrite Hfind. cbn [takeSeq modifier]. rewrite HE.
  unfold exchange. rewrite Hsend.
  destruct (Tracker.Error (wResult w)); split; reflexivity.
Qed.

Lemma deletion_sent w m req session data :
  findSession m (hdrSEID (sdHeader req)) = Some session ->
  wSendFails w = false ->
  Encode (MsgSessionDeletionRequest
            (ModifySessionDeletion req (RemoteSEID session) (Next (seqCounter m))))
    = Ok data ->
  sent (handleSessionDeletion w m req).1 = sent m ++ [data] /\
  tracked (handleSessionDeletion w m req).1
    = tracked m ++ [(Next (seqCounter m), data)].
Proof.
  intros Hfind Hsend HE. unfold handleSessionDeletion.
  change (ExtractHeaderSEID (MsgSessionDeletionRequest req))
    with (hdrSEID (sdHeader req)).
  unfold findSession in Hfind.
  destruct (findSessionByOriginalRemoteSEID m (hdrSEID (sdHeader req))) as [p|];
    [|discriminate].
  rewrite Hfind. cbn [takeSeq]. rewrite HE.
  unfold exchange. rewrite Hsend.
  destruct (Tracker.Error (wResult w)); split; reflexivity.
Qed.

(** X27. The purpose of the tool, end to end. After an establishment
    the peer accepted with UP SEID [R'], a recorded modification or
    deletion request addressed to the recorded peer's SEID (the one the
    recording maps the session's CP SEID to, or the CP SEID itself when
    the recording gave no mapping and no other session is known under
    that number) is sent as the encoding of the request with header
    SEID [R'], the next sequence number and, for a modification, the
    UE IP address allocated at establishment. *)
Theorem established_session_is_addressed_by_live_seid
    (w w2 : World) (m m1 : Manager) (req : SessionEstablishmentRequest)
    (reqM : SessionModificationRequest) (reqD : SessionDeletionRequest) (S : Z) :
  handleSessionEstablishment w m req = Some (m1, None) ->
  originalSEIDMappings m !! match ExtractCPSEID req with Ok v => v | Err _ => 0 end
    = Some S
  \/ (S = match ExtractCPSEID req with Ok v => v | Err _ => 0 end /\
      originalSEIDMappings m !! S = None /\ byOriginalRemoteSEID m !! S = None) ->
  hdrSEID (smHeader reqM) = S -> hdrSEID (sdHeader reqD) = S ->
  wSendFails w2 = false ->
  exists resp remoteSEID ueIP,
    Decode (Tracker.Response (wResult w)) = Ok (MsgSessionEstablishmentResponse resp) /\
    ExtractRemoteSEID resp = Ok remoteSEID /\
    (exists session, findSession m1 S = Some session /\
                     RemoteSEID session = remoteSEID /\ UEIP session = Some ueIP) /\
    hdrSEID (smHeader (ModifySessionModification (modifier m1) reqM remoteSEID
                         (Some (ipBytes ueIP)) (Next (seqCounter m1)))) = remoteSEID /\
    (forall data,
       Encode (MsgSessionModificationRequest
                 (ModifySessionModification (modifier m1) reqM remoteSEID
                    (Some (ipBytes ueIP)) (Next (seqCounter m1)))) = Ok data ->
       sent (handleSessionModification w2 m1 reqM).1 = sent m1 ++ [data]) /\
    hdrSEID (sdHeader (ModifySessionDeletion reqD remoteSEID (Next (seqCounter m1))))
      = remoteSEID /\
    (forall data,
       Encode (MsgSessionDeletionRequest
                 (ModifySessionDeletion reqD remoteSEID (Next (seqCounter m1)))) = Ok data ->
       sent (handleSessionDeletion w2 m1 reqD).1 = sent m1 ++ [data]).
Proof.
  intros H Hkey HM HDel Hsend.
  destruct (establishment_success_inv w m m1 req H)
    as (localSEID & alloc & g & ueIP & pool & data & resp & remoteSEID &
        HA & HP & HE & _ & Herr & HD & Hacc & HX & Hsess & Hothers &
        Hal & Hg & Hpool & Hseq & Hnext & HbCP & HbL & HbR & Hmap & Hmod & Hen &
        Htr & Hsent & Hstats).
  set (cp := match ExtractCPSEID req with Ok v => v | Err _ => 0 end) in *.
  assert (Hfind : findSessionByOriginalRemoteSEID m1 S = Some (nextSession m)).
  { unfold findSessionByOriginalRemoteSEID. destruct Hkey as [Hkey|(-> & Hno & Hnone)].
    - rewrite HbR, Hkey, lookup_insert_eq. reflexivity.
    - rewrite HbR, Hno, Hnone, HbCP, lookup_insert_eq. reflexivity. }
  assert (Hfs : findSession m1 S
                = Some {| OriginalCPSEID := cp;
                          OriginalRemoteSEID := default 0 (originalSEIDMappings m !! cp);
                          LocalSEID := localSEID; RemoteSEID := remoteSEID;
                          UEIP := Some ueIP; State := "established";
                          CreatedAt := wNow w |}).
  { unfold findSession. rewrite Hfind. exact Hsess. }
  exists resp, remoteSEID, ueIP. split_and!; try assumption; try reflexivity.
  - eexists. split; [exact Hfs|]. split; reflexivity.
  - intros dataM HEM.
    rewrite <- HM in Hfs.
    exact (proj1 (modification_sent w2 m1 reqM _ dataM Hfs Hsend HEM)).
  - intros dataD HED.
    rewrite <- HDel in Hfs.
    exact (proj1 (deletion_sent w2 m1 reqD _ dataD Hfs Hsend HED)).
Qed.

(** X28. Deletion. When the peer answers a deletion request, the
    session's local SEID and UE IP address are released, its state
    becomes "deleted", and the deletion is counted; no other session
    changes and the session stays in the lookup tables. When the wait
    ends with an error instead (timeout or cancelled context), the
    handler returns that error and releases nothing: allocators and
    sessions are exactly as before. *)
Theorem deletion_releases_only_on_success
    (w : World) (m : Manager) (req : SessionDeletionRequest) (p : nat)
    (session : SessionInfo) (data : list Z) :
  findSessionByOriginalRemoteSEID m (hdrSEID (sdHeader req)) = Some p ->
  sessions m !! p = Some session ->
  Encode (MsgSessionDeletionRequest
            (ModifySessionDeletion req (RemoteSEID session) (Next (seqCounter m))))
    = Ok data ->
  wSendFails w = false ->
  (Tracker.Error (wResult w) = None ->
   exists m',
     handleSessionDeletion w m req = (m', None) /\
     SEIDAlloc.usedSEIDs (seidAlloc m')
       = SEIDAlloc.usedSEIDs (seidAlloc m) ∖ {[ LocalSEID session ]} /\
     IPPool.allocated (ipPool m')
       = match UEIP session with
         | Some ip => IPPool.allocated (ipPool m) ∖ {[ ip ]}
         | None => IPPool.allocated (ipPool m)
         end /\
     sessions m' !! p = Some (setState session "deleted") /\
     (forall q, q <> p -> sessions m' !! q = sessions m !! q) /\
     findSessionByOriginalRemoteSEID m' (hdrSEID (sdHeader req)) = Some p /\
     stats m' = stats m ++ [RecordSent "SessionDeletionRequest";
                            RecordReceived "SessionDeletionResponse";
                            RecordSuccess "SessionDeletionRequest"
                              (Tracker.ResponseTime (wResult w));
                            RecordSessionDeleted])
  /\ (forall e, Tracker.Error (wResult w) = Some e ->
       exists m',
         handleSessionDeletion w m req = (m', Some (ErrWait "SessionDeletionRequest" e)) /\
         seidAlloc m' = seidAlloc m /\ ipPool m' = ipPool m /\
         sessions m' = sessions m /\
         sent m' = sent m ++ [data]).
Proof.
  intros Hfind Hsess HE Hsend. split.
  - intros Herr. unfold handleSessionDeletion.
    change (ExtractHeaderSEID (MsgSessionDeletionRequest req))
      with (hdrSEID (sdHeader req)).
    rewrite Hfind, Hsess. cbn [takeSeq]. rewrite HE.
    unfold exchange. rewrite Hsend, Herr.
    eexists. split; [reflexivity|].
    cbn. rewrite lookup_alter_eq, Hsess. cbn.
    split_and!; try reflexivity.
    + destruct (UEIP session); reflexivity.
    + intros q Hq. apply lookup_alter_ne. congruence.
    + exact Hfind.
    + rewrite <- app_assoc. reflexivity.
  - intros e Herr. unfold handleSessionDeletion.
    change (ExtractHeaderSEID (MsgSessionDeletionRequest req))
      with (hdrSEID (sdHeader req)).
    rewrite Hfind, Hsess. cbn [takeSeq]. rewrite HE.
    unfold exchange. rewrite Hsend, Herr.
    eexists. split; [reflexivity|]. cbn. split_and!; reflexivity.
Qed.

(** X29. When the pool has no address for a new session, the SEID
    taken a moment before is released again: the handler returns the
    pool's error, the set of held SEIDs is what it was, no session is
    stored or entered in a table, nothing is registered or sent and no
    sequence number is used; only the failure is counted. *)
Theorem ip_exhaustion_releases_the_seid
    (w : World) (m : Manager) (req : SessionEstablishmentRequest)
    (localSEID : Z) (alloc : SEIDAlloc.SEIDAllocator) (g : SEIDAlloc.Rng)
    (e : IPPool.PoolError) (pool : IPPool.UEIPPool) :
  SEIDAlloc.Allocate (rng m) (seidAlloc m) = (Ok localSEID, alloc, g) ->
  IPPool.Allocate (ipPool m) = Some (Err e, pool) ->
  exists m',
    handleSessionEstablishment w m req = Some (m', Some (ErrAllocateUEIP e)) /\
    SEIDAlloc.usedSEIDs (seidAlloc m') = SEIDAlloc.usedSEIDs (seidAlloc m) /\
    IPPool.allocated (ipPool m') = IPPool.allocated (ipPool m) /\
    sessions m' = sessions m /\ byLocalSEID m' = byLocalSEID m /\
    byOriginalCPSEID m' = byOriginalCPSEID m /\
    byOriginalRemoteSEID m' = byOriginalRemoteSEID m /\
    tracked m' = tracked m /\ sent m' = sent m /\ seqCounter m' = seqCounter m /\
    stats m' = stats m ++ [RecordSessionFailed].
Proof.
  intros HA HP. unfold handleSessionEstablishment. rewrite HA, HP.
  eexists. split; [reflexivity|]. cbn.
  apply Allocate_success in HA as (_ & Hfresh & Hused & _).
  apply Allocate_allocated in HP as (_ & Hheld).
  split_and!; try reflexivity; [|exact Hheld].
  rewrite Hused. set_solver.
Qed.

(** One turn of the cleanup loop. *)
Lemma cleanupOne_step w m p :
  seidAlloc (cleanupOne w m p) = seidAlloc m /\
  ipPool (cleanupOne w m p) = ipPool m /\
  byLocalSEID (cleanupOne w m p) = byLocalSEID m /\
  byOriginalCPSEID (cleanupOne w m p) = byOriginalCPSEID m /\
  byOriginalRemoteSEID (cleanupOne w m p) = byOriginalRemoteSEID m /\
  (sessions (cleanupOne w m p) = sessions m \/
   sessions (cleanupOne w m p) = alter (fun s => setState s "deleted") p (sessions m)) /\
  (sent (cleanupOne w m p) = sent m \/
   exists session data,
     sessions m !! p = Some session /\
     Encode (cleanupRequest session (Next (seqCounter m))) = Ok data /\
     sent (cleanupOne w m p) = sent m ++ [data]).
Proof.
  unfold cleanupOne. destruct (sessions m !! p) as [session|] eqn:Hs;
    [|split_and!; auto].
  cbn [takeSeq]. destruct (Encode _) as [data|e] eqn:HE; [|split_and!; auto].
  destruct (wSendFails w); [split_and!; auto|].
  destruct (Tracker.Error (wResult w)); cbn; split_and!; eauto;
    right; exists session, data; auto.
Qed.

(** X30. [CleanupSessions] only sends deletion requests and marks
    sessions: in whatever order the sessions are visited, the held
    SEIDs and UE IP addresses and the lookup tables are as before
    (nothing is released, unlike in the deletion handler), a session
    either is as it was or has just its state set to "deleted", and
    every message sent is the encoding of a deletion request without
    IEs whose header SEID is the [RemoteSEID] of a visited session, at
    most one for each visit; once the context is done the loop stops. *)
Theorem cleanup_releases_nothing
    (cancelledAt : nat -> bool) (worldAt : nat -> World) (active : list nat) (m : Manager) :
  seidAlloc (cleanupLoop cancelledAt worldAt m active) = seidAlloc m
  /\ ipPool (cleanupLoop cancelledAt worldAt m active) = ipPool m
  /\ byLocalSEID (cleanupLoop cancelledAt worldAt m active) = byLocalSEID m
  /\ byOriginalCPSEID (cleanupLoop cancelledAt worldAt m active) = byOriginalCPSEID m
  /\ byOriginalRemoteSEID (cleanupLoop cancelledAt worldAt m active)
     = byOriginalRemoteSEID m
  /\ (forall p,
        sessions (cleanupLoop cancelledAt worldAt m active) !! p = sessions m !! p \/
        exists session,
          p ∈ active /\ sessions m !! p = Some session /\
          sessions (cleanupLoop cancelledAt worldAt m active) !! p
            = Some (setState session "deleted"))
  /\ (exists extra,
        sent (cleanupLoop cancelledAt worldAt m active) = sent m ++ extra /\
        (length extra <= length active)%nat /\
        Forall (fun data =>
                  exists p session seqNum,
                    p ∈ active /\ sessions m !! p = Some session /\
                    Encode (cleanupRequest session seqNum) = Ok data) extra)
  /\ (forall p rest, active = p :: rest -> cancelledAt p = true ->
        cleanupLoop cancelledAt worldAt m active = m).
Proof.
  revert m. induction active as [|p rest IH]; intros m.
  - cbn. split_and!; auto; try discriminate.
    exists []. rewrite app_nil_r. split_and!; auto.
  - cbn [cleanupLoop]. destruct (cancelledAt p) eqn:Hc.
    + split_and!; auto.
      exists []. rewrite app_nil_r. split_and!; [reflexivity|cbn; lia|constructor].
    + destruct (IH (cleanupOne (worldAt p) m p))
        as (I1 & I2 & I3 & I4 & I5 & I6 & (extra & I7 & I8 & I9) & _).
      destruct (cleanupOne_step (worldAt p) m p)
        as (S1 & S2 & S3 & S4 & S5 & S6 & S7).
      assert (Hkeep : forall q session,
                 sessions m !! q = Some session ->
                 exists session',
                   sessions (cleanupOne (worldAt p) m p) !! q = Some session' /\
                   RemoteSEID session' = RemoteSEID session /\
                   setState session' "deleted" = setState session "deleted" /\
                   (session' = session \/
                    (q = p /\ session' = setState session "deleted"))).
      { intros q session Hq. destruct S6 as [S6|S6]; rewrite S6.
        - exists session. auto.
        - destruct (decide (q = p)) as [->|Hne].
          + rewrite lookup_alter_eq, Hq. cbn. eexists. split_and!; eauto.
          + rewrite lookup_alter_ne by congruence. exists session. auto. }
      assert (Hnone : forall q, sessions m !! q = None ->
                                sessions (cleanupOne (worldAt p) m p) !! q = None).
      { intros q Hq. destruct S6 as [S6|S6]; rewrite S6; [exact Hq|].
        destruct (decide (q = p)) as [->|Hne].
        - rewrite lookup_alter_eq, Hq. reflexivity.
        - rewrite lookup_alter_ne by congruence. exact Hq. }
      split_and!; try congruence.
      * intros q. destruct (sessions m !! q) as [session|] eqn:Hq.
        -- destruct (Hkeep q session Hq) as (session' & Hq' & _ & Hdel & Hwhich).
           destruct (I6 q) as [E|(s1 & Hin & Hs1 & E)].
           ++ rewrite E, Hq'. destruct Hwhich as [->|[-> ->]]; [left; reflexivity|].
              right. exists session. split_and!; [apply list_elem_of_here|reflexivity..].
           ++ right. exists session. rewrite Hq' in Hs1. inversion Hs1; subst s1.
              split_and!; [apply list_elem_of_further, Hin|reflexivity|].
              rewrite E, Hdel. reflexivity.
        -- left. destruct (I6 q) as [E|(s1 & _ & Hs1 & _)].
           ++ rewrite E. apply Hnone, Hq.
           ++ rewrite (Hnone q Hq) in Hs1. discriminate.
      * assert (Hlift : Forall (fun data =>
                          exists q session seqNum,
                            q ∈ p :: rest /\ sessions m !! q = Some session /\
                            Encode (cleanupRequest session seqNum) = Ok data) extra).
        { eapply Forall_impl; [exact I9|]. cbn.
          intros data (q & s1 & seqNum & Hin & Hs1 & HE).
          destruct (sessions m !! q) as [session|] eqn:Hq.
          - destruct (Hkeep q session Hq) as (session' & Hq' & Hrem & _).
            rewrite Hq' in Hs1. inversion Hs1; subst s1.
            exists q, session, seqNum.
            split_and!; [apply list_elem_of_further, Hin|exact Hq|].
            unfold cleanupRequest in *. rewrite <- Hrem. exact HE.
          - rewrite (Hnone q Hq) in Hs1. discriminate. }
        destruct S7 as [S7|(session & data & Hs & HE & S7)].
        -- exists extra. rewrite I7, S7. split_and!; [reflexivity|cbn; lia|exact Hlift].
        -- exists (data :: extra). rewrite I7, S7, <- app_assoc.
           split_and!; [reflexivity|cbn; lia|].
           constructor; [|exact Hlift].
           exists p, session, (Next (seqCounter m)).
           split_and!; [apply list_elem_of_here|exact Hs|exact HE].
Qed.

End ManagerMore.

Section ManagerMoreSamples.
Import Pfcp Session SessionMore Samples ReplaySamples.

Lemma seid_mappings_last_wins_witness :
  originalSEIDMappings
    (SetSEIDMappings freshManager ([(1001, 9000)] ++ (1001, 9001) :: [(1002, 9002)]))
    !! 1001 = Some 9001
  /\ originalSEIDMappings (SetSEIDMappings freshManager [(1002, 9002)]) !! 1001
     = originalSEIDMappings freshManager !! 1001
  /\ sessions (SetSEIDMappings freshManager [(1002, 9002)]) = sessions freshManager
  /\ byOriginalCPSEID (SetSEIDMappings freshManager [(1002, 9002)])
     = byOriginalCPSEID freshManager
  /\ byOriginalRemoteSEID (SetSEIDMappings freshManager [(1002, 9002)])
     = byOriginalRemoteSEID freshManager
  /\ byLocalSEID (SetSEIDMappings freshManager [(1002, 9002)]) = byLocalSEID freshManager.
Proof.
  apply (seid_mappings_last_wins freshManager [(1001, 9000)] [(1002, 9002)] 1001 9001).
  intros r Hin. apply list_elem_of_singleton in Hin. discriminate.
Defined.


Lemma accepted_establishment_result_witness :
  exists session resp remoteSEID ueIP data,
    Decode (codec := sampleCodec) (Tracker.Response (wResult accepted))
      = Ok (MsgSessionEstablishmentResponse resp) /\
    (forall c cause, srCause resp = Some c -> ie_Cause (Codec := sampleCodec) c = Some cause ->
                     cause = CauseRequestAccepted) /\
    ExtractRemoteSEID (codec := sampleCodec) resp = Ok remoteSEID /\
    sessions afterAcceptance !! nextSession mappedManager = Some session /\
    State session = "established" /\ RemoteSEID session = remoteSEID /\
    OriginalCPSEID session
      = match ExtractCPSEID (codec := sampleCodec) establishment with
        | Ok v => v
        | Err _ => 0
        end /\
    (LocalSEID session ∉ SEIDAlloc.usedSEIDs (seidAlloc mappedManager)) /\
    LocalSEID session ∈ SEIDAlloc.usedSEIDs (seidAlloc afterAcceptance) /\
    UEIP session = Some ueIP /\
    (ueIP ∉ IPPool.allocated (ipPool mappedManager)) /\
    ueIP ∈ IPPool.allocated (ipPool afterAcceptance) /\
    byLocalSEID afterAcceptance !! LocalSEID session = Some (nextSession mappedManager) /\
    byOriginalCPSEID afterAcceptance !! OriginalCPSEID session
      = Some (nextSession mappedManager) /\
    tracked afterAcceptance
      = tracked mappedManager ++ [(Next (seqCounter mappedManager), data)] /\
    sent afterAcceptance = sent mappedManager ++ [data] /\
    Encode (codec := sampleCodec)
      (MsgSessionEstablishmentRequest
         (ModifySessionEstablishment (codec := sampleCodec) (modifier mappedManager)
            establishment (LocalSEID session) (ipBytes ueIP)
            (Next (seqCounter mappedManager)))) = Ok data.
Proof.
  apply (accepted_establishment_result (codec := sampleCodec) accepted mappedManager
           afterAcceptance establishment).
  vm_compute. reflexivity.
Defined.

Lemma established_session_is_addressed_by_live_seid_witness :
  exists resp remoteSEID ueIP,
    Decode (codec := sampleCodec) (Tracker.Response (wResult accepted))
      = Ok (MsgSessionEstablishmentResponse resp) /\
    ExtractRemoteSEID (codec := sampleCodec) resp = Ok remoteSEID /\
    (exists session, findSession afterAcceptance 9001 = Some session /\
                     RemoteSEID session = remoteSEID /\ UEIP session = Some ueIP) /\
    hdrSEID (smHeader (ModifySessionModification (codec := sampleCodec)
                         (modifier afterAcceptance) modification remoteSEID
                         (Some (ipBytes ueIP)) (Next (seqCounter afterAcceptance))))
      = remoteSEID /\
    (forall data,
       Encode (codec := sampleCodec)
         (MsgSessionModificationRequest
            (ModifySessionModification (codec := sampleCodec) (modifier afterAcceptance)
               modification remoteSEID (Some (ipBytes ueIP))
               (Next (seqCounter afterAcceptance)))) = Ok data ->
       sent (handleSessionModification (codec := sampleCodec) acknowledged afterAcceptance
               modification).1 = sent afterAcceptance ++ [data]) /\
    hdrSEID (sdHeader (ModifySessionDeletion deletion remoteSEID
                         (Next (seqCounter afterAcceptance)))) = remoteSEID /\
    (forall data,
       Encode (codec := sampleCodec)
         (MsgSessionDeletionRequest
            (ModifySessionDeletion deletion remoteSEID
               (Next (seqCounter afterAcceptance)))) = Ok data ->
       sent (handleSessionDeletion (codec := sampleCodec) acknowledged afterAcceptance
               deletion).1 = sent afterAcceptance ++ [data]).
Proof.
  apply (established_session_is_addressed_by_live_seid (codec := sampleCodec)
           accepted acknowledged mappedManager afterAcceptance establishment
           modification deletion 9001).
  - vm_compute. reflexivity.
  - left. vm_compute. reflexivity.
  - reflexivity.
  - reflexivity.
  - reflexivity.
Defined.

Lemma deletion_releases_only_on_success_witness :
  (Tracker.Error (wResult acknowledged) = None ->
   exists m',
     handleSessionDeletion (codec := sampleCodec) acknowledged afterAcceptance deletion
       = (m', None) /\
     SEIDAlloc.usedSEIDs (seidAlloc m')
       = SEIDAlloc.usedSEIDs (seidAlloc afterAcceptance)
           ∖ {[ LocalSEID establishedSession ]} /\
     IPPool.allocated (ipPool m')
       = match UEIP establishedSession with
         | Some ip => IPPool.allocated (ipPool afterAcceptance) ∖ {[ ip ]}
         | None => IPPool.allocated (ipPool afterAcceptance)
         end /\
     sessions m' !! 0%nat = Some (setState establishedSession "deleted") /\
     (forall q, q <> 0%nat -> sessions m' !! q = sessions afterAcceptance !! q) /\
     findSessionByOriginalRemoteSEID m' (hdrSEID (sdHeader deletion)) = Some 0%nat /\
     stats m' = stats afterAcceptance
                ++ [RecordSent "SessionDeletionRequest";
                    RecordReceived "SessionDeletionResponse";
                    RecordSuccess "SessionDeletionRequest"
                      (Tracker.ResponseTime (wResult acknowledged));
                    RecordSessionDeleted])
  /\ (forall e, Tracker.Error (wResult acknowledged) = Some e ->
       exists m',
         handleSessionDeletion (codec := sampleCodec) acknowledged afterAcceptance deletion
           = (m', Some (ErrWait "SessionDeletionRequest" e)) /\
         seidAlloc m' = seidAlloc afterAcceptance /\ ipPool m' = ipPool afterAcceptance /\
         sessions m' = sessions afterAcceptance /\
         sent m' = sent afterAcceptance ++ [[54; 5001; 2]]).
Proof.
  apply (deletion_releases_only_on_success (codec := sampleCodec) acknowledged
           afterAcceptance deletion 0 establishedSession [54; 5001; 2]).
  - vm_compute. reflexivity.
  - vm_compute. reflexivity.
  - vm_compute. reflexivity.
  - reflexivity.
Defined.

Lemma ip_exhaustion_releases_the_seid_witness :
  exists m',
    handleSessionEstablishment (codec := sampleCodec) silent exhaustedManager establishment
      = Some (m', Some (ErrAllocateUEIP (IPPool.ErrPoolExhausted 3))) /\
    SEIDAlloc.usedSEIDs (seidAlloc m') = SEIDAlloc.usedSEIDs (seidAlloc exhaustedManager) /\
    IPPool.allocated (ipPool m') = IPPool.allocated (ipPool exhaustedManager) /\
    sessions m' = sessions exhaustedManager /\ byLocalSEID m' = byLocalSEID exhaustedManager /\
    byOriginalCPSEID m' = byOriginalCPSEID exhaustedManager /\
    byOriginalRemoteSEID m' = byOriginalRemoteSEID exhaustedManager /\
    tracked m' = tracked exhaustedManager /\ sent m' = sent exhaustedManager /\
    seqCounter m' = seqCounter exhaustedManager /\
    stats m' = stats exhaustedManager ++ [RecordSessionFailed].
Proof.
  apply (ip_exhaustion_releases_the_seid (codec := sampleCodec) silent exhaustedManager
           establishment 1
           (SEIDAlloc.Allocate (rng exhaustedManager) (seidAlloc exhaustedManager)).1.2
           (SEIDAlloc.Allocate (rng exhaustedManager) (seidAlloc exhaustedManager)).2
           (IPPool.ErrPoolExhausted 3)
           (match IPPool.Allocate (ipPool exhaustedManager) with
            | Some (_, pool) => pool
            | None => ipPool exhaustedManager
            end)).
  - vm_compute. reflexivity.
  - vm_compute. reflexivity.
Defined.

End ManagerMoreSamples.
(** * Claims about the identifier allocators *)
Section AllocatorClaims.
Import SEIDAlloc.

(** C6, as the code has it: on a fresh sequential allocator with start
    value [B >= 1] the [k]-th call returns [B + k - 1] as long as that
    value still fits in 64 bits; and in either mode a successful
    [Allocate] never returns 0 nor a value that was held when it was
    called. *)
Theorem seid_sequential_kth (B : Z) (k : nat) (g g0 : Rng) (s : SEIDAllocator) :
  1 <= B -> (1 <= k)%nat -> B + Z.of_nat k - 1 < 2 ^ 64 ->
  kthAllocate k g (NewSEIDAllocator "sequential" B) = Some (Ok (B + Z.of_nat k - 1))
  /\ (forall v s' g', Allocate g0 s = (Ok v, s', g') -> v <> 0 /\ v ∉ usedSEIDs s).
Proof.
  intros HB Hk Hfit. split.
  - destruct k as [|k]; [lia|]. unfold kthAllocate.
    assert (Hnew : NewSEIDAllocator "sequential" B = afterN B 0).
    { unfold NewSEIDAllocator, afterN, incr64.
      destruct (Z.eqb_spec B 0); [lia|]. f_equal.
      replace (B + Z.of_nat 0 - 1 + 1) with B by lia.
      rewrite Z.mod_small by lia. reflexivity. }
    rewrite Hnew, AllocateN_sequential_from by lia. cbn [fst].
    rewrite list_lookup_fmap, lookup_seqZ_lt by lia. cbn. do 2 f_equal. lia.
  - intros v s' g' H. apply Allocate_success in H. tauto.
Qed.

Lemma seid_sequential_kth_witness :
  kthAllocate 3 (constRng 0) (NewSEIDAllocator "sequential" 5) = Some (Ok (5 + Z.of_nat 3 - 1))
  /\ (forall v s' g',
        Allocate (constRng 7) (NewSEIDAllocator "random" 1) = (Ok v, s', g') ->
        v <> 0 /\ v ∉ usedSEIDs (NewSEIDAllocator "random" 1)).
Proof.
  apply (seid_sequential_kth 5 3 (constRng 0) (constRng 7) (NewSEIDAllocator "random" 1));
    [lia | lia | reflexivity].
Defined.

(** C6 fails as stated: with start value [2^64 - 1] the second call
    returns 1, since the 64-bit counter wraps and skips 0. *)
Lemma seid_sequential_wraps :
  1 <= 2 ^ 64 - 1 /\ (1 <= 2)%nat /\
  kthAllocate 2 (constRng 0) (NewSEIDAllocator "sequential" (2 ^ 64 - 1))
    = Some (Ok 1) /\
  (1 : Z) <> (2 ^ 64 - 1) + Z.of_nat 2 - 1.
Proof. split; [lia|]. split; [lia|]. split; [vm_compute; reflexivity | lia]. Qed.

End AllocatorClaims.

Section PoolClaims.
Import IPPool.

(** C3, as the code has it. IP pool (prefix length 1 to 31): when the
    released address [x] is the only issuable address not held, the next
    [Allocate] returns exactly [x]. Sequential SEID allocator: the
    released value is not handed out again; while every held value lies
    below the counter, the call after [Release v] returns the counter
    value, which differs from [v]. *)
Theorem release_then_allocate
    (p : UEIPPool) (x : Z) (s : SEIDAlloc.SEIDAllocator) (v : Z) (g : SEIDAlloc.Rng) :
  wfPool p -> issuable (cidr p) x -> x ∈ allocated p ->
  (forall a, issuable (cidr p) a -> a ∈ allocated p) ->
  SEIDAlloc.strategy s = "sequential" -> 0 < SEIDAlloc.nextSEID s ->
  v ∈ SEIDAlloc.usedSEIDs s ->
  (forall u, u ∈ SEIDAlloc.usedSEIDs s -> u < SEIDAlloc.nextSEID s) ->
  (exists p', Allocate (Release p x) = Some (Ok x, p'))
  /\ (SEIDAlloc.Allocate g (SEIDAlloc.Release s v)).1.1 = Ok (SEIDAlloc.nextSEID s)
  /\ SEIDAlloc.nextSEID s <> v.
Proof.
  intros Hwf Hx Hheld Hfull Hs Hpos Hv Hbelow. split_and!.
  - destruct (Allocate_spec (Release p x) (Release_wf p x Hwf))
      as (r & p' & HA & _ & _ & Hr).
    destruct r as [y|e]; cbn [Release cidr allocated] in Hr.
    + destruct Hr as (Hy & Hfree & _). exists p'. rewrite HA.
      destruct (Z.eq_dec y x) as [->|Hne]; [reflexivity|].
      exfalso. apply Hfree. rewrite elem_of_difference, elem_of_singleton.
      split; [apply Hfull, Hy | exact Hne].
    + destruct Hr as (_ & _ & Hall). exfalso.
      specialize (Hall x Hx). rewrite elem_of_difference, elem_of_singleton in Hall.
      tauto.
  - apply Allocate_after_Release_below; assumption.
  - specialize (Hbelow v Hv). lia.
Qed.

Lemma block30_proper : properBlock block30.
Proof. unfold properBlock, blockSize; cbn. split_and!; try lia. reflexivity. Qed.

Lemma release_then_allocate_witness :
  (exists p', Allocate (Release (poolAfter block30 3) (ipv4 10 60 0 2))
              = Some (Ok (ipv4 10 60 0 2), p'))
  /\ (SEIDAlloc.Allocate (SEIDAlloc.constRng 0)
        (SEIDAlloc.Release (SEIDAlloc.afterN 1 3) 2)).1.1
      = Ok (SEIDAlloc.nextSEID (SEIDAlloc.afterN 1 3))
  /\ SEIDAlloc.nextSEID (SEIDAlloc.afterN 1 3) <> 2.
Proof.
  apply (release_then_allocate (poolAfter block30 3) (ipv4 10 60 0 2)
           (SEIDAlloc.afterN 1 3) 2 (SEIDAlloc.constRng 0)).
  - apply poolAfter_wf; [exact block30_proper | lia].
  - unfold issuable, blockSize; cbn. lia.
  - cbn. rewrite elem_of_list_to_set, elem_of_seqZ. lia.
  - exact (poolAfter_full block30 block30_proper).
  - reflexivity.
  - reflexivity.
  - cbn. rewrite elem_of_list_to_set, elem_of_seqZ. lia.
  - intros u. cbn. rewrite elem_of_list_to_set, elem_of_seqZ.
    change (SEIDAlloc.incr64 (1 + Z.of_nat 3 - 1)) with 4. lia.
Defined.

(** C3 fails as stated for the sequential SEID allocator: after
    allocating 1 and releasing it, the next call returns 2. *)
Lemma seid_release_not_reused :
  (SEIDAlloc.Allocate (SEIDAlloc.constRng 0)
     (SEIDAlloc.NewSEIDAllocator "sequential" 1)).1.1 = Ok 1
  /\ (SEIDAlloc.Allocate (SEIDAlloc.constRng 0)
        (SEIDAlloc.Release
           (SEIDAlloc.Allocate (SEIDAlloc.constRng 0)
              (SEIDAlloc.NewSEIDAllocator "sequential" 1)).1.2 1)).1.1 = Ok 2
  /\ (2 : Z) <> 1.
Proof. split_and!; [vm_compute; reflexivity | vm_compute; reflexivity | lia]. Qed.

(** C7, as the code has it (prefix length 1 to 31): a call reports
    exhaustion only when every address of the block other than the
    network address is held; a fresh pool serves [2^(32-ones) - 1]
    calls, the block's addresses after the network address in order,
    broadcast address included, and the next call fails. *)
Theorem pool_exhaustion (addr ones : Z) (p : UEIPPool) :
  0 <= addr < 2 ^ 32 -> 1 <= ones <= 31 -> wfPool p ->
  (forall e p', Allocate p = Some (Err e, p') ->
                forall a, issuable (cidr p) a -> a ∈ allocated p)
  /\ exists p0 pN pE,
       NewUEIPPool addr ones = Ok p0 /\
       AllocateN (Z.to_nat (2 ^ (32 - ones) - 1)) p0 =
         Some (Ok <$> seqZ (netIP (cidr p0) + 1) (2 ^ (32 - ones) - 1), pN) /\
       Allocate pN = Some (Err (ErrPoolExhausted (2 ^ (32 - ones) - 1)), pE).
Proof.
  intros Ha Ho Hwf. split.
  - intros e p' HA a Hissuable.
    destruct (Allocate_spec p Hwf) as (r & q & HA' & _ & _ & Hr).
    rewrite HA in HA'. inversion HA'; subst. destruct Hr as (_ & _ & Hall). auto.
  - destruct (NewUEIPPool_wf addr ones Ha Ho) as (n & Hn & Hon & Hnet & Hnew).
    pose proof (blockSize_ge2 n Hn) as HT.
    assert (HB : blockSize n = 2 ^ (32 - ones)) by (unfold blockSize; rewrite Hon; reflexivity).
    rewrite <- HB.
    destruct (Allocate_full (poolAfter n (blockSize n - 1)))
      as (pE & HE & _ & _).
    { apply poolAfter_wf; [assumption | lia]. }
    { apply poolAfter_full; assumption. }
    exists (poolAfter n 0), (poolAfter n (blockSize n - 1)), pE.
    split; [exact Hnew|]. split.
    + rewrite AllocateN_poolAfter by (auto; lia).
      rewrite Z2Nat.id by lia. cbn [poolAfter cidr].
      rewrite Z.add_0_r, Z.add_0_l. reflexivity.
    + rewrite HE. rewrite poolAfter_size by lia. rewrite Z2Nat.id by lia. reflexivity.
Qed.

Lemma pool_exhaustion_witness :
  (forall e p', Allocate (poolAfter block30 1) = Some (Err e, p') ->
                forall a, issuable (cidr (poolAfter block30 1)) a ->
                          a ∈ allocated (poolAfter block30 1))
  /\ exists p0 pN pE,
       NewUEIPPool (ipv4 10 60 0 0) 30 = Ok p0 /\
       AllocateN (Z.to_nat (2 ^ (32 - 30) - 1)) p0 =
         Some (Ok <$> seqZ (netIP (cidr p0) + 1) (2 ^ (32 - 30) - 1), pN) /\
       Allocate pN = Some (Err (ErrPoolExhausted (2 ^ (32 - 30) - 1)), pE).
Proof.
  apply (pool_exhaustion (ipv4 10 60 0 0) 30 (poolAfter block30 1)).
  - cbn. lia.
  - lia.
  - apply poolAfter_wf; [exact block30_proper | lia].
Defined.

(** C7 fails as stated when capacity is counted in hosts, as [Available]
    and the test of the pool count it: a fresh /30 pool has room for 2
    hosts, and the third call still succeeds, with the broadcast
    address. *)
Lemma pool_third_of_two_hosts_succeeds :
  exists p0 p3,
    NewUEIPPool (ipv4 10 60 0 0) 30 = Ok p0 /\ Available p0 = 2 /\
    AllocateN 3 p0 =
      Some ([Ok (ipv4 10 60 0 1); Ok (ipv4 10 60 0 2); Ok (ipv4 10 60 0 3)], p3).
Proof.
  exists (poolAfter block30 0), (poolAfter block30 3).
  split_and!; [reflexivity | reflexivity |].
  rewrite (AllocateN_poolAfter block30 3 0 block30_proper)
    by (change (blockSize block30) with 4; lia).
  rewrite seqZ_three. reflexivity.
Qed.

(** C10: [Available] is [max 0 (2^(32-ones) - AllocatedCount - 2)],
    whichever addresses are held; a fresh /30 pool reports 2, yet three
    calls succeed, the third with the broadcast address, after which
    [Available] is 0 and [AllocatedCount] is 3. *)
Theorem available_formula (p q : UEIPPool) (addr : Z) :
  0 <= maskOnes (cidr p) <= 32 -> 0 <= addr < 2 ^ 32 ->
  Available p = Z.max 0 (2 ^ (32 - maskOnes (cidr p)) - AllocatedCount p - 2)
  /\ (cidr q = cidr p -> AllocatedCount q = AllocatedCount p -> Available q = Available p)
  /\ exists p0 p3,
       NewUEIPPool addr 30 = Ok p0 /\ Available p0 = 2 /\
       AllocateN 3 p0 =
         Some ([Ok (netIP (cidr p0) + 1); Ok (netIP (cidr p0) + 2);
                Ok (netIP (cidr p0) + 3)], p3) /\
       netIP (cidr p0) + 3 = netIP (cidr p0) + 2 ^ (32 - 30) - 1 /\
       Available p3 = 0 /\ AllocatedCount p3 = 3.
Proof.
  intros Ho Ha. split_and!.
  - unfold Available, AllocatedCount. rewrite totalIPs_pow by lia.
    destruct (Z.ltb_spec (2 ^ (32 - maskOnes (cidr p)) - Z.of_nat (size (allocated p)) - 2) 0); lia.
  - intros Hc Hcount. unfold Available, AllocatedCount in *. rewrite Hc, Hcount. reflexivity.
  - destruct (NewUEIPPool_wf addr 30 Ha ltac:(lia)) as (n & Hn & Hon & Hnet & Hnew).
    assert (HB : blockSize n = 4) by (unfold blockSize; rewrite Hon; reflexivity).
    exists (poolAfter n 0), (poolAfter n 3). split; [exact Hnew|].
    assert (Htot : totalIPs n = 4) by (rewrite blockSize_total; assumption).
    split_and!.
    + unfold Available. cbn [poolAfter cidr allocated]. rewrite Htot. reflexivity.
    + rewrite (AllocateN_poolAfter n 3 0) by (auto; lia).
      cbn [poolAfter cidr]. rewrite Z.add_0_r.
      assert (Hseq : seqZ (netIP n + 1) (Z.of_nat 3) =
                     [netIP n + 1; netIP n + 2; netIP n + 3]).
      { rewrite seqZ_three.
        replace (netIP n + 1 + 1) with (netIP n + 2) by lia.
        replace (netIP n + 1 + 2) with (netIP n + 3) by lia. reflexivity. }
      rewrite Hseq. reflexivity.
    + change (2 ^ (32 - 30)) with 4. lia.
    + unfold Available. rewrite (poolAfter_size n 3) by lia.
      change (cidr (poolAfter n 3)) with n. rewrite Htot. reflexivity.
    + unfold AllocatedCount. rewrite poolAfter_size by lia. reflexivity.
Qed.

Lemma available_formula_witness :
  Available (poolAfter block30 1)
  = Z.max 0 (2 ^ (32 - maskOnes (cidr (poolAfter block30 1)))
             - AllocatedCount (poolAfter block30 1) - 2)
  /\ (cidr (poolAfter block30 1) = cidr (poolAfter block30 1) ->
      AllocatedCount (poolAfter block30 1) = AllocatedCount (poolAfter block30 1) ->
      Available (poolAfter block30 1) = Available (poolAfter block30 1))
  /\ exists p0 p3,
       NewUEIPPool (ipv4 10 60 0 0) 30 = Ok p0 /\ Available p0 = 2 /\
       AllocateN 3 p0 =
         Some ([Ok (netIP (cidr p0) + 1); Ok (netIP (cidr p0) + 2);
                Ok (netIP (cidr p0) + 3)], p3) /\
       netIP (cidr p0) + 3 = netIP (cidr p0) + 2 ^ (32 - 30) - 1 /\
       Available p3 = 0 /\ AllocatedCount p3 = 3.
Proof.
  apply (available_formula (poolAfter block30 1) (poolAfter block30 1) (ipv4 10 60 0 0)).
  - cbn. lia.
  - cbn. lia.
Defined.

(** C8 against the code: on the block 0.0.0.0/0 the cursor is never
    outside the block, so it is never sent back to network address + 1;
    after [2^32 - 1] rounds of [Allocate] and [Release] on a fresh pool
    the cursor has wrapped to 0.0.0.0 and the next [Allocate] returns
    the network address. *)
Theorem whole_space_issues_network_address :
  NewUEIPPool 0 0 = Ok (idleWholeSpace 1) /\
  rounds (Z.to_nat (2 ^ 32 - 1)) (idleWholeSpace 1) = Some (idleWholeSpace 0) /\
  (exists p', Allocate (idleWholeSpace 0) = Some (Ok 0, p')) /\
  netIP (cidr (idleWholeSpace 0)) = 0.
Proof.
  split_and!.
  - reflexivity.
  - rewrite rounds_idleWholeSpace by lia.
    rewrite Z2Nat.id by (apply Z.lt_le_incl; reflexivity). reflexivity.
  - eexists. apply Allocate_idleWholeSpace.
  - reflexivity.
Qed.

End PoolClaims.
(** * Claims about the transaction tracker *)
Section TrackerClaims.
Import Tracker.

(** C5, as the code has it: in a run where no sequence number is
    registered while it is pending or still in the monitor's snapshot,
    every registered transaction has received nothing while it is
    pending and exactly one result once it is not; a pending
    transaction is fulfilled once by [Resolve], by the last timeout or
    by [CancelAll], and whichever of [Resolve] and the timeout comes
    second changes nothing; [Resolve] on a sequence number that is not
    pending leaves the tracker as it is; two pending transactions never
    share a sequence number. *)
Theorem tracker_exactly_once
    (timeoutMs R : Z) (evs : list Event) (a : nat) (tx : PendingTransaction)
    (q : Z) (d : list Z) (now : Z) :
  freshRun (start timeoutMs R) evs ->
  heap (trk (run evs (start timeoutMs R))) !! a = Some tx ->
  ((pending (trk (run evs (start timeoutMs R))) !! SeqNum tx = Some a /\
    delivered (trk (run evs (start timeoutMs R))) a = []) \/
   (pending (trk (run evs (start timeoutMs R))) !! SeqNum tx <> Some a /\
    exists r, delivered (trk (run evs (start timeoutMs R))) a = [r]))
  /\ (pending (trk (run evs (start timeoutMs R))) !! SeqNum tx = Some a ->
      (exists r, delivered (Resolve (SeqNum tx) d now (trk (run evs (start timeoutMs R)))) a = [r]
                 /\ Error r = None /\ Response r = d)
      /\ (~ RetryCount tx < R ->
          exists r, delivered (handleTimeout a now (trk (run evs (start timeoutMs R)))) a = [r]
                    /\ Error r = Some (ErrTimeout R))
      /\ (exists r, delivered (CancelAll (trk (run evs (start timeoutMs R)))) a = [r]
                    /\ Error r = Some ErrCancelled)
      /\ handleTimeout a now (Resolve (SeqNum tx) d now (trk (run evs (start timeoutMs R))))
         = Resolve (SeqNum tx) d now (trk (run evs (start timeoutMs R)))
      /\ (~ RetryCount tx < R ->
          Resolve (SeqNum tx) d now (handleTimeout a now (trk (run evs (start timeoutMs R))))
          = handleTimeout a now (trk (run evs (start timeoutMs R)))))
  /\ (pending (trk (run evs (start timeoutMs R))) !! q = None ->
      Resolve q d now (trk (run evs (start timeoutMs R))) = trk (run evs (start timeoutMs R)))
  /\ (forall b tx', heap (trk (run evs (start timeoutMs R))) !! b = Some tx' ->
                    pending (trk (run evs (start timeoutMs R))) !! SeqNum tx' = Some b ->
                    pending (trk (run evs (start timeoutMs R))) !! SeqNum tx = Some a ->
                    SeqNum tx' = SeqNum tx -> b = a).
Proof.
  intros Hfresh Htx.
  pose proof (sysInv_run evs _ (sysInv_start timeoutMs R) Hfresh) as Hinv.
  assert (HR : maxRetries (trk (run evs (start timeoutMs R))) = R).
  { destruct (config_run evs (start timeoutMs R)) as [H _]. exact H. }
  destruct (sysInv_tx _ a tx Hinv Htx) as (Hch & Hrc & _ & _ & _ & Hst).
  pose proof (sysInv_CancelAll_delivered _ a tx Hinv Htx) as Hcancel.
  set (t := trk (run evs (start timeoutMs R))) in *.
  split_and!.
  - destruct Hst as [Hst|[Hnp (r & Hr & _)]]; [left; exact Hst | right; eauto].
  - intros Hp.
    assert (Hd : delivered t a = []) by (destruct Hst as [[_ H]|[H _]]; [exact H | contradiction]).
    assert (Hfinal : ~ RetryCount tx < R ->
                     handleTimeout a now t =
                     {| pending := delete (SeqNum tx) (pending t); heap := heap t;
                        chans := chanSend a {| resSeqNum := SeqNum tx; Response := [];
                                               ResponseTime := 0;
                                               Error := Some (ErrTimeout R) |} (chans t);
                        nextAddr := nextAddr t; timeout := timeout t;
                        maxRetries := maxRetries t; wire := wire t |}).
    { intros Hlast. rewrite handleTimeout_eq. rewrite Htx, Hp, HR, Hch.
      destruct (Z.ltb_spec (RetryCount tx) R); [contradiction | reflexivity]. }
    assert (Hres' : Resolve (SeqNum tx) d now t =
                    {| pending := delete (SeqNum tx) (pending t); heap := heap t;
                       chans := chanSend a {| resSeqNum := SeqNum tx; Response := d;
                                              ResponseTime := now - SentAt tx;
                                              Error := None |} (chans t);
                       nextAddr := nextAddr t; timeout := timeout t;
                       maxRetries := maxRetries t; wire := wire t |}).
    { unfold Resolve. rewrite Hp, Htx, Hch. reflexivity. }
    unfold delivered in Hd. split_and!.
    + rewrite Hres'. unfold delivered; cbn [chans]. rewrite chanSend_same, Hd.
      eexists. split; [reflexivity|]. split; reflexivity.
    + intros Hlast. rewrite (Hfinal Hlast). unfold delivered; cbn [chans].
      rewrite chanSend_same, Hd. eexists. split; reflexivity.
    + destruct Hcancel as [Hin _].
      destruct (Hin Hp) as (r & Hr & Hdel). exists r. split; [|exact Hr].
      rewrite Hdel. unfold delivered. rewrite Hd. reflexivity.
    + rewrite Hres'. rewrite handleTimeout_eq; cbn [heap pending]. rewrite Htx.
      rewrite lookup_delete_eq. reflexivity.
    + intros Hlast. rewrite (Hfinal Hlast). unfold Resolve; cbn [pending].
      rewrite lookup_delete_eq. reflexivity.
  - intros Hq. unfold Resolve. rewrite Hq. reflexivity.
  - intros b tx' _ Hb Ha E. rewrite E in Hb. congruence.
Qed.

Lemma oneTracked_fresh timeoutMs R : freshRun (start timeoutMs R) oneTracked.
Proof.
  cbn. split; [|exact I]. split; [apply lookup_empty|].
  intros a tx H. apply elem_of_nil in H. contradiction.
Qed.

Lemma tracker_exactly_once_witness :
  ((pending (trk (run oneTracked (start 5000 3))) !! SeqNum oneTrackedTx = Some 0%nat /\
    delivered (trk (run oneTracked (start 5000 3))) 0 = []) \/
   (pending (trk (run oneTracked (start 5000 3))) !! SeqNum oneTrackedTx <> Some 0%nat /\
    exists r, delivered (trk (run oneTracked (start 5000 3))) 0 = [r]))
  /\ (pending (trk (run oneTracked (start 5000 3))) !! SeqNum oneTrackedTx = Some 0%nat ->
      (exists r, delivered (Resolve (SeqNum oneTrackedTx) [9] 1
                              (trk (run oneTracked (start 5000 3)))) 0 = [r]
                 /\ Error r = None /\ Response r = [9])
      /\ (~ RetryCount oneTrackedTx < 3 ->
          exists r, delivered (handleTimeout 0 1 (trk (run oneTracked (start 5000 3)))) 0 = [r]
                    /\ Error r = Some (ErrTimeout 3))
      /\ (exists r, delivered (CancelAll (trk (run oneTracked (start 5000 3)))) 0 = [r]
                    /\ Error r = Some ErrCancelled)
      /\ handleTimeout 0 1 (Resolve (SeqNum oneTrackedTx) [9] 1
                              (trk (run oneTracked (start 5000 3))))
         = Resolve (SeqNum oneTrackedTx) [9] 1 (trk (run oneTracked (start 5000 3)))
      /\ (~ RetryCount oneTrackedTx < 3 ->
          Resolve (SeqNum oneTrackedTx) [9] 1
            (handleTimeout 0 1 (trk (run oneTracked (start 5000 3))))
          = handleTimeout 0 1 (trk (run oneTracked (start 5000 3)))))
  /\ (pending (trk (run oneTracked (start 5000 3))) !! 8 = None ->
      Resolve 8 [9] 1 (trk (run oneTracked (start 5000 3)))
      = trk (run oneTracked (start 5000 3)))
  /\ (forall b tx', heap (trk (run oneTracked (start 5000 3))) !! b = Some tx' ->
                    pending (trk (run oneTracked (start 5000 3))) !! SeqNum tx' = Some b ->
                    pending (trk (run oneTracked (start 5000 3))) !! SeqNum oneTrackedTx
                    = Some 0%nat ->
                    SeqNum tx' = SeqNum oneTrackedTx -> b = 0%nat).
Proof.
  apply (tracker_exactly_once 5000 3 oneTracked 0 oneTrackedTx 8 [9] 1).
  - apply oneTracked_fresh.
  - reflexivity.
Defined.

(** C5 fails as stated when a sequence number is registered twice.
    After [Track 7], [Track 7], [CancelAll] nothing is pending and the
    first transaction has received nothing. In the run [staleHandle]
    with no retries allowed, the first transaction receives two results,
    its response and then a timeout, and the second transaction is
    removed without any. *)
Lemma track_same_number_twice :
  (is_Some (heap (trk (run trackedTwice (start 5000 3))) !! 0%nat) /\
   PendingCount (trk (run trackedTwice (start 5000 3))) = 0 /\
   delivered (trk (run trackedTwice (start 5000 3))) 0 = [])
  /\ (length (delivered (trk (run staleHandle (start 5000 0))) 0) = 2%nat /\
      is_Some (heap (trk (run staleHandle (start 5000 0))) !! 1%nat) /\
      PendingCount (trk (run staleHandle (start 5000 0))) = 0 /\
      delivered (trk (run staleHandle (start 5000 0))) 1 = []).
Proof.
  split_and!; try (vm_compute; reflexivity); vm_compute; eauto.
Qed.

(** C9, as the code has it: in a run where no sequence number is
    registered while it is pending or still in the monitor's snapshot,
    a sweep picks a pending transaction exactly when its age exceeds the
    timeout; the retransmissions decided for it, those sent and the one
    the monitor may be about to send, number its retry count, which
    never exceeds [maxRetries]; each retransmission carries the request
    bytes recorded by [Track], whose sequence number and bytes never
    change; a timeout of a pending transaction with retries left raises
    the retry count, sets the sent-time to the current time and decides
    one retransmission under the lock, which is sent once the lock is
    released, and otherwise removes it and sends the timeout failure; a
    transaction that ended with a timeout had been retransmitted exactly
    [maxRetries] times (not at all if [maxRetries] is negative) before;
    and once a transaction is no longer pending, for instance after its
    response, it receives nothing more and no further retransmission of
    it is decided: its retransmissions stay as they are, except that
    the one the monitor had already decided, if any, is still sent. *)
Theorem tracker_retransmission
    (timeoutMs R : Z) (evs evs' : list Event) (a : nat) (tx : PendingTransaction)
    (now : Z) :
  freshRun (start timeoutMs R) (evs ++ evs') ->
  heap (trk (run evs (start timeoutMs R))) !! a = Some tx ->
  (a ∈ timedOut now (trk (run evs (start timeoutMs R))) <->
   pending (trk (run evs (start timeoutMs R))) !! SeqNum tx = Some a /\
   timeoutMs * 1000000 < now - SentAt tx)
  /\ (Z.of_nat (decided (run evs (start timeoutMs R)) a) = RetryCount tx /\
      RetryCount tx <= Z.max 0 R /\
      decided (run evs (start timeoutMs R)) a
        = (resent (trk (run evs (start timeoutMs R))) a
           + match sending (run evs (start timeoutMs R)) with
             | Some (b, _) => if decide (b = a) then 1 else 0
             | None => 0
             end)%nat /\
      (forall d, (a, d) ∈ wire (trk (run evs (start timeoutMs R))) -> d = RequestData tx) /\
      (forall d, sending (run evs (start timeoutMs R)) = Some (a, d) -> d = RequestData tx))
  /\ (pending (trk (run evs (start timeoutMs R))) !! SeqNum tx = Some a ->
      RetryCount tx < R ->
      (handleTimeoutLocked a now (trk (run evs (start timeoutMs R)))).2
        = Some (a, RequestData tx) /\
      wire (handleTimeoutLocked a now (trk (run evs (start timeoutMs R)))).1
        = wire (trk (run evs (start timeoutMs R))) /\
      wire (handleTimeout a now (trk (run evs (start timeoutMs R))))
        = wire (trk (run evs (start timeoutMs R))) ++ [(a, RequestData tx)] /\
      heap (handleTimeoutLocked a now (trk (run evs (start timeoutMs R)))).1 !! a
        = Some {| SeqNum := SeqNum tx; RequestData := RequestData tx; SentAt := now;
                  RetryCount := RetryCount tx + 1; ResultCh := ResultCh tx |} /\
      pending (handleTimeoutLocked a now (trk (run evs (start timeoutMs R)))).1
        = pending (trk (run evs (start timeoutMs R))) /\
      delivered (handleTimeoutLocked a now (trk (run evs (start timeoutMs R)))).1 a = [])
  /\ (pending (trk (run evs (start timeoutMs R))) !! SeqNum tx = Some a ->
      ~ RetryCount tx < R ->
      (handleTimeoutLocked a now (trk (run evs (start timeoutMs R)))).2 = None /\
      wire (handleTimeout a now (trk (run evs (start timeoutMs R))))
        = wire (trk (run evs (start timeoutMs R))) /\
      pending (handleTimeout a now (trk (run evs (start timeoutMs R)))) !! SeqNum tx = None /\
      exists r, delivered (handleTimeout a now (trk (run evs (start timeoutMs R)))) a = [r]
                /\ Error r = Some (ErrTimeout R))
  /\ (forall r n, delivered (trk (run evs (start timeoutMs R))) a = [r] ->
                  Error r = Some (ErrTimeout n) ->
                  Z.of_nat (resent (trk (run evs (start timeoutMs R))) a) = Z.max 0 R)
  /\ (pending (trk (run evs (start timeoutMs R))) !! SeqNum tx <> Some a ->
      decided (run (evs ++ evs') (start timeoutMs R)) a
        = decided (run evs (start timeoutMs R)) a /\
      (resent (trk (run (evs ++ evs') (start timeoutMs R))) a
       <= resent (trk (run evs (start timeoutMs R))) a + 1)%nat /\
      ((forall d, sending (run evs (start timeoutMs R)) <> Some (a, d)) ->
       resent (trk (run (evs ++ evs') (start timeoutMs R))) a
         = resent (trk (run evs (start timeoutMs R))) a) /\
      delivered (trk (run (evs ++ evs') (start timeoutMs R))) a
        = delivered (trk (run evs (start timeoutMs R))) a)
  /\ (exists tx', heap (trk (run (evs ++ evs') (start timeoutMs R))) !! a = Some tx' /\
                  SeqNum tx' = SeqNum tx /\ RequestData tx' = RequestData tx).
Proof.
  intros Hfresh Htx. apply freshRun_app in Hfresh as [Hfresh Hfresh'].
  pose proof (sysInv_run evs _ (sysInv_start timeoutMs R) Hfresh) as Hinv.
  destruct (config_run evs (start timeoutMs R)) as [HR HT].
  cbn [start trk NewTransactionTracker maxRetries timeout] in HR, HT.
  rewrite run_app.
  set (s := run evs (start timeoutMs R)) in *.
  destruct (sysInv_tx s a tx Hinv Htx) as (Hch & Hrc & Hdec & Hwire & Hsending & Hst).
  rewrite HR in Hrc, Hst.
  split_and!.
  - split.
    + intros Hin. destruct (timedOut_pending _ _ _ Hin) as (q & tx' & Hp & Hh & Hto).
      assert (tx' = tx) by congruence. subst tx'.
      destruct (sysInv_pending s q a Hinv Hp) as (tx' & Htx' & Hseq).
      assert (tx' = tx) by congruence. subst tx'. rewrite Hseq. rewrite <- HT. auto.
    + intros [Hp Hto]. unfold timedOut. rewrite list_elem_of_omap.
      exists (SeqNum tx, a). split; [apply elem_of_map_to_list; exact Hp|].
      cbn. rewrite Htx, HT.
      destruct (Z.ltb_spec (timeoutMs * 1000000) (now - SentAt tx)); [reflexivity | lia].
  - exact Hdec.
  - lia.
  - apply decided_eq.
  - exact Hwire.
  - exact Hsending.
  - intros Hp Hretry. rewrite handleTimeout_eq. unfold handleTimeoutLocked.
    rewrite Htx, Hp, HR.
    destruct (Z.ltb_spec (RetryCount tx) R); [|lia]. cbn.
    rewrite lookup_insert_eq. split_and!; auto.
    destruct Hst as [[_ Hd0]|[Hd0 _]]; [exact Hd0 | contradiction].
  - intros Hp Hlast. rewrite handleTimeout_eq. unfold handleTimeoutLocked.
    rewrite Htx, Hp, HR.
    destruct (Z.ltb_spec (RetryCount tx) R); [contradiction|]. cbn.
    rewrite lookup_delete_eq. split_and!; auto.
    unfold delivered; cbn. rewrite Hch, chanSend_same.
    destruct Hst as [[_ Hd0]|[Hd0 _]]; [|contradiction].
    unfold delivered in Hd0. rewrite Hd0. eexists. split; reflexivity.
  - intros r n Hd He.
    destruct Hst as [[_ Hd0]|[_ (r' & Hr' & Himp)]]; [congruence|].
    assert (r' = r) by congruence. subst r'.
    destruct (Himp n He) as [Hmax Hall]. rewrite <- Hall, Hdec. exact Hmax.
  - intros Hnp.
    destruct (settled_run evs' s a Hinv Hfresh') as (_ & _ & H3 & H4);
      [exists tx; auto|].
    pose proof (decided_eq s a) as E1. pose proof (decided_eq (run evs' s) a) as E2.
    pose proof (resent_run_mono evs' s a) as Hmono.
    split_and!; [exact H3| | |exact H4].
    + destruct (sending s) as [[b0 d0]|]; [destruct (decide (b0 = a))|]; lia.
    + intros Hno. destruct (sending s) as [[b0 d0]|] eqn:Es.
      * destruct (decide (b0 = a)) as [->|]; [exfalso; exact (Hno d0 eq_refl)|]. lia.
      * lia.
  - exact (identity_run evs' s a tx Hinv Hfresh' Htx).
Qed.

Lemma tracker_retransmission_witness :
  (0%nat ∈ timedOut 6000000000 (trk (run oneTracked (start 5000 3))) <->
   pending (trk (run oneTracked (start 5000 3))) !! SeqNum oneTrackedTx = Some 0%nat /\
   5000 * 1000000 < 6000000000 - SentAt oneTrackedTx)
  /\ (Z.of_nat (decided (run oneTracked (start 5000 3)) 0) = RetryCount oneTrackedTx /\
      RetryCount oneTrackedTx <= Z.max 0 3 /\
      decided (run oneTracked (start 5000 3)) 0
        = (resent (trk (run oneTracked (start 5000 3))) 0
           + match sending (run oneTracked (start 5000 3)) with
             | Some (b, _) => if decide (b = 0%nat) then 1 else 0
             | None => 0
             end)%nat /\
      (forall d, (0%nat, d) ∈ wire (trk (run oneTracked (start 5000 3))) ->
                 d = RequestData oneTrackedTx) /\
      (forall d, sending (run oneTracked (start 5000 3)) = Some (0%nat, d) ->
                 d = RequestData oneTrackedTx))
  /\ (pending (trk (run oneTracked (start 5000 3))) !! SeqNum oneTrackedTx = Some 0%nat ->
      RetryCount oneTrackedTx < 3 ->
      (handleTimeoutLocked 0 6000000000 (trk (run oneTracked (start 5000 3)))).2
        = Some (0%nat, RequestData oneTrackedTx) /\
      wire (handleTimeoutLocked 0 6000000000 (trk (run oneTracked (start 5000 3)))).1
        = wire (trk (run oneTracked (start 5000 3))) /\
      wire (handleTimeout 0 6000000000 (trk (run oneTracked (start 5000 3))))
        = wire (trk (run oneTracked (start 5000 3))) ++ [(0%nat, RequestData oneTrackedTx)] /\
      heap (handleTimeoutLocked 0 6000000000 (trk (run oneTracked (start 5000 3)))).1 !! 0%nat
        = Some {| SeqNum := SeqNum oneTrackedTx; RequestData := RequestData oneTrackedTx;
                  SentAt := 6000000000; RetryCount := RetryCount oneTrackedTx + 1;
                  ResultCh := ResultCh oneTrackedTx |} /\
      pending (handleTimeoutLocked 0 6000000000 (trk (run oneTracked (start 5000 3)))).1
        = pending (trk (run oneTracked (start 5000 3))) /\
      delivered (handleTimeoutLocked 0 6000000000
                   (trk (run oneTracked (start 5000 3)))).1 0 = [])
  /\ (pending (trk (run oneTracked (start 5000 3))) !! SeqNum oneTrackedTx = Some 0%nat ->
      ~ RetryCount oneTrackedTx < 3 ->
      (handleTimeoutLocked 0 6000000000 (trk (run oneTracked (start 5000 3)))).2 = None /\
      wire (handleTimeout 0 6000000000 (trk (run oneTracked (start 5000 3))))
        = wire (trk (run oneTracked (start 5000 3))) /\
      pending (handleTimeout 0 6000000000 (trk (run oneTracked (start 5000 3))))
        !! SeqNum oneTrackedTx = None /\
      exists r, delivered (handleTimeout 0 6000000000
                             (trk (run oneTracked (start 5000 3)))) 0 = [r]
                /\ Error r = Some (ErrTimeout 3))
  /\ (forall r n, delivered (trk (run oneTracked (start 5000 3))) 0 = [r] ->
                  Error r = Some (ErrTimeout n) ->
                  Z.of_nat (resent (trk (run oneTracked (start 5000 3))) 0) = Z.max 0 3)
  /\ (pending (trk (run oneTracked (start 5000 3))) !! SeqNum oneTrackedTx <> Some 0%nat ->
      decided (run (oneTracked ++ [EvScan 6000000000; EvHandle 6000000001; EvSend])
                 (start 5000 3)) 0
        = decided (run oneTracked (start 5000 3)) 0 /\
      (resent (trk (run (oneTracked ++ [EvScan 6000000000; EvHandle 6000000001; EvSend])
                      (start 5000 3))) 0
       <= resent (trk (run oneTracked (start 5000 3))) 0 + 1)%nat /\
      ((forall d, sending (run oneTracked (start 5000 3)) <> Some (0%nat, d)) ->
       resent (trk (run (oneTracked ++ [EvScan 6000000000; EvHandle 6000000001; EvSend])
                      (start 5000 3))) 0
         = resent (trk (run oneTracked (start 5000 3))) 0) /\
      delivered (trk (run (oneTracked ++ [EvScan 6000000000; EvHandle 6000000001; EvSend])
                        (start 5000 3))) 0
        = delivered (trk (run oneTracked (start 5000 3))) 0)
  /\ (exists tx', heap (trk (run (oneTracked
                                  ++ [EvScan 6000000000; EvHandle 6000000001; EvSend])
                                (start 5000 3))) !! 0%nat = Some tx' /\
                  SeqNum tx' = SeqNum oneTrackedTx /\
                  RequestData tx' = RequestData oneTrackedTx).
Proof.
  apply (tracker_retransmission 5000 3 oneTracked
           [EvScan 6000000000; EvHandle 6000000001; EvSend] 0 oneTrackedTx 6000000000).
  - apply freshRun_app. split; [apply oneTracked_fresh|]. cbn. tauto.
  - reflexivity.
Defined.

(** C9 fails as stated, also when no sequence number is ever used
    twice: [handleTimeout] releases the lock before it calls [Send]. In
    the run [lateSend] the only request is found overdue and its
    retransmission is decided; the response arrives and is delivered,
    with no retransmission made so far; then the monitor sends, and the
    request that has its response is retransmitted. And when a sequence
    number is registered again while the monitor still holds an entry
    with it, as in [staleHandle], a retransmission of the answered
    request is even decided after its response, and then sent. *)
Lemma retransmitted_after_response :
  (freshRun (start 5000 3) lateSend
   /\ (exists r, delivered (trk (run (take 4 lateSend) (start 5000 3))) 0 = [r]
                 /\ Error r = None /\ Response r = [9])
   /\ pending (trk (run (take 4 lateSend) (start 5000 3))) = ∅
   /\ resent (trk (run (take 4 lateSend) (start 5000 3))) 0 = 0%nat
   /\ wire (trk (run lateSend (start 5000 3))) = [(0%nat, [1])]
   /\ resent (trk (run lateSend (start 5000 3))) 0 = 1%nat)
  /\ ((exists r, delivered (trk (run (take 3 staleHandle) (start 5000 3))) 0 = [r]
                 /\ Error r = None)
      /\ decided (run (take 3 staleHandle) (start 5000 3)) 0 = 0%nat
      /\ decided (run staleHandle (start 5000 3)) 0 = 1%nat
      /\ wire (trk (run (staleHandle ++ [EvSend]) (start 5000 3))) = [(0%nat, [1])]).
Proof.
  split; split_and!; try (vm_compute; reflexivity).
  - cbn. split_and!; try exact I. split; [apply lookup_empty|].
    intros a tx H. apply elem_of_nil in H. contradiction.
  - vm_compute. eauto.
  - vm_compute. eauto.
Qed.

End TrackerClaims.
(** * Claims about the session manager *)
Section ManagerClaims.
Import Pfcp Session.
Context {codec : Codec}.

(** C2: for a modification or deletion request with header SEID [S], the
    session is looked up under [S] in the original-remote-SEID table
    and, failing that, in the original-CP-SEID table. If none is found
    the handler returns the error and leaves the manager as it was:
    nothing is sent, registered or counted. Otherwise the request is
    rewritten so that its header SEID is the session's [RemoteSEID], and
    the handler forwards exactly that request: when it encodes, its
    bytes are registered with the tracker under the fresh sequence
    number and, unless the client's send fails, they are the one
    message appended to what has been sent; when the send fails nothing
    is appended and the send error is returned; when it does not encode
    nothing is registered or sent and the encoding error is returned. *)
Theorem modification_deletion_use_live_seid
    (w : World) (m : Manager)
    (reqM : SessionModificationRequest) (reqD : SessionDeletionRequest) :
  (forall S p, byOriginalRemoteSEID m !! S = Some p ->
               findSessionByOriginalRemoteSEID m S = Some p)
  /\ (forall S, byOriginalRemoteSEID m !! S = None ->
                findSessionByOriginalRemoteSEID m S = byOriginalCPSEID m !! S)
  /\ (forall S, findSession m S
                = match findSessionByOriginalRemoteSEID m S with
                  | Some p => sessions m !! p
                  | None => None
                  end)
  /\ match findSession m (hdrSEID (smHeader reqM)) with
     | None =>
         handleSessionModification w m reqM
         = (m, Some (ErrNoSession (hdrSEID (smHeader reqM))))
     | Some session =>
         exists req',
           req' = ModifySessionModification (modifier m) reqM (RemoteSEID session)
                    (ipBytes <$> UEIP session) (Next (seqCounter m)) /\
           hdrSEID (smHeader req') = RemoteSEID session /\
           (RemoteSEID session <> hdrSEID (smHeader reqM) ->
            hdrSEID (smHeader req') <> hdrSEID (smHeader reqM)) /\
           match Encode (MsgSessionModificationRequest req') with
           | Err _ =>
               handleSessionModification w m reqM
               = ((takeSeq m).2, Some (ErrEncode "Session Modification"))
           | Ok data =>
               tracked (handleSessionModification w m reqM).1
               = tracked m ++ [(Next (seqCounter m), data)] /\
               if wSendFails w then
                 sent (handleSessionModification w m reqM).1 = sent m /\
                 (handleSessionModification w m reqM).2
                 = Some (ErrSend "SessionModificationRequest")
               else
                 sent (handleSessionModification w m reqM).1 = sent m ++ [data]
           end
     end
  /\ match findSession m (hdrSEID (sdHeader reqD)) with
     | None =>
         handleSessionDeletion w m reqD
         = (m, Some (ErrNoSession (hdrSEID (sdHeader reqD))))
     | Some session =>
         exists req',
           req' = ModifySessionDeletion reqD (RemoteSEID session) (Next (seqCounter m)) /\
           hdrSEID (sdHeader req') = RemoteSEID session /\
           (RemoteSEID session <> hdrSEID (sdHeader reqD) ->
            hdrSEID (sdHeader req') <> hdrSEID (sdHeader reqD)) /\
           match Encode (MsgSessionDeletionRequest req') with
           | Err _ =>
               handleSessionDeletion w m reqD
               = ((takeSeq m).2, Some (ErrEncode "Session Deletion"))
           | Ok data =>
               tracked (handleSessionDeletion w m reqD).1
               = tracked m ++ [(Next (seqCounter m), data)] /\
               if wSendFails w then
                 sent (handleSessionDeletion w m reqD).1 = sent m /\
                 (handleSessionDeletion w m reqD).2
                 = Some (ErrSend "SessionDeletionRequest")
               else
                 sent (handleSessionDeletion w m reqD).1 = sent m ++ [data]
           end
     end.
Proof.
  split_and!.
  - intros S p H. unfold findSessionByOriginalRemoteSEID. rewrite H. reflexivity.
  - intros S H. unfold findSessionByOriginalRemoteSEID. rewrite H.
    destruct (byOriginalCPSEID m !! S); reflexivity.
  - reflexivity.
  - unfold handleSessionModification.
    change (ExtractHeaderSEID (MsgSessionModificationRequest reqM))
      with (hdrSEID (smHeader reqM)).
    destruct (findSession m (hdrSEID (smHeader reqM))) as [session|]; [|reflexivity].
    eexists. split; [reflexivity|]. split; [reflexivity|]. split; [auto|].
    cbn [takeSeq modifier snd].
    destruct (Encode _) as [data|e]; [|reflexivity].
    unfold exchange. destruct (wSendFails w).
    + split; [reflexivity|]. split; reflexivity.
    + destruct (Tracker.Error (wResult w)); split; reflexivity.
  - unfold handleSessionDeletion, findSession.
    change (ExtractHeaderSEID (MsgSessionDeletionRequest reqD))
      with (hdrSEID (sdHeader reqD)).
    destruct (findSessionByOriginalRemoteSEID m (hdrSEID (sdHeader reqD))) as [p|];
      [|reflexivity].
    destruct (sessions m !! p) as [session|]; [|reflexivity].
    eexists. split; [reflexivity|]. split; [reflexivity|]. split; [auto|].
    cbn [takeSeq snd].
    destruct (Encode _) as [data|e]; [|reflexivity].
    unfold exchange. destruct (wSendFails w).
    + split; [reflexivity|]. split; reflexivity.
    + destruct (Tracker.Error (wResult w)); split; reflexivity.
Qed.


(** C4, as the code has it: for an establishment request without CP
    F-SEID IE, [ExtractCPSEID] returns the "no CP F-SEID" error, and the
    caller goes on with original CP SEID 0. When the allocations, the
    encoding and the send succeed, the request is registered with the
    tracker and sent, still without CP F-SEID and with header SEID 0;
    the session is stored under original CP SEID 0; and the replay goes
    on with the messages that follow. *)
Theorem establishment_without_cp_fseid
    (w : World) (m : Manager) (req : SessionEstablishmentRequest)
    (localSEID : Z) (alloc : SEIDAlloc.SEIDAllocator) (g : SEIDAlloc.Rng)
    (ueIP : Z) (pool : IPPool.UEIPPool) (data : list Z)
    (st : Step) (rest : list Step) :
  seCPFSEID req = None ->
  SEIDAlloc.Allocate (rng m) (seidAlloc m) = (Ok localSEID, alloc, g) ->
  IPPool.Allocate (ipPool m) = Some (Ok ueIP, pool) ->
  Encode (MsgSessionEstablishmentRequest
            (ModifySessionEstablishment (modifier m) req localSEID (ipBytes ueIP)
               (Next (seqCounter m)))) = Ok data ->
  wSendFails w = false ->
  cancelled st = false -> Decode (raw st) = Ok (MsgSessionEstablishmentRequest req) ->
  world st = w ->
  ExtractCPSEID req = Err ErrNoCPFSEID
  /\ seCPFSEID (ModifySessionEstablishment (modifier m) req localSEID (ipBytes ueIP)
                 (Next (seqCounter m))) = None
  /\ hdrSEID (seHeader (ModifySessionEstablishment (modifier m) req localSEID
                          (ipBytes ueIP) (Next (seqCounter m)))) = 0
  /\ exists m' e,
       handleSessionEstablishment w m req = Some (m', e) /\
       sent m' = sent m ++ [data] /\
       tracked m' = tracked m ++ [(Next (seqCounter m), data)] /\
       byOriginalCPSEID m' !! 0 = Some (nextSession m) /\
       (exists session, sessions m' !! nextSession m = Some session /\
                        OriginalCPSEID session = 0 /\ LocalSEID session = localSEID) /\
       Replay m (st :: rest)
       = match Replay m' rest with
         | None => None
         | Some (m'', outs, finished) => Some (m'', Processed e :: outs, finished)
         end.
Proof.
  intros Hno HA HP Henc Hsend Hnc Hdec Hw.
  assert (HX : ExtractCPSEID req = Err ErrNoCPFSEID)
    by (unfold ExtractCPSEID; rewrite Hno; reflexivity).
  split; [exact HX|].
  split; [unfold ModifySessionEstablishment; cbn; rewrite Hno; reflexivity|].
  split; [reflexivity|].
  destruct (handleSessionEstablishment_allocated w m req _ _ _ _ _ HA HP)
    as (m1 & p & Hreg & Hrun).
  rewrite HX in Hreg.
  destruct (registerSession_spec (withAllocators m alloc g pool)
              {| OriginalCPSEID := 0;
                 OriginalRemoteSEID := 0; LocalSEID := localSEID; RemoteSEID := 0;
                 UEIP := Some ueIP; State := "establishing"; CreatedAt := wNow w |})
    as (stored & Hspec).
  rewrite <- Hreg in Hspec. cbn [fst snd] in Hspec.
  destruct Hspec as (Hp & Hsess & HoCP & HlS & _ & _ & _ & _ & HbCP & _ & _ & _ & _ & _ & _ &
                     Hsent & Htr & _).
  cbn [withAllocators nextSession sessions byOriginalCPSEID sent tracked
       OriginalCPSEID LocalSEID] in Hp, Hsess, HoCP, HlS, HbCP, Hsent, Htr.
  subst p.
  assert (Hkeep : forall (m2 : Manager) f,
             sessions m2 = sessions m1 \/ sessions m2 = alter f (nextSession m) (sessions m1) ->
             byOriginalCPSEID m2 = byOriginalCPSEID m1 ->
             (forall s, OriginalCPSEID (f s) = OriginalCPSEID s /\ LocalSEID (f s) = LocalSEID s) ->
             byOriginalCPSEID m2 !! 0 = Some (nextSession m) /\
             exists session, sessions m2 !! nextSession m = Some session /\
                             OriginalCPSEID session = 0 /\ LocalSEID session = localSEID).
  { intros m2 f Hs Hb Hf. rewrite Hb, HbCP, lookup_insert_eq. split; [reflexivity|].
    destruct Hs as [-> | ->]; rewrite Hsess.
    - rewrite lookup_insert_eq. eauto.
    - rewrite lookup_alter_eq, lookup_insert_eq. cbn.
      destruct (Hf stored) as [F1 F2]. eexists. split; [reflexivity|].
      rewrite F1, F2. auto. }
  assert (Hrep : forall r, handleSessionEstablishment w m req = Some r ->
              Replay m (st :: rest)
              = match Replay r.1 rest with
                | None => None
                | Some (m'', outs, finished) => Some (m'', Processed r.2 :: outs, finished)
                end).
  { intros [m2 e2] Hh. cbn [Replay]. rewrite Hnc, Hdec. cbn [processMessage].
    rewrite Hw, Hh. reflexivity. }
  rewrite Henc in Hrun. unfold exchange in Hrun. rewrite Hsend in Hrun.
  destruct (Tracker.Error (wResult w)) as [te|].
  - eexists _, _. split; [exact Hrun|].
    split; [cbn; rewrite Hsent; reflexivity|].
    split; [cbn; rewrite Htr; reflexivity|].
    destruct (Hkeep (withSession
                       (withStats (send (track (withStats (takeSeq m1).2
                          [RecordSent "SessionEstablishmentRequest"])
                          (Next (seqCounter m)) data) data)
                          [RecordTimeout "SessionEstablishmentRequest"; RecordSessionFailed])
                       (nextSession m) (fun s => setState s "failed"))
                (fun s => setState s "failed")) as [K1 K2];
      [right; reflexivity | reflexivity | intros; split; reflexivity |].
    split; [exact K1|]. split; [exact K2|].
    exact (Hrep _ Hrun).
  - set (m2 := send (track (withStats (takeSeq m1).2
                        [RecordSent "SessionEstablishmentRequest"])
                        (Next (seqCounter m)) data) data) in *.
    assert (Hresp : sent (establishmentResponse m2 (nextSession m) (wResult w)).1 = sent m2 /\
                    tracked (establishmentResponse m2 (nextSession m) (wResult w)).1
                    = tracked m2 /\
                    byOriginalCPSEID (establishmentResponse m2 (nextSession m) (wResult w)).1
                    = byOriginalCPSEID m2 /\
                    exists f, (sessions (establishmentResponse m2 (nextSession m) (wResult w)).1
                               = sessions m2 \/
                               sessions (establishmentResponse m2 (nextSession m) (wResult w)).1
                               = alter f (nextSession m) (sessions m2)) /\
                              forall s, OriginalCPSEID (f s) = OriginalCPSEID s /\
                                        LocalSEID (f s) = LocalSEID s).
    { unfold establishmentResponse.
      destruct (Decode (Tracker.Response (wResult w))) as [[a|a|a|a|a|resp|t h i]|de];
        try (cbn; split_and!; try reflexivity;
             exists (fun s => s); split; [left; reflexivity | intros; split; reflexivity]).
      destruct (match srCause resp with
                | Some c => match ie_Cause c with
                            | Some cause =>
                                if cause =? CauseRequestAccepted then None else Some cause
                            | None => None
                            end
                | None => None
                end) as [cause|].
      - cbn. split_and!; try reflexivity.
        exists (fun s => setState s "failed").
        split; [right; reflexivity | intros; split; reflexivity].
      - destruct (ExtractRemoteSEID resp) as [remote|xe].
        + cbn. split_and!; try reflexivity.
          exists (fun s => setState (setRemoteSEID s remote) "established").
          split; [right; reflexivity | intros; split; reflexivity].
        + cbn. split_and!; try reflexivity.
          exists (fun s => s). split; [left; reflexivity | intros; split; reflexivity]. }
    destruct Hresp as (R1 & R2 & R3 & f & R4 & R5).
    destruct (establishmentResponse m2 (nextSession m) (wResult w)) as [m3 e3] eqn:E3.
    cbn [fst] in R1, R2, R3, R4.
    exists m3, e3. split; [exact Hrun|].
    split; [rewrite R1; unfold m2; cbn; rewrite Hsent; reflexivity|].
    split; [rewrite R2; unfold m2; cbn; rewrite Htr; reflexivity|].
    destruct (Hkeep m3 f) as [K1 K2]; [exact R4 | rewrite R3; reflexivity | exact R5 |].
    split; [exact K1|]. split; [exact K2|].
    exact (Hrep _ Hrun).
Qed.

End ManagerClaims.

Section ManagerSamples.
Import Pfcp Session Samples.

Lemma establishment_without_cp_fseid_witness :
  ExtractCPSEID (codec := sampleCodec) establishmentNoFSEID = Err ErrNoCPFSEID
  /\ seCPFSEID (ModifySessionEstablishment (codec := sampleCodec) (modifier freshManager)
                 establishmentNoFSEID 1 (ipBytes (IPPool.ipv4 10 60 0 1))
                 (Next (seqCounter freshManager))) = None
  /\ hdrSEID (seHeader (ModifySessionEstablishment (codec := sampleCodec)
                          (modifier freshManager) establishmentNoFSEID 1
                          (ipBytes (IPPool.ipv4 10 60 0 1))
                          (Next (seqCounter freshManager)))) = 0
  /\ exists m' e,
       handleSessionEstablishment (codec := sampleCodec) accepted freshManager
         establishmentNoFSEID = Some (m', e) /\
       sent m' = sent freshManager ++ [[50; 0; 1]] /\
       tracked m' = tracked freshManager ++ [(Next (seqCounter freshManager), [50; 0; 1])] /\
       byOriginalCPSEID m' !! 0 = Some (nextSession freshManager) /\
       (exists session, sessions m' !! nextSession freshManager = Some session /\
                        OriginalCPSEID session = 0 /\ LocalSEID session = 1) /\
       Replay (codec := sampleCodec) freshManager
         (stepOf [50; 0; 77] accepted :: [stepOf [52; 0; 78] accepted])
       = match Replay (codec := sampleCodec) m' [stepOf [52; 0; 78] accepted] with
         | None => None
         | Some (m'', outs, finished) => Some (m'', Processed e :: outs, finished)
         end.
Proof.
  apply (establishment_without_cp_fseid (codec := sampleCodec)
           accepted freshManager establishmentNoFSEID 1
           (SEIDAlloc.Allocate (rng freshManager) (seidAlloc freshManager)).1.2
           (SEIDAlloc.Allocate (rng freshManager) (seidAlloc freshManager)).2
           (IPPool.ipv4 10 60 0 1)
           (IPPool.poolAfter IPPool.block30 1)
           [50; 0; 1] (stepOf [50; 0; 77] accepted) [stepOf [52; 0; 78] accepted]).
  - reflexivity.
  - vm_compute. reflexivity.
  - exact (poolAfter_step IPPool.block30 0 block30_proper ltac:(vm_compute; split; congruence)).
  - reflexivity.
  - reflexivity.
  - reflexivity.
  - reflexivity.
  - reflexivity.
Defined.

(** C4 fails as stated: the establishment request without CP F-SEID is
    sent all the same, and the handler reports no error. *)
Lemma establishment_without_cp_fseid_is_sent :
  seCPFSEID establishmentNoFSEID = None
  /\ option_map snd (handleSessionEstablishment (codec := sampleCodec) accepted
                       freshManager establishmentNoFSEID) = Some None
  /\ option_map (fun r => sent r.1)
                (handleSessionEstablishment (codec := sampleCodec) accepted
                   freshManager establishmentNoFSEID) = Some [[50; 0; 1]].
Proof. split_and!; vm_compute; reflexivity. Qed.



End ManagerSamples.
